(** * megacalc: the expression compiler and the task scheduler

    A shallow embedding of [internal/service]: the tokenizer, the
    shunting-yard conversion, the task graph builder and the scheduler
    state store ([Service]), together with the part of the HTTP handler
    that guards [SubmitExpression].

    Conventions.
    - Go strings are byte strings: [string] (a list of [ascii]).
    - A Go map used as a dictionary is a [gmap]; a [map[string]bool] that
      only ever stores [true] is a [gset].
    - Functions returning [(T, error)] return a [result T].
    - A nil-pointer dereference (a run-time panic) is [None] in the
      functions that can reach one.
    - What the Go runtime or a library chooses (the iteration order of a
      map, the identifier made by [uuid.New]) is an explicit argument.
    - The functions of Go's library that the code calls on float64
      ([strconv.ParseFloat], [fmt.Sprintf "%f"], the arithmetic) are
      the fields of the class [GoFloat64]: every theorem holds for each
      instance of it. *)

From Stdlib Require Import String Ascii ZArith Lia Permutation.
From stdpp Require Import base strings gmap sets list pretty.

Open Scope string_scope.
Open Scope list_scope.

Set Default Proof Using "Type".

(** ** Results of fallible functions *)

Inductive result (A : Type) : Type :=
| Ok (a : A)
| Err (msg : string).
Arguments Ok {A} a.
Arguments Err {A} msg.

Definition isOk {A} (r : result A) : bool :=
  match r with Ok _ => true | Err _ => false end.

(** ** Domain types *)

(** [type Operation string] with its four constants. *)
Definition Operation := string.
Definition Addition : Operation := "+".
Definition Subtraction : Operation := "-".
Definition Multiplication : Operation := "*".
Definition Division : Operation := "/".

Inductive ExpressionStatus : Set :=
| Pending
| InProcess
| Completed
| Failed.

#[global] Instance ExpressionStatus_eq_dec : EqDecision ExpressionStatus.
Proof. solve_decision. Defined.

Module ExpressionData.
Record t (F : Type) : Type := mk {
  ID : string;
  Expression : string;
  Status : ExpressionStatus;
  Result : option F
}.
Arguments mk {F} ID Expression Status Result.
Arguments ID {F} _.
Arguments Expression {F} _.
Arguments Status {F} _.
Arguments Result {F} _.

Definition setStatus {F} (st : ExpressionStatus) (e : t F) : t F :=
  mk (ID e) (Expression e) st (Result e).
Definition setResult {F} (r : option F) (e : t F) : t F :=
  mk (ID e) (Expression e) (Status e) r.
End ExpressionData.

Module Task.
Record t (F : Type) : Type := mk {
  ID : string;
  ExpressionID : string;
  Arg1 : string;
  Arg2 : string;
  Operation : string;
  OperationTime : Z;
  Result : option F;
  Status : string;
  Dependencies : list string
}.
Arguments mk {F} ID ExpressionID Arg1 Arg2 Operation OperationTime Result
  Status Dependencies.
Arguments ID {F} _.
Arguments ExpressionID {F} _.
Arguments Arg1 {F} _.
Arguments Arg2 {F} _.
Arguments Operation {F} _.
Arguments OperationTime {F} _.
Arguments Result {F} _.
Arguments Status {F} _.
Arguments Dependencies {F} _.

Definition setArg1 {F} (a : string) (k : t F) : t F :=
  mk (ID k) (ExpressionID k) a (Arg2 k) (Operation k) (OperationTime k)
     (Result k) (Status k) (Dependencies k).
Definition setArg2 {F} (a : string) (k : t F) : t F :=
  mk (ID k) (ExpressionID k) (Arg1 k) a (Operation k) (OperationTime k)
     (Result k) (Status k) (Dependencies k).
Definition setResult {F} (r : option F) (k : t F) : t F :=
  mk (ID k) (ExpressionID k) (Arg1 k) (Arg2 k) (Operation k)
     (OperationTime k) r (Status k) (Dependencies k).
Definition setStatus {F} (st : string) (k : t F) : t F :=
  mk (ID k) (ExpressionID k) (Arg1 k) (Arg2 k) (Operation k)
     (OperationTime k) (Result k) st (Dependencies k).
Definition setDependencies {F} (d : list string) (k : t F) : t F :=
  mk (ID k) (ExpressionID k) (Arg1 k) (Arg2 k) (Operation k)
     (OperationTime k) (Result k) (Status k) d.
End Task.

Record OperationTimes : Set := mkOperationTimes {
  otAddition : Z;
  otSubtraction : Z;
  otMultiplication : Z;
  otDivision : Z
}.

(** ** The expression compiler: helpers that do not touch float64 *)

(** [isOperator]. *)
Definition isOperator (token : string) : bool :=
  (token =? "+") || (token =? "-") || (token =? "*") || (token =? "/").

(** [getPrecedence]. *)
Definition getPrecedence (operator : string) : Z :=
  if (operator =? "+") || (operator =? "-") then 1
  else if (operator =? "*") || (operator =? "/") then 2
  else 0.

(** [hasHigherPrecedence]: higher or equal. *)
Definition hasHigherPrecedence (op1 op2 : string) : bool :=
  (getPrecedence op2 <=? getPrecedence op1)%Z.

(** [string(expression[i])]: the conversion of one byte to a string goes
    through a rune, so a byte above 127 becomes the two bytes of its
    UTF-8 encoding. *)
Definition byteToString (b : ascii) : string :=
  let n := N_of_ascii b in
  if (n <? 128)%N then String b EmptyString
  else String (ascii_of_N (192 + N.shiftr n 6))
         (String (ascii_of_N (128 + N.land n 63)) EmptyString).

(** The first case of the switch in [tokenize], on Go's byte-wise
    lexicographic order of strings. *)
Definition isDigitOrDot (char : string) : bool :=
  (String.leb "0" char && String.leb char "9") || (char =? ".").

(** [if currentNumber != "" { tokens = append(tokens, currentNumber) }]. *)
Definition flushNumber (tokens : list string) (currentNumber : string)
  : list string :=
  if currentNumber =? "" then tokens else tokens ++ [currentNumber].

(** The loop of [tokenize], from byte [i] on, with the two local
    variables as accumulators. *)
Fixpoint tokenizeFrom (expression : string) (tokens : list string)
    (currentNumber : string) : result (list string) :=
  match expression with
  | EmptyString => Ok (flushNumber tokens currentNumber)
  | String b rest =>
      let char := byteToString b in
      if isDigitOrDot char then
        tokenizeFrom rest tokens (currentNumber +:+ char)
      else if isOperator char then
        tokenizeFrom rest (flushNumber tokens currentNumber ++ [char]) ""
      else if (char =? "(") || (char =? ")") then
        tokenizeFrom rest (flushNumber tokens currentNumber ++ [char]) ""
      else Err ("invalid character in expression: " +:+ char)
  end.

(** [tokenize]. *)
Definition tokenize (expression : string) : result (list string) :=
  tokenizeFrom expression [] "".

(** The operator stack of [shuntingYard] is a list whose head is the top
    of the stack (the Go slice keeps the top at its end). *)

(** The inner loop of the operator case. *)
Fixpoint popHigher (token : string) (output operatorStack : list string)
  : list string * list string :=
  match operatorStack with
  | top :: below =>
      if negb (top =? "(") && hasHigherPrecedence top token
      then popHigher token (output ++ [top]) below
      else (output, operatorStack)
  | [] => (output, [])
  end.

(** The inner loop of the [")"] case. *)
Fixpoint popToParen (output operatorStack : list string)
  : list string * list string :=
  match operatorStack with
  | top :: below =>
      if negb (top =? "(") then popToParen (output ++ [top]) below
      else (output, operatorStack)
  | [] => (output, [])
  end.

(** The final loop of [shuntingYard]. *)
Fixpoint drainStack (output operatorStack : list string)
  : result (list string) :=
  match operatorStack with
  | top :: below =>
      if top =? "(" then Err "mismatched parentheses"
      else drainStack (output ++ [top]) below
  | [] => Ok output
  end.

(** ** Reference syntax of infix expressions

    The grammar behind "valid infix token stream": sums of products of
    factors, a factor being a numeric token or a parenthesised
    expression. The shape of the tree is the precedence and the
    left-associativity of the four operators. *)

Inductive addop : Set := OpAdd | OpSub.
Inductive mulop : Set := OpMul | OpDiv.

Definition addopToken (o : addop) : string :=
  match o with OpAdd => "+" | OpSub => "-" end.
Definition mulopToken (o : mulop) : string :=
  match o with OpMul => "*" | OpDiv => "/" end.

Inductive expr : Set :=
| ETerm (t : term)
| EBin (e : expr) (o : addop) (t : term)
with term : Set :=
| TFactor (f : factor)
| TBin (t : term) (o : mulop) (f : factor)
with factor : Set :=
| FNum (token : string)
| FParen (e : expr).

Scheme expr_mut := Induction for expr Sort Prop
  with term_mut := Induction for term Sort Prop
  with factor_mut := Induction for factor Sort Prop.
Combined Scheme syntax_mutind from expr_mut, term_mut, factor_mut.

(** The token stream of an expression. *)
Fixpoint exprTokens (e : expr) : list string :=
  match e with
  | ETerm t => termTokens t
  | EBin e o t => exprTokens e ++ [addopToken o] ++ termTokens t
  end
with termTokens (t : term) : list string :=
  match t with
  | TFactor f => factorTokens f
  | TBin t o f => termTokens t ++ [mulopToken o] ++ factorTokens f
  end
with factorTokens (f : factor) : list string :=
  match f with
  | FNum token => [token]
  | FParen e => ["("] ++ exprTokens e ++ [")"]
  end.

(** Its postfix form: operands first, then the operator. *)
Fixpoint exprPostfix (e : expr) : list string :=
  match e with
  | ETerm t => termPostfix t
  | EBin e o t => exprPostfix e ++ termPostfix t ++ [addopToken o]
  end
with termPostfix (t : term) : list string :=
  match t with
  | TFactor f => factorPostfix f
  | TBin t o f => termPostfix t ++ factorPostfix f ++ [mulopToken o]
  end
with factorPostfix (f : factor) : list string :=
  match f with
  | FNum token => [token]
  | FParen e => exprPostfix e
  end.

(** The numeric tokens of an expression. *)
Fixpoint exprLeaves (e : expr) : list string :=
  match e with
  | ETerm t => termLeaves t
  | EBin e _ t => exprLeaves e ++ termLeaves t
  end
with termLeaves (t : term) : list string :=
  match t with
  | TFactor f => factorLeaves f
  | TBin t _ f => termLeaves t ++ factorLeaves f
  end
with factorLeaves (f : factor) : list string :=
  match f with
  | FNum token => [token]
  | FParen e => exprLeaves e
  end.

(** ** Go's float64

    The type and the functions of Go's library that the code calls on
    it: [strconv.ParseFloat(token, 64)] ([None] when it returns an
    error), [fmt.Sprintf("%f", result)], the arithmetic and the test
    [arg2 == 0]. *)
Class GoFloat64 (F : Type) : Type := {
  ParseFloat : string → option F;
  Sprintf_f : F → string;
  fadd : F → F → F;
  fsub : F → F → F;
  fmul : F → F → F;
  fdiv : F → F → F;
  fisZero : F → bool
}.

(** ** The program over float64 *)

Section Model.

Context {F : Type} {float64 : GoFloat64 F}.

(** [isNumber]. *)
Definition isNumber (token : string) : bool :=
  match ParseFloat token with Some _ => true | None => false end.

(** The main loop of [shuntingYard]; a token that no case of the switch
    matches is skipped. *)
Fixpoint shuntingYardFrom (tokens output operatorStack : list string)
  : result (list string) :=
  match tokens with
  | [] => drainStack output operatorStack
  | token :: rest =>
      if isNumber token then
        shuntingYardFrom rest (output ++ [token]) operatorStack
      else if isOperator token then
        let '(output', stack') := popHigher token output operatorStack in
        shuntingYardFrom rest output' (token :: stack')
      else if token =? "(" then
        shuntingYardFrom rest output (token :: operatorStack)
      else if token =? ")" then
        let '(output', stack') := popToParen output operatorStack in
        match stack' with
        | top :: below =>
            if negb (top =? "(") then Err "mismatched parentheses"
            else shuntingYardFrom rest output' below
        | [] => Err "mismatched parentheses"
        end
      else shuntingYardFrom rest output operatorStack
  end.

(** [shuntingYard]. *)
Definition shuntingYard (tokens : list string) : result (list string) :=
  shuntingYardFrom tokens [] [].

(** [ProcessOperation], without the simulated delay. *)
Definition ProcessOperation (operation : Operation) (arg1 arg2 : F)
  : result F :=
  if operation =? Addition then Ok (fadd arg1 arg2)
  else if operation =? Subtraction then Ok (fsub arg1 arg2)
  else if operation =? Multiplication then Ok (fmul arg1 arg2)
  else if operation =? Division then
    if fisZero arg2 then Err "division by zero" else Ok (fdiv arg1 arg2)
  else Err ("unknown operation: " +:+ operation).

(** *** The two evaluators of the oracle test *)

(** Left-to-right stack evaluation of a postfix sequence; the head of
    [stack] is its top. Operands are read as the worker reads them
    ([parseArg]), operators are applied by [ProcessOperation]. *)
Fixpoint evalPostfixFrom (postfix : list string) (stack : list F)
  : result F :=
  match postfix with
  | [] =>
      match stack with
      | [v] => Ok v
      | _ => Err "invalid expression"
      end
  | token :: rest =>
      if isOperator token then
        match stack with
        | arg2 :: arg1 :: below =>
            match ProcessOperation token arg1 arg2 with
            | Ok v => evalPostfixFrom rest (v :: below)
            | Err msg => Err msg
            end
        | _ => Err "invalid expression"
        end
      else
        match ParseFloat token with
        | Some v => evalPostfixFrom rest (v :: stack)
        | None => Err "invalid operand"
        end
  end.

Definition evalPostfix (postfix : list string) : result F :=
  evalPostfixFrom postfix [].

(** Direct evaluation of an infix expression, by recursion on its
    syntax tree. *)
Fixpoint evalExpr (e : expr) : result F :=
  match e with
  | ETerm t => evalTerm t
  | EBin e o t =>
      match evalExpr e with
      | Ok a =>
          match evalTerm t with
          | Ok b => ProcessOperation (addopToken o) a b
          | Err msg => Err msg
          end
      | Err msg => Err msg
      end
  end
with evalTerm (t : term) : result F :=
  match t with
  | TFactor f => evalFactor f
  | TBin t o f =>
      match evalTerm t with
      | Ok a =>
          match evalFactor f with
          | Ok b => ProcessOperation (mulopToken o) a b
          | Err msg => Err msg
          end
      | Err msg => Err msg
      end
  end
with evalFactor (f : factor) : result F :=
  match f with
  | FNum token =>
      match ParseFloat token with
      | Some v => Ok v
      | None => Err "invalid operand"
      end
  | FParen e => evalExpr e
  end.

(** *** The scheduler state *)

Record Service : Type := mkService {
  expressions : gmap string (ExpressionData.t F);
  tasks : gmap string (Task.t F);
  taskQueue : list string;
  completedTasks : gset string;
  readyTasks : gset string;
  opTimes : OperationTimes;
  taskIDCounter : nat;
  dependencyGraph : gmap string (list string);
  reverseDependencies : gmap string (list string)
}.

Definition setExpressions (m : gmap string (ExpressionData.t F))
    (s : Service) : Service :=
  mkService m (tasks s) (taskQueue s) (completedTasks s) (readyTasks s)
    (opTimes s) (taskIDCounter s) (dependencyGraph s)
    (reverseDependencies s).
Definition setTasks (m : gmap string (Task.t F)) (s : Service) : Service :=
  mkService (expressions s) m (taskQueue s) (completedTasks s)
    (readyTasks s) (opTimes s) (taskIDCounter s) (dependencyGraph s)
    (reverseDependencies s).
Definition setCompletedTasks (c : gset string) (s : Service) : Service :=
  mkService (expressions s) (tasks s) (taskQueue s) c (readyTasks s)
    (opTimes s) (taskIDCounter s) (dependencyGraph s)
    (reverseDependencies s).
Definition setReadyTasks (r : gset string) (s : Service) : Service :=
  mkService (expressions s) (tasks s) (taskQueue s) (completedTasks s) r
    (opTimes s) (taskIDCounter s) (dependencyGraph s)
    (reverseDependencies s).

(** [NewService]. *)
Definition NewService (opTimes : OperationTimes) : Service :=
  mkService ∅ ∅ [] ∅ ∅ opTimes 0 ∅ ∅.

(** [fmt.Sprintf("task_%d", n)]. The counter is a Go [int]; it is
    incremented once for each entry added to [tasks], so it cannot wrap
    around before memory is exhausted, and is unbounded here. *)
Definition taskName (n : nat) : string := "task_" +:+ pretty n.

(** [s.reverseDependencies[id]]: the nil slice when the key is absent. *)
Definition dependents (s : Service) (id : string) : list string :=
  default [] (reverseDependencies s !! id).

(** [_, isTaskID := s.tasks[arg]]. *)
Definition isTaskID (s : Service) (arg : string) : bool :=
  match tasks s !! arg with Some _ => true | None => false end.

(** The switch of [createTask]. *)
Definition operationTime (ot : OperationTimes) (operation : Operation) : Z :=
  if operation =? Addition then otAddition ot
  else if operation =? Subtraction then otSubtraction ot
  else if operation =? Multiplication then otMultiplication ot
  else if operation =? Division then otDivision ot
  else 0%Z.

(** One of the two "set up dependencies" blocks of [createTask]: the
    dependencies of the new task and the reverse index, after looking at
    [arg]. *)
Definition addDependency (s : Service) (taskID arg : string)
    (acc : list string * gmap string (list string))
  : list string * gmap string (list string) :=
  if isTaskID s arg
  then (acc.1 ++ [arg], <[arg := default [] (acc.2 !! arg) ++ [taskID]]> acc.2)
  else acc.

(** [createTask]. *)
Definition createTask (exprID arg1 arg2 : string) (operation : Operation)
    (s : Service) : string * Service :=
  let counter := S (taskIDCounter s) in
  let taskID := taskName counter in
  let opTime := operationTime (opTimes s) operation in
  let '(deps, rdeps) :=
    addDependency s taskID arg2
      (addDependency s taskID arg1 ([], reverseDependencies s)) in
  let task :=
    Task.mk taskID exprID arg1 arg2 operation opTime None "pending" deps in
  (taskID,
   mkService (expressions s) (<[taskID := task]> (tasks s)) (taskQueue s)
     (completedTasks s) (readyTasks s) (opTimes s) counter
     (<[taskID := deps]> (dependencyGraph s)) rdeps).

(** The first loop of [createTasksFromPostfix]; the head of [stack] is
    its top. On an error the tasks created so far stay in the store. *)
Fixpoint buildTasks (exprID : string) (postfix stack : list string)
    (s : Service) : Service * result (list string) :=
  match postfix with
  | [] => (s, Ok stack)
  | token :: rest =>
      if isOperator token then
        match stack with
        | arg2 :: arg1 :: below =>
            let '(taskID, s') := createTask exprID arg1 arg2 token s in
            buildTasks exprID rest (taskID :: below) s'
        | _ =>
            (s, Err ("invalid expression: not enough operands for operator "
                     +:+ token))
        end
      else buildTasks exprID rest (token :: stack) s
  end.

(** The body of the second loop of [createTasksFromPostfix]. *)
Definition markReadyStep (exprID : string) (s : Service)
    (ready : gset string) (entry : string * Task.t F) : gset string :=
  let '(taskID, task) := entry in
  if Task.ExpressionID task =? exprID then
    if negb (isTaskID s (Task.Arg1 task)) && negb (isTaskID s (Task.Arg2 task))
    then {[taskID]} ∪ ready
    else ready
  else ready.

(** The second loop, over the entries of [tasks] in the order [order]. *)
Definition markReadyIn (order : list (string * Task.t F)) (exprID : string)
    (s : Service) : Service :=
  setReadyTasks (foldl (markReadyStep exprID s) (readyTasks s) order) s.

(** The loop only adds keys to a set, so the order in which Go visits
    [tasks] does not show in its result (lemma [markReadyIn_order]); the
    order of [map_to_list] stands for it. *)
Definition markReady (exprID : string) (s : Service) : Service :=
  markReadyIn (map_to_list (tasks s)) exprID s.

(** [createTasksFromPostfix]: the new state and the error, if any. *)
Definition createTasksFromPostfix (exprID : string) (postfix : list string)
    (s : Service) : Service * option string :=
  match buildTasks exprID postfix [] s with
  | (s', Err msg) => (s', Some msg)
  | (s', Ok stack) =>
      if negb (length stack =? 1)%nat
      then (s', Some "invalid expression: too many values left on stack")
      else (markReady exprID s', None)
  end.

(** [parseExpression]. *)
Definition parseExpression (exprID expression : string) (s : Service)
  : Service * option string :=
  match tokenize expression with
  | Err msg => (s, Some msg)
  | Ok tokens =>
      match shuntingYard tokens with
      | Err msg => (s, Some msg)
      | Ok output => createTasksFromPostfix exprID output s
      end
  end.

(** [strings.ReplaceAll(expression, " ", "")]. *)
Fixpoint removeSpaces (expression : string) : string :=
  match expression with
  | EmptyString => EmptyString
  | String b rest =>
      if Ascii.eqb b " "%char then removeSpaces rest
      else String b (removeSpaces rest)
  end.

(** [SubmitExpression]; [id] is the string [uuid.New().String()] made
    by the call. [expr] points into the map, so the assignments to
    [expr.Status] change the entry in place. *)
Definition SubmitExpression (id expression : string) (s : Service)
  : Service * result string :=
  let expression := removeSpaces expression in
  let expr := ExpressionData.mk id expression Pending None in
  let s1 := setExpressions (<[id := expr]> (expressions s)) s in
  match parseExpression id expression s1 with
  | (s2, Some err) =>
      (setExpressions
         (alter (ExpressionData.setStatus Failed) id (expressions s2)) s2,
       Err err)
  | (s2, None) =>
      (setExpressions
         (alter (ExpressionData.setStatus InProcess) id (expressions s2)) s2,
       Ok id)
  end.

(** [GetExpression]. *)
Definition GetExpression (id : string) (s : Service)
  : option (ExpressionData.t F) :=
  expressions s !! id.

(** What a [range] over a map can yield first: any key, or nothing when
    the map is empty. *)
Definition rangeFirst (m : gset string) (first : option string) : Prop :=
  match first with
  | Some k => k ∈ m
  | None => m = ∅
  end.

(** [GetTask], [first] being what [range s.readyTasks] yields first.
    The outer [None] is the panic of [task.Status = ...] on a nil
    [task]. *)
Definition GetTask (first : option string) (s : Service)
  : option (option (Task.t F) * Service) :=
  match first with
  | Some taskID =>
      match tasks s !! taskID with
      | Some task =>
          let task' := Task.setStatus "processing" task in
          Some (Some task',
                setReadyTasks (readyTasks s ∖ {[taskID]})
                  (setTasks (<[taskID := task']> (tasks s)) s))
      | None => None
      end
  | None => Some (None, s)
  end.

(** The loop of [updateExpressionStatus] over the keys of [tasks] in the
    order [order]: the pair [(allCompleted, finalResult)]. *)
Fixpoint scanTasks (s : Service) (exprID : string) (order : list string)
    (finalResult : option F) : bool * option F :=
  match order with
  | [] => (true, finalResult)
  | taskID :: rest =>
      match tasks s !! taskID with
      | Some task =>
          if Task.ExpressionID task =? exprID then
            match Task.Result task with
            | None => (false, finalResult)
            | Some r =>
                scanTasks s exprID rest
                  (if (length (dependents s taskID) =? 0)%nat
                   then Some r else finalResult)
            end
          else scanTasks s exprID rest finalResult
      | None => scanTasks s exprID rest finalResult
      end
  end.

(** [updateExpressionStatus]; [None] is the panic of [expr.Status = ...]
    on a nil [expr]. *)
Definition updateExpressionStatus (order : list string) (exprID : string)
    (s : Service) : option Service :=
  match scanTasks s exprID order None with
  | (true, Some r) =>
      match expressions s !! exprID with
      | Some expr =>
          Some (setExpressions
                  (<[exprID := ExpressionData.setResult (Some r)
                                 (ExpressionData.setStatus Completed expr)]>
                     (expressions s)) s)
      | None => None
      end
  | _ => Some s
  end.

(** The substitution of a result into one operand slot. *)
Definition substArg (taskID : string) (result : F) (arg : string) : string :=
  if arg =? taskID then Sprintf_f result else arg.

(** The body of the loop of [updateDependencies]; [None] is the panic of
    [depTask.Arg1] on a nil [depTask]. *)
Definition updateDependent (taskID : string) (result : F) (s : Service)
    (depID : string) : option Service :=
  match tasks s !! depID with
  | Some depTask =>
      let depTask1 :=
        Task.setArg1 (substArg taskID result (Task.Arg1 depTask)) depTask in
      let depTask2 :=
        Task.setArg2 (substArg taskID result (Task.Arg2 depTask1)) depTask1 in
      let allDepsCompleted :=
        forallb (λ dID, bool_decide (dID ∈ completedTasks s))
          (Task.Dependencies depTask2) in
      let s' := setTasks (<[depID := depTask2]> (tasks s)) s in
      Some (if allDepsCompleted
            then setReadyTasks ({[depID]} ∪ readyTasks s') s'
            else s')
  | None => None
  end.

Fixpoint updateDependenciesFrom (taskID : string) (result : F)
    (deps : list string) (s : Service) : option Service :=
  match deps with
  | [] => Some s
  | depID :: rest =>
      match updateDependent taskID result s depID with
      | Some s' => updateDependenciesFrom taskID result rest s'
      | None => None
      end
  end.

(** [updateDependencies]. *)
Definition updateDependencies (taskID : string) (result : F) (s : Service)
  : option Service :=
  updateDependenciesFrom taskID result (dependents s taskID) s.

(** [SetTaskResult]; [order] is the order in which
    [updateExpressionStatus] visits the keys of [tasks]. The result is
    the new state and the error, if any; the outer [None] is a panic. *)
Definition SetTaskResult (order : list string) (id : string) (result : F)
    (s : Service) : option (Service * option string) :=
  match tasks s !! id with
  | None => Some (s, Some ("task not found: " +:+ id))
  | Some task =>
      let s1 :=
        setCompletedTasks ({[id]} ∪ completedTasks s)
          (setTasks (<[id := Task.setResult (Some result) task]> (tasks s)) s)
      in
      match updateExpressionStatus order (Task.ExpressionID task) s1 with
      | Some s2 =>
          match updateDependencies id result s2 with
          | Some s3 => Some (s3, None)
          | None => None
          end
      | None => None
      end
  end.

(** *** The request handler in front of [SubmitExpression] *)

(** [c.ShouldBindJSON(&req)] for [ExpressionRequest]: [body] is the
    decoded field [expression] ([None] when the body is not the JSON of
    such an object, the empty string when the field is absent), and the
    tag [binding:"required"] rejects the zero value of the field. *)
Definition ShouldBindJSON (body : option string) : result string :=
  match body with
  | None => Err "invalid request"
  | Some expression =>
      if expression =? ""
      then Err "Key: 'ExpressionRequest.Expression' Error:Field validation for 'Expression' failed on the 'required' tag"
      else Ok expression
  end.

Definition StatusCreated : Z := 201.
Definition StatusUnprocessableEntity : Z := 422.

(** [CalculateExpression]: the new state, the status code and the
    ["id"] or ["error"] field of the response. *)
Definition CalculateExpression (id : string) (body : option string)
    (s : Service) : Service * (Z * string) :=
  match ShouldBindJSON body with
  | Err err => (s, (StatusUnprocessableEntity, err))
  | Ok expression =>
      match SubmitExpression id expression s with
      | (s', Err err) => (s', (StatusUnprocessableEntity, err))
      | (s', Ok id') => (s', (StatusCreated, id'))
      end
  end.

(** *** Executions of the store *)

(** One call of a mutating operation, with what it returned. *)
Inductive event : Type :=
| Submitted (id expression : string) (r : result string)
| Pulled (r : option (Task.t F))
| Recorded (id : string) (value : F) (err : option string).

(** The operations are serialized by [s.mu], so an execution is a
    sequence of whole calls. [uuid.New] makes an identifier that is not
    yet in use; a map is visited in any order of its keys. *)
Inductive step : Service → event → Service → Prop :=
| step_submit s id expression s' r :
    expressions s !! id = None →
    SubmitExpression id expression s = (s', r) →
    step s (Submitted id expression r) s'
| step_pull s first r s' :
    rangeFirst (readyTasks s) first →
    GetTask first s = Some (r, s') →
    step s (Pulled r) s'
| step_record s order id value s' err :
    order ≡ₚ elements (dom (tasks s)) →
    SetTaskResult order id value s = Some (s', err) →
    step s (Recorded id value err) s'.

Inductive run (s0 : Service) : list event → Service → Prop :=
| run_nil : run s0 [] s0
| run_snoc evs s ev s' :
    run s0 evs s → step s ev s' → run s0 (evs ++ [ev]) s'.

(** The ids of the tasks returned by the pulls of an execution. *)
Definition pulledIDs (evs : list event) : list string :=
  omap (λ ev, match ev with
              | Pulled (Some task) => Some (Task.ID task)
              | _ => None
              end) evs.

(** The task ids of the successful [SetTaskResult] calls. *)
Definition recordedIDs (evs : list event) : list string :=
  omap (λ ev, match ev with
              | Recorded id _ None => Some id
              | _ => None
              end) evs.

(** ** Vocabulary of the statements about the tokenizer *)

Definition isDigitByte (b : ascii) : bool :=
  let n := N_of_ascii b in (48 <=? n)%N && (n <=? 57)%N.

Definition isDotByte (b : ascii) : bool := Ascii.eqb b "."%char.

Definition isOperatorByte (b : ascii) : bool :=
  Ascii.eqb b "+"%char || Ascii.eqb b "-"%char
  || Ascii.eqb b "*"%char || Ascii.eqb b "/"%char.

Definition isParenByte (b : ascii) : bool :=
  Ascii.eqb b "("%char || Ascii.eqb b ")"%char.

(** A character the tokenizer accepts: a digit, a decimal point, one of
    the four operators or a parenthesis. *)
Definition allowedByte (b : ascii) : bool :=
  isDigitByte b || isDotByte b || isOperatorByte b || isParenByte b.

(** The first character of a string that is not accepted. *)
Fixpoint firstInvalid (expression : string) : option ascii :=
  match expression with
  | EmptyString => None
  | String b rest => if allowedByte b then firstInvalid rest else Some b
  end.

Fixpoint allDigitsOrDots (token : string) : bool :=
  match token with
  | EmptyString => true
  | String b rest => (isDigitByte b || isDotByte b) && allDigitsOrDots rest
  end.

(** A numeric token: a non-empty run of digits and decimal points. *)
Definition isNumericToken (token : string) : bool :=
  negb (token =? "") && allDigitsOrDots token.

Fixpoint countDots (token : string) : nat :=
  match token with
  | EmptyString => 0
  | String b rest => (if isDotByte b then 1 else 0) + countDots rest
  end.

(** The three kinds of token the tokenizer makes. *)
Definition tokenShape (token : string) : Prop :=
  isNumericToken token = true ∨ isOperator token = true
  ∨ token = "(" ∨ token = ")".

(** No token starts with the letter of a task id. *)
Definition startsWith_t (token : string) : bool :=
  match token with
  | String b _ => Ascii.eqb b "t"%char
  | EmptyString => false
  end.

(** ** Predicates of the statements and of the invariants *)

(** [strconv.ParseFloat] rejects the operators and the parentheses. *)
Definition symbolsNotNumbers : Prop :=
  ∀ token, isOperator token = true ∨ token = "(" ∨ token = ")" →
           isNumber token = false.

(** What [shuntingYard] has put in its output, and what it still holds
    on its stack, after the last token of an expression. *)
Definition termEmitted (t : term) : list string :=
  match t with
  | TFactor f => factorPostfix f
  | TBin t _ f => termPostfix t ++ factorPostfix f
  end.

Definition exprEmitted (e : expr) : list string :=
  match e with
  | ETerm t => termEmitted t
  | EBin e _ t => exprPostfix e ++ termEmitted t
  end.

Definition termPending (t : term) : list string :=
  match t with
  | TFactor _ => []
  | TBin _ o _ => [mulopToken o]
  end.

Definition exprPending (e : expr) : list string :=
  match e with
  | ETerm t => termPending t
  | EBin _ o t => termPending t ++ [addopToken o]
  end.

(** The stack below an expression: empty, or topped by a parenthesis. *)
Definition barrier (operatorStack : list string) : bool :=
  match operatorStack with
  | [] => true
  | top :: _ => top =? "("
  end.

(** The stack below a product: no product operator on top. *)
Definition belowProduct (operatorStack : list string) : bool :=
  match operatorStack with
  | [] => true
  | top :: _ => (top =? "(") || (getPrecedence top <? 2)%Z
  end.

Definition isMulToken (token : string) : bool :=
  (token =? "*") || (token =? "/").

(** The first half of C8 as it is written: no numeric token made from
    [expression] has more than one decimal point. *)
Definition singlePointTokens (expression : string) : Prop :=
  ∀ tokens, tokenize expression = Ok tokens →
    Forall (λ token, isNumericToken token = true → (countDots token ≤ 1)%nat)
      tokens.

(** What every state reached from [NewService] satisfies; it excludes
    the nil dereferences of [GetTask], [updateExpressionStatus] and
    [updateDependencies]. *)
Record wf (s : Service) : Prop := mkWf {
  wf_keys : ∀ k t, tasks s !! k = Some t →
      Task.ID t = k ∧ ∃ n, k = taskName n ∧ (n ≤ taskIDCounter s)%nat;
  wf_ready : ∀ k, k ∈ readyTasks s → is_Some (tasks s !! k);
  wf_rev : ∀ d k, k ∈ dependents s d →
      ∃ t, tasks s !! k = Some t ∧ d ∈ Task.Dependencies t;
  wf_deps : ∀ k t d, tasks s !! k = Some t → d ∈ Task.Dependencies t →
      is_Some (tasks s !! d) ∧ k ∈ dependents s d;
  wf_expr : ∀ k t, tasks s !! k = Some t →
      is_Some (expressions s !! Task.ExpressionID t);
  wf_completed : ∀ k, k ∈ completedTasks s ↔
      ∃ t, tasks s !! k = Some t ∧ is_Some (Task.Result t)
}.

(** The dependencies that [createTask] gives to the new task. *)
Definition taskArgs (s : Service) (arg1 arg2 : string) : list string :=
  (if isTaskID s arg1 then [arg1] else [])
  ++ (if isTaskID s arg2 then [arg2] else []).

(** A token of a postfix sequence made by the compiler: an operator, or
    a token that [isNumber] accepted (and that the tokenizer made, so it
    does not start like a task id). *)
Definition postfixToken (token : string) : Prop :=
  isOperator token = true
  ∨ (startsWith_t token = false ∧ isNumber token = true).

Definition stackToken (token : string) : Prop :=
  isOperator token = true ∨ token = "(".

(** The state of the loop: [s0] is the state in which it started,
    [stack] and [s] are its stack and the state now. *)
Record buildInv (s0 : Service) (exprID : string) (stack : list string)
    (s : Service) : Prop := mkBuildInv {
  bi_wf : wf s;
  bi_expressions : expressions s = expressions s0;
  bi_completed : completedTasks s = completedTasks s0;
  bi_ready : readyTasks s = readyTasks s0;
  bi_counter : (taskIDCounter s0 ≤ taskIDCounter s)%nat;
  bi_old : ∀ k t, tasks s0 !! k = Some t → tasks s !! k = Some t;
  bi_new : ∀ k t, tasks s !! k = Some t → tasks s0 !! k = None →
      Task.ExpressionID t = exprID
      ∧ Task.Result t = None
      ∧ (∀ d, d ∈ Task.Dependencies t →
              (d = Task.Arg1 t ∨ d = Task.Arg2 t) ∧ tasks s0 !! d = None)
      ∧ (isNumber (Task.Arg1 t) = true ∨ Task.Arg1 t ∈ Task.Dependencies t)
      ∧ (isNumber (Task.Arg2 t) = true ∨ Task.Arg2 t ∈ Task.Dependencies t);
  bi_old_dependents : ∀ d, is_Some (tasks s0 !! d) →
      dependents s d = dependents s0 d;
  bi_stack : ∀ x, x ∈ stack →
      (startsWith_t x = false ∧ isNumber x = true)
      ∨ (tasks s0 !! x = None ∧ is_Some (tasks s !! x));
  bi_roots : ∀ k, tasks s0 !! k = None → is_Some (tasks s !! k) →
      (dependents s k = [] ↔ k ∈ stack);
  bi_nodup : NoDup (filter (λ x, startsWith_t x = true) stack)
}.

(** What a call of [SubmitExpression] with a new [id] does to a
    well-formed state; [ok] tells whether it returned the id. *)
Record submitSpec (s : Service) (id expression : string) (ok : bool)
    (s' : Service) : Prop := mkSubmitSpec {
  ss_wf : wf s';
  ss_expressions :
    expressions s'
    = <[id := ExpressionData.mk id expression
                (if ok then InProcess else Failed) None]> (expressions s);
  ss_completed : completedTasks s' = completedTasks s;
  ss_counter : (taskIDCounter s ≤ taskIDCounter s')%nat;
  ss_old : ∀ k t, tasks s !! k = Some t → tasks s' !! k = Some t;
  ss_new : ∀ k t, tasks s' !! k = Some t → tasks s !! k = None →
      Task.ExpressionID t = id
      ∧ Task.Result t = None
      ∧ (∀ d, d ∈ Task.Dependencies t →
              (d = Task.Arg1 t ∨ d = Task.Arg2 t) ∧ tasks s !! d = None)
      ∧ (isNumber (Task.Arg1 t) = true ∨ Task.Arg1 t ∈ Task.Dependencies t)
      ∧ (isNumber (Task.Arg2 t) = true ∨ Task.Arg2 t ∈ Task.Dependencies t);
  ss_old_dependents : ∀ d, is_Some (tasks s !! d) →
      dependents s' d = dependents s d;
  ss_ready : ∀ k, k ∈ readyTasks s' ↔
      k ∈ readyTasks s
      ∨ (ok = true ∧ tasks s !! k = None
         ∧ ∃ t, tasks s' !! k = Some t
                ∧ isTaskID s' (Task.Arg1 t) = false
                ∧ isTaskID s' (Task.Arg2 t) = false);
  ss_root : ok = true → ∀ k k',
      tasks s !! k = None → tasks s !! k' = None →
      is_Some (tasks s' !! k) → is_Some (tasks s' !! k') →
      dependents s' k = [] → dependents s' k' = [] → k = k'
}.

(** The substitution of a result into both operand slots of a task. *)
Definition substTask (taskID : string) (result : F) (t : Task.t F)
  : Task.t F :=
  Task.setArg2 (substArg taskID result (Task.Arg2 t))
    (Task.setArg1 (substArg taskID result (Task.Arg1 t)) t).

(** All the dependencies of a task are in the completed set. *)
Definition depsCompleted (s : Service) (t : Task.t F) : bool :=
  forallb (λ dID, bool_decide (dID ∈ completedTasks s)) (Task.Dependencies t).

(** All the tasks of an expression have a result. *)
Definition allDone (s : Service) (exprID : string) : Prop :=
  ∀ k t, tasks s !! k = Some t → Task.ExpressionID t = exprID →
         is_Some (Task.Result t).

(** A root of an expression: one of its tasks, on which no task
    depends. *)
Definition isRoot (s : Service) (exprID k : string) (t : Task.t F) : Prop :=
  tasks s !! k = Some t ∧ Task.ExpressionID t = exprID
  ∧ dependents s k = [].

(** The task [k] after [SetTaskResult id result]. *)
Definition recordedTask (s : Service) (id : string) (result : F)
    (k : string) (t : Task.t F) : Task.t F :=
  let t1 := if decide (k = id) then Task.setResult (Some result) t else t in
  if bool_decide (k ∈ dependents s id) then substTask id result t1 else t1.

(** What a successful call of [SetTaskResult] does to a well-formed
    state. *)
Record recordSpec (s : Service) (id : string) (result : F)
    (task : Task.t F) (s' : Service) : Prop := mkRecordSpec {
  rs_wf : wf s';
  rs_completed : completedTasks s' = {[id]} ∪ completedTasks s;
  rs_rev : reverseDependencies s' = reverseDependencies s;
  rs_counter : taskIDCounter s' = taskIDCounter s;
  rs_tasks : ∀ k, tasks s' !! k = recordedTask s id result k <$> tasks s !! k;
  rs_ready : ∀ k, k ∈ readyTasks s' ↔
      k ∈ readyTasks s
      ∨ (k ∈ dependents s id
         ∧ ∃ t, tasks s !! k = Some t
                ∧ ∀ d, d ∈ Task.Dependencies t →
                       d = id ∨ d ∈ completedTasks s);
  rs_expressions :
    (expressions s' = expressions s
     ∧ ¬ (allDone s' (Task.ExpressionID task)
          ∧ ∃ k t, isRoot s' (Task.ExpressionID task) k t))
    ∨ (allDone s' (Task.ExpressionID task)
       ∧ ∃ k t expr,
           isRoot s' (Task.ExpressionID task) k t
           ∧ is_Some (Task.Result t)
           ∧ expressions s !! Task.ExpressionID task = Some expr
           ∧ expressions s'
             = <[Task.ExpressionID task :=
                   ExpressionData.mk (ExpressionData.ID expr)
                     (ExpressionData.Expression expr) Completed
                     (Task.Result t)]> (expressions s))
}.

(** What links the ready set to the history of an execution. *)
Record pullInv (evs : list event) (s : Service) : Prop := mkPullInv {
  pi_ready : ∀ k, k ∈ readyTasks s → k ∉ pulledIDs evs;
  pi_deps : ∀ k t d,
      k ∈ readyTasks s ∨ k ∈ pulledIDs evs →
      tasks s !! k = Some t → d ∈ Task.Dependencies t →
      d ∈ recordedIDs evs;
  pi_pulled : ∀ k, k ∈ pulledIDs evs → is_Some (tasks s !! k);
  pi_completed : ∀ k, k ∈ completedTasks s → k ∈ recordedIDs evs
}.

Definition numericArgs (t : Task.t F) : Prop :=
  isNumber (Task.Arg1 t) = true ∧ isNumber (Task.Arg2 t) = true.

(** Neither operand slot holds a task id. *)
Definition noTaskReference (t : Task.t F) : Prop :=
  ∀ n, Task.Arg1 t ≠ taskName n ∧ Task.Arg2 t ≠ taskName n.

(** An operand slot holds a number, or a dependency that has no result
    yet; the slots of a ready task hold numbers. *)
Record argsInv (s : Service) : Prop := mkArgsInv {
  ai_args : ∀ k t a, tasks s !! k = Some t →
      a = Task.Arg1 t ∨ a = Task.Arg2 t →
      isNumber a = true
      ∨ (a ∈ Task.Dependencies t ∧ a ∉ completedTasks s);
  ai_ready : ∀ k t, k ∈ readyTasks s → tasks s !! k = Some t →
      numericArgs t
}.

(** The tasks of the expression [e] are the same in [s] and [s'], with
    the same results and the same dependents. *)
Definition sameTasksOf (e : string) (s s' : Service) : Prop :=
  (∀ k t, tasks s !! k = Some t → Task.ExpressionID t = e →
     ∃ t', tasks s' !! k = Some t' ∧ Task.ExpressionID t' = e
           ∧ Task.Result t' = Task.Result t
           ∧ dependents s' k = dependents s k)
  ∧ (∀ k t', tasks s' !! k = Some t' → Task.ExpressionID t' = e →
     ∃ t, tasks s !! k = Some t ∧ Task.ExpressionID t = e
          ∧ Task.Result t' = Task.Result t
          ∧ dependents s' k = dependents s k).

(** What links the expressions to their tasks, and to the history. *)
Record statusInv (evs : list event) (s : Service) : Prop := mkStatusInv {
  si_result : ∀ id e, expressions s !! id = Some e →
      is_Some (ExpressionData.Result e) → ExpressionData.Status e = Completed;
  si_completed : ∀ id e, expressions s !! id = Some e →
      ExpressionData.Status e = Completed →
      allDone s id
      ∧ ∃ k t, isRoot s id k t ∧ is_Some (Task.Result t)
               ∧ ExpressionData.Result e = Task.Result t;
  si_submitted : ∀ id expression r, Submitted id expression r ∈ evs →
      is_Some (expressions s !! id);
  si_unique : ∀ id expression, Submitted id expression (Ok id) ∈ evs →
      ∀ k k' t t', isRoot s id k t → isRoot s id k' t' → k = k'
}.

(** The two tasks of the expression, as [createTask] makes them. *)
Definition mulTask (id : string) (ot : OperationTimes) : Task.t F :=
  Task.mk "task_1" id "2" "2" "*" (otMultiplication ot) None "pending" [].

Definition addTask (id : string) (ot : OperationTimes) (arg2 : string)
  : Task.t F :=
  Task.mk "task_2" id "2" arg2 "+" (otAddition ot) None "pending"
    ["task_1"].

(** The store after the first loop of the build. *)
Definition builtStore (id : string) (ot : OperationTimes)
    (status : ExpressionStatus) (ready : gset string) : Service :=
  mkService
    (<[id := ExpressionData.mk id "2+2*2" status None]> ∅)
    (<["task_2" := addTask id ot "task_1"]> (<["task_1" := mulTask id ot]> ∅))
    [] ∅ ready ot 2
    (<["task_2" := ["task_1"]]> (<["task_1" := []]> ∅))
    (<["task_1" := ["task_2"]]> ∅).


(** C6 as it is written: each successful [SetTaskResult] comes after a
    [GetTask] that returned the task. *)
Definition recordsFollowPulls (evs : list event) : Prop :=
  ∀ i id value, evs !! i = Some (Recorded id value None) →
                id ∈ pulledIDs (take i evs).

(** ** Vocabulary of the further properties of the compiler *)

(** [strings.Join(tokens, "")]. *)
Definition concatTokens (tokens : list string) : string :=
  foldr String.append "" tokens.

(** No two numeric tokens follow each other: each numeric token is a
    whole run of digits and points. *)
Fixpoint noAdjacentNumbers (tokens : list string) : bool :=
  match tokens with
  | a :: rest =>
      match rest with
      | b :: _ => negb (isNumericToken a && isNumericToken b)
      | [] => true
      end && noAdjacentNumbers rest
  | [] => true
  end.

(** The parentheses of a token list are balanced: [depth] parentheses
    are open before the list. *)
Fixpoint balancedFrom (tokens : list string) (depth : nat) : bool :=
  match tokens with
  | [] => (depth =? 0)%nat
  | token :: rest =>
      if token =? "(" then balancedFrom rest (S depth)
      else if token =? ")" then
        match depth with
        | O => false
        | S depth' => balancedFrom rest depth'
        end
      else balancedFrom rest depth
  end.

Definition balanced (tokens : list string) : bool := balancedFrom tokens 0.

(** The height of the operand stack after a postfix sequence, [None]
    when an operator finds fewer than two operands. *)
Fixpoint postfixDepth (postfix : list string) (depth : nat) : option nat :=
  match postfix with
  | [] => Some depth
  | token :: rest =>
      if isOperator token then
        match depth with
        | S (S below) => postfixDepth rest (S below)
        | _ => None
        end
      else postfixDepth rest (S depth)
  end.

(** The number of operators of a token list. *)
Definition countOperators (tokens : list string) : nat :=
  length (List.filter isOperator tokens).

(** The last token made so far is a symbol. *)
Definition endsWithSymbol (tokens : list string) : Prop :=
  match last tokens with
  | Some token => isNumericToken token = false
  | None => True
  end.


(** The first token of a list is not numeric. *)
Definition startsWithSymbol (tokens : list string) : Prop :=
  match tokens with
  | token :: _ => isNumericToken token = false
  | [] => True
  end.

(** The number of open parentheses on the operator stack. *)
Definition countOpen (operatorStack : list string) : nat :=
  length (List.filter (λ token, token =? "(") operatorStack).

(** What [shuntingYard] keeps of its input: the numbers and the
    operators. *)
Definition keptToken (token : string) : bool :=
  isNumber token || isOperator token.

(** ** Vocabulary of the further properties of the store *)

(** What [createTask] gives to each task, and nothing changes later. *)
Record taskInv (s : Service) : Prop := mkTaskInv {
  ti_operation : ∀ k t, tasks s !! k = Some t →
      isOperator (Task.Operation t) = true
      ∧ Task.OperationTime t
        = operationTime (opTimes s) (Task.Operation t);
  ti_older : ∀ k t d, tasks s !! k = Some t → d ∈ Task.Dependencies t →
      ∃ n m, k = taskName n ∧ d = taskName m ∧ (m < n)%nat;
  ti_graph : ∀ k, dependencyGraph s !! k
                  = Task.Dependencies <$> tasks s !! k;
  ti_queue : taskQueue s = []
}.

(** The dependencies of each ready task are completed. *)
Definition readyInv (s : Service) : Prop :=
  ∀ k t d, k ∈ readyTasks s → tasks s !! k = Some t →
           d ∈ Task.Dependencies t → d ∈ completedTasks s.

(** No task is forgotten: a task of an expression that was accepted,
    whose dependencies are completed, is ready or has been handed
    out. *)
Definition runnableInv (evs : list event) (s : Service) : Prop :=
  ∀ k t expression,
    tasks s !! k = Some t →
    Submitted (Task.ExpressionID t) expression (Ok (Task.ExpressionID t))
      ∈ evs →
    (∀ d, d ∈ Task.Dependencies t → d ∈ completedTasks s) →
    k ∈ readyTasks s ∨ k ∈ pulledIDs evs.

(** [GetExpressions]: the expressions, in the order [order] in which
    the loop visits the keys of the map. *)
Definition GetExpressions (order : list string) (s : Service)
  : list (ExpressionData.t F) :=
  omap (λ id, expressions s !! id) order.

(** The ids that the calls of [SubmitExpression] of an execution have
    made, whether the call returned the id or an error. *)
Definition submittedIDs (evs : list event) : list string :=
  omap (λ ev, match ev with
              | Submitted id _ _ => Some id
              | _ => None
              end) evs.

(** What links the expressions of the store to the history. *)
Record exprInv (evs : list event) (s : Service) : Prop := mkExprInv {
  ei_nodup : NoDup (submittedIDs evs);
  ei_dom : ∀ id, id ∈ submittedIDs evs ↔ is_Some (expressions s !! id);
  ei_fields : ∀ id e, expressions s !! id = Some e →
      ExpressionData.ID e = id ∧ ExpressionData.Status e ≠ Pending
}.


(** No task belongs to the expression [id]. *)
Definition noTasksOf (id : string) (s : Service) : Prop :=
  ∀ k t, tasks s !! k = Some t → Task.ExpressionID t ≠ id.

(** The dependencies of a task belong to the expression of the task. *)
Definition depsSameExpression (s : Service) : Prop :=
  ∀ k t d td, tasks s !! k = Some t → d ∈ Task.Dependencies t →
              tasks s !! d = Some td →
              Task.ExpressionID td = Task.ExpressionID t.

(** The errors of [SubmitExpression]. *)
Definition submitError (expression msg : string) : Prop :=
  (∃ b, firstInvalid expression = Some b
        ∧ msg = "invalid character in expression: " +:+ byteToString b)
  ∨ msg = "mismatched parentheses"
  ∨ (∃ token, isOperator token = true
              ∧ msg = "invalid expression: not enough operands for operator "
                      +:+ token)
  ∨ msg = "invalid expression: too many values left on stack".

(** The value of the last successful [SetTaskResult] for the task [k]
    in an execution. *)
Definition lastRecorded (k : string) (evs : list event) : option F :=
  foldl (λ acc ev,
           match ev with
           | Recorded id value None => if id =? k then Some value else acc
           | _ => acc
           end) None evs.

(** The results and the status fields of the tasks, read off the
    history. *)
Definition historyInv (evs : list event) (s : Service) : Prop :=
  ∀ k,
    match tasks s !! k with
    | Some t =>
        Task.Result t = lastRecorded k evs
        ∧ Task.Status t
          = (if bool_decide (k ∈ pulledIDs evs) then "processing"
             else "pending")
    | None => lastRecorded k evs = None ∧ k ∉ pulledIDs evs
    end.

(** The keys of the task map are the names [task_1] to [task_N], [N]
    being the counter. *)
Definition consecutiveIDs (s : Service) : Prop :=
  ∀ k, is_Some (tasks s !! k) ↔
       ∃ n, k = taskName n ∧ (1 ≤ n ≤ taskIDCounter s)%nat.

(** The expression [id] has a task. *)
Definition hasTasks (id : string) (s : Service) : Prop :=
  ∃ k t, tasks s !! k = Some t ∧ Task.ExpressionID t = id.

(** An accepted expression that has tasks has a root, and it is
    completed, with the result of the root, once all its tasks have a
    result. *)
Definition completion (id : string) (s : Service) : Prop :=
  (∃ k t, isRoot s id k t)
  ∧ (allDone s id →
     ∃ e k t, expressions s !! id = Some e
              ∧ ExpressionData.Status e = Completed
              ∧ isRoot s id k t
              ∧ ExpressionData.Result e = Task.Result t).

Definition completionInv (evs : list event) (s : Service) : Prop :=
  ∀ id expression,
    Submitted id expression (Ok id) ∈ evs → hasTasks id s →
    completion id s.



End Model.

Arguments Service F : clear implicits.
Arguments event F : clear implicits.

(** * The request handlers ([internal/api]) *)

Module ExpressionResponse.
Record t (F : Type) : Type := mk {
  ID : string;
  Status : ExpressionStatus;
  Result : option F
}.
Arguments mk {F} ID Status Result.
Arguments ID {F} _.
Arguments Status {F} _.
Arguments Result {F} _.
End ExpressionResponse.

Definition StatusOK : Z := 200.
Definition StatusNotFound : Z := 404.

(** A handler answers with a status code and a body: the text of the
    ["error"] field, or the payload. The handlers that call a mutating
    operation of the store also return the new state; [None] is a
    panic, as in the store. *)
Module Handler.
Section Handlers.

Context {F : Type} {float64 : GoFloat64 F}.

(** The literal [ExpressionResponse{ID: expr.ID, Status: expr.Status,
    Result: expr.Result}]. *)
Definition expressionResponse (expr : ExpressionData.t F)
  : ExpressionResponse.t F :=
  ExpressionResponse.mk (ExpressionData.ID expr)
    (ExpressionData.Status expr) (ExpressionData.Result expr).

(** [Handler.GetExpressions]. *)
Definition GetExpressions (order : list string) (s : Service F)
  : Z * list (ExpressionResponse.t F) :=
  (StatusOK, expressionResponse <$> GetExpressions order s).

(** [Handler.GetExpression]; [id] is [c.Param("id")]. *)
Definition GetExpression (id : string) (s : Service F)
  : Z * (string + ExpressionResponse.t F) :=
  match GetExpression id s with
  | None => (StatusNotFound, inl "expression not found")
  | Some expr => (StatusOK, inr (expressionResponse expr))
  end.

(** [Handler.GetTask]. *)
Definition GetTask (first : option string) (s : Service F)
  : option (Service F * (Z * (string + Task.t F))) :=
  match GetTask first s with
  | None => None
  | Some (None, s') => Some (s', (StatusNotFound, inl "no task available"))
  | Some (Some task, s') => Some (s', (StatusOK, inr task))
  end.

(** [Handler.SetTaskResult]; [bound] is what [c.ShouldBindJSON(&req)]
    has made of the request: the fields [ID] and [Result] of [req], or
    the error. *)
Definition SetTaskResult (bound : result (string * F))
    (order : list string) (s : Service F)
  : option (Service F * (Z * string)) :=
  match bound with
  | Err err => Some (s, (StatusUnprocessableEntity, err))
  | Ok (id, result) =>
      match SetTaskResult order id result s with
      | None => None
      | Some (s', Some err) => Some (s', (StatusNotFound, err))
      | Some (s', None) => Some (s', (StatusOK, "success"))
      end
  end.

End Handlers.

(** *** The configuration *)

Section Environment.

(** [os.Getenv] and [strconv.Atoi] ([None] when it returns an error). *)
Variable Getenv : string → string.
Variable Atoi : string → option Z.

(** [getEnvInt]. *)
Definition getEnvInt (key : string) (defaultVal : Z) : Z :=
  let val := Getenv key in
  if val =? "" then defaultVal
  else match Atoi val with
       | Some intVal => intVal
       | None => defaultVal
       end.

(** [GetOperationTimes]. *)
Definition GetOperationTimes : OperationTimes :=
  mkOperationTimes
    (getEnvInt "TIME_ADDITION_MS" 1000)
    (getEnvInt "TIME_SUBTRACTION_MS" 1000)
    (getEnvInt "TIME_MULTIPLICATIONS_MS" 1000)
    (getEnvInt "TIME_DIVISIONS_MS" 1000).

(** The variable that holds the time of an operator. *)
Definition timeVariable (operation : Operation) : string :=
  if operation =? Addition then "TIME_ADDITION_MS"
  else if operation =? Subtraction then "TIME_SUBTRACTION_MS"
  else if operation =? Multiplication then "TIME_MULTIPLICATIONS_MS"
  else "TIME_DIVISIONS_MS".

End Environment.
End Handler.

(** * The worker ([internal/agent]) *)

Module Agent.
Section Worker.

Context {F : Type} {float64 : GoFloat64 F}.

(** The text of the error of [strconv.ParseFloat] for a string that it
    rejects. *)
Variable ParseFloatError : string → string.

(** [parseArg]. *)
Definition parseArg (arg : string) : result F :=
  match ParseFloat arg with
  | Some v => Ok v
  | None => Err (ParseFloatError arg)
  end.

(** [processTask]. *)
Definition processTask (task : Task.t F) : result F :=
  match parseArg (Task.Arg1 task) with
  | Err err => Err ("invalid arg1: " +:+ err)
  | Ok arg1 =>
      match parseArg (Task.Arg2 task) with
      | Err err => Err ("invalid arg2: " +:+ err)
      | Ok arg2 => ProcessOperation (Task.Operation task) arg1 arg2
      end
  end.

End Worker.
End Agent.

(** * What the workers compute *)

(** The operator tree of an expression: the parentheses are gone. *)
Inductive ast : Set :=
| Leaf (token : string)
| Node (operation : string) (lhs rhs : ast).

Fixpoint exprAst (e : expr) : ast :=
  match e with
  | ETerm t => termAst t
  | EBin e o t => Node (addopToken o) (exprAst e) (termAst t)
  end
with termAst (t : term) : ast :=
  match t with
  | TFactor f => factorAst f
  | TBin t o f => Node (mulopToken o) (termAst t) (factorAst f)
  end
with factorAst (f : factor) : ast :=
  match f with
  | FNum token => Leaf token
  | FParen e => exprAst e
  end.

Fixpoint astPostfix (a : ast) : list string :=
  match a with
  | Leaf token => [token]
  | Node operation lhs rhs =>
      astPostfix lhs ++ astPostfix rhs ++ [operation]
  end.

Fixpoint astLeaves (a : ast) : list string :=
  match a with
  | Leaf token => [token]
  | Node _ lhs rhs => astLeaves lhs ++ astLeaves rhs
  end.

(** Every operation of the tree is one of the four operators. *)
Fixpoint astOperators (a : ast) : bool :=
  match a with
  | Leaf _ => true
  | Node operation lhs rhs =>
      isOperator operation && astOperators lhs && astOperators rhs
  end.

Section Computation.

Context {F : Type} {float64 : GoFloat64 F}.

(** What [strconv.ParseFloat] makes of the text that [fmt.Sprintf("%f")]
    makes of a result: the way a result reaches the task that depends
    on it. *)
Definition reread (v : F) : option F := ParseFloat (Sprintf_f v).

(** The value of an operation node as the workers compute it, and the
    number that the parent of a subtree reads in its operand slot: the
    token of a leaf, the reread result of a node. [None] when a leaf
    does not parse or an operation fails. *)
Fixpoint workerOperand (a : ast) : option F :=
  match a with
  | Leaf token => ParseFloat token
  | Node operation lhs rhs =>
      match workerOperand lhs, workerOperand rhs with
      | Some v1, Some v2 =>
          match ProcessOperation operation v1 v2 with
          | Ok r => reread r
          | Err _ => None
          end
      | _, _ => None
      end
  end.

Definition workerValue (a : ast) : option F :=
  match a with
  | Leaf token => ParseFloat token
  | Node operation lhs rhs =>
      match workerOperand lhs, workerOperand rhs with
      | Some v1, Some v2 =>
          match ProcessOperation operation v1 v2 with
          | Ok r => Some r
          | Err _ => None
          end
      | _, _ => None
      end
  end.

(** The rereading is exact for the tree [a]: the result of [a], when
    [a] is an operation, is read back from its text as the same number.
    [exactOperands a]: it is so for each operand of each operation of
    [a], that is for each result that passes through an operand slot
    in the computation of [a]. *)
Definition rereadExact (a : ast) : Prop :=
  match a with
  | Leaf _ => True
  | Node _ _ _ => ∀ r, workerValue a = Some r → reread r = Some r
  end.

Fixpoint exactOperands (a : ast) : Prop :=
  match a with
  | Leaf _ => True
  | Node _ lhs rhs =>
      rereadExact lhs ∧ exactOperands lhs
      ∧ rereadExact rhs ∧ exactOperands rhs
  end.

(** The number that a worker will read in an operand slot that holds
    [a] in the state [s]: the number that [a] parses to, or, when [a]
    is the id of a task, the reread result of that task computed from
    its own slots. *)
Inductive operandValue (s : Service F) : string → F → Prop :=
| ov_number a v :
    tasks s !! a = None → ParseFloat a = Some v → operandValue s a v
| ov_task a t v1 v2 r v :
    tasks s !! a = Some t →
    operandValue s (Task.Arg1 t) v1 →
    operandValue s (Task.Arg2 t) v2 →
    ProcessOperation (Task.Operation t) v1 v2 = Ok r →
    reread r = Some v →
    operandValue s a v.

(** The result that the workers compute for the task [t]. *)
Definition taskValue (s : Service F) (t : Task.t F) (r : F) : Prop :=
  ∃ v1 v2,
    operandValue s (Task.Arg1 t) v1
    ∧ operandValue s (Task.Arg2 t) v2
    ∧ ProcessOperation (Task.Operation t) v1 v2 = Ok r.

(** The text of the error of [strconv.ParseFloat]. *)
Variable ParseFloatError : string → string.

(** The results of an execution are those of workers: each value given
    to a successful [SetTaskResult] is what [processTask] returns for a
    task of that id that [GetTask] has returned before. *)
Definition computedByWorkers (evs : list (event F)) : Prop :=
  ∀ i id value,
    evs !! i = Some (Recorded id value None) →
    ∃ j task,
      (j < i)%nat ∧ evs !! j = Some (Pulled (Some task))
      ∧ Task.ID task = id
      ∧ Agent.processTask ParseFloatError task = Ok value.

(** Each operand slot holds a number or the id of a task. *)
Definition closedArgs (s : Service F) : Prop :=
  ∀ k t a, tasks s !! k = Some t →
    a = Task.Arg1 t ∨ a = Task.Arg2 t →
    isNumber a = true ∨ is_Some (tasks s !! a).

(** No number is the id of a task. *)
Definition numbersNotTasks (s : Service F) : Prop :=
  ∀ a, isNumber a = true → tasks s !! a = None.

(** An operand slot keeps its content, or the id of a task is replaced
    by the text of the result of that task. *)
Definition slotKept (s : Service F) (a a' : string) : Prop :=
  a' = a
  ∨ ∃ t r, tasks s !! a = Some t ∧ taskValue s t r ∧ a' = Sprintf_f r.

(** From [s] to [s'] the tasks keep their operation, and their slots up
    to [slotKept]. *)
Definition evolves (s s' : Service F) : Prop :=
  ∀ k t, tasks s !! k = Some t →
    ∃ t', tasks s' !! k = Some t'
          ∧ Task.Operation t' = Task.Operation t
          ∧ slotKept s (Task.Arg1 t) (Task.Arg1 t')
          ∧ slotKept s (Task.Arg2 t) (Task.Arg2 t').

(** The tasks of [s] are tasks of [s'], unchanged. *)
Definition keepsTasks (s s' : Service F) : Prop :=
  ∀ k t, tasks s !! k = Some t → tasks s' !! k = Some t.

(** The values of an execution: what [processTask] returns for a task
    that [GetTask] has returned is the value of the stored task, and
    so is each stored result. *)
Record valueInv (evs : list (event F)) (s : Service F) : Prop :=
  mkValueInv {
  vi_pulled : ∀ task value,
      Pulled (Some task) ∈ evs →
      Agent.processTask ParseFloatError task = Ok value →
      ∃ t, tasks s !! Task.ID task = Some t ∧ taskValue s t value;
  vi_result : ∀ k t r, tasks s !! k = Some t → Task.Result t = Some r →
      taskValue s t r
}.

(** The root task of the expression [id] computes the value of the
    tree [a]. *)
Definition rootValue (id : string) (a : ast) (s : Service F) : Prop :=
  ∀ k t r, isRoot s id k t → taskValue s t r → workerValue a = Some r.

End Computation.

(** * An instance of the float64 interface

    Integer-valued numbers in decimal notation: the numbers are [Z],
    ["%f"] prints six zero decimals, and a string is a number when it is
    an optional sign, digits starting the string and at most one decimal
    point (the digits after the point are not read). The instance shows
    that the assumptions made on Go's library can be met, and runs the
    scenarios. *)

Module IntegerModel.

Definition startsWithDigit (s : string) : bool :=
  match s with
  | String b _ => isDigitByte b
  | EmptyString => false
  end.

Fixpoint integerPart (s : string) (acc : N) : N :=
  match s with
  | String b rest =>
      if isDigitByte b
      then integerPart rest (10 * acc + (N_of_ascii b - 48))
      else acc
  | EmptyString => acc
  end.

Definition unsignedSyntax (s : string) : bool :=
  startsWithDigit s && allDigitsOrDots s && (countDots s <=? 1)%nat.

Definition parseDecimal (s : string) : option Z :=
  match s with
  | String "-" body =>
      if unsignedSyntax body then Some (- Z.of_N (integerPart body 0))%Z
      else None
  | _ =>
      if unsignedSyntax s then Some (Z.of_N (integerPart s 0)) else None
  end.

Definition formatDecimal (z : Z) : string := pretty z +:+ ".000000".

Definition isZero (z : Z) : bool := (z =? 0)%Z.

Definition allDigits (s : string) : bool :=
  allDigitsOrDots s && (countDots s =? 0)%nat.

End IntegerModel.

#[global] Instance integerFloat64 : GoFloat64 Z := {|
  ParseFloat := IntegerModel.parseDecimal;
  Sprintf_f := IntegerModel.formatDecimal;
  fadd := Z.add;
  fsub := Z.sub;
  fmul := Z.mul;
  fdiv := Z.quot;
  fisZero := IntegerModel.isZero
|}.

(** * Executions with the integer instance *)

(** The durations that [GetOperationTimes] takes by default. *)
Definition defaultTimes : OperationTimes :=
  mkOperationTimes 1000 1000 1000 1000.

(** Submit [2+2*2], pull the product, record 4, pull the sum. *)
Definition pulledBoth : list (event Z) :=
  [Submitted "e1" "2+2*2" (Ok "e1");
   Pulled (Some (Task.setStatus "processing" (mulTask "e1" defaultTimes)));
   Recorded "task_1" 4%Z None;
   Pulled (Some (Task.setStatus "processing"
                   (addTask "e1" defaultTimes "4.000000")))].

(** Then record 4 for the product once more, and pull again. *)
Definition pulledAgain : list (event Z) :=
  pulledBoth
  ++ [Recorded "task_1" 4%Z None;
      Pulled (Some (Task.setStatus "processing"
                      (addTask "e1" defaultTimes "4.000000")))].

(** The store after [2+2*2] has been submitted. *)
Definition submittedStore : Service Z :=
  builtStore "e1" defaultTimes InProcess {["task_1"]}.

(** The store after a first result for the product. *)
Definition recordedStore : Service Z :=
  match SetTaskResult ["task_1"; "task_2"] "task_1" 4%Z submittedStore with
  | Some (s, _) => s
  | None => submittedStore
  end.

(** C3 as it is written, for one expression of a state. *)
Definition completedIffUniqueRoot (s : Service Z) (id : string)
    (e : ExpressionData.t Z) : Prop :=
  ExpressionData.Status e = Completed ↔
  allDone s id
  ∧ ∃ k t, isRoot s id k t
           ∧ (∀ k' t', isRoot s id k' t' → k' = k)
           ∧ is_Some (Task.Result t)
           ∧ ExpressionData.Result e = Task.Result t.

(** Submit [(1+2)(3+4)], whose build fails after making two tasks, and
    record a result for each of them. *)
Definition twoRoots : list (event Z) :=
  [Submitted "e1" "(1+2)(3+4)"
     (Err "invalid expression: too many values left on stack");
   Recorded "task_1" 3%Z None;
   Recorded "task_2" 7%Z None].

(** The whole computation of [2+2*2] by workers. *)
Definition computedRun : list (event Z) :=
  pulledBoth ++ [Recorded "task_2" 6%Z None].

(** * Properties *)

Section Proofs.

Context {F : Type} {float64 : GoFloat64 F}.

(** ** The tokenizer *)

(** On a single byte the tests of the switch are tests on the byte. *)
Lemma isDigitOrDot_byte (b : ascii) :
  isDigitOrDot (byteToString b) = isDigitByte b || isDotByte b.
Proof. destruct b as [[] [] [] [] [] [] [] []]; reflexivity. Qed.

Lemma isOperator_byte (b : ascii) :
  isOperator (byteToString b) = isOperatorByte b.
Proof. destruct b as [[] [] [] [] [] [] [] []]; reflexivity. Qed.

Lemma isParen_byte (b : ascii) :
  (byteToString b =? "(") || (byteToString b =? ")") = isParenByte b.
Proof. destruct b as [[] [] [] [] [] [] [] []]; reflexivity. Qed.

Lemma byteToString_allowed (b : ascii) :
  allowedByte b = true → byteToString b = String b EmptyString.
Proof. destruct b as [[] [] [] [] [] [] [] []]; (reflexivity || discriminate). Qed.

Lemma allDigitsOrDots_app (a b : string) :
  allDigitsOrDots (a +:+ b) = allDigitsOrDots a && allDigitsOrDots b.
Proof.
  induction a as [|c a IH]; simpl; [done|].
  rewrite IH. by rewrite andb_assoc.
Qed.

Lemma append_nonempty (a : string) (b : ascii) :
  (a +:+ String b EmptyString =? "") = false.
Proof. by destruct a. Qed.

Lemma tokenShape_operator (b : ascii) :
  isOperatorByte b = true → tokenShape (String b EmptyString).
Proof.
  intros Hb. right; left.
  rewrite <- Hb, <- isOperator_byte.
  rewrite byteToString_allowed; [done|].
  unfold allowedByte. rewrite Hb. by rewrite !orb_true_r.
Qed.

Lemma tokenShape_paren (b : ascii) :
  isParenByte b = true → tokenShape (String b EmptyString).
Proof.
  destruct b as [[] [] [] [] [] [] [] []]; try discriminate; intros _.
  - right; right; right; reflexivity.
  - right; right; left; reflexivity.
Qed.

Lemma flushNumber_shape (tokens : list string) (currentNumber : string) :
  Forall tokenShape tokens →
  allDigitsOrDots currentNumber = true →
  Forall tokenShape (flushNumber tokens currentNumber).
Proof.
  intros Ht Hc. unfold flushNumber.
  destruct (currentNumber =? "") eqn:E; [done|].
  apply Forall_app; split; [done|].
  constructor; [|done]. left. unfold isNumericToken. by rewrite E, Hc.
Qed.

Lemma tokenizeFrom_shape (expression : string) :
  ∀ (tokens : list string) (currentNumber : string) (out : list string),
    Forall tokenShape tokens →
    allDigitsOrDots currentNumber = true →
    tokenizeFrom expression tokens currentNumber = Ok out →
    Forall tokenShape out.
Proof.
  induction expression as [|b rest IH]; intros tokens cur out Ht Hc; simpl.
  - intros [= <-]. by apply flushNumber_shape.
  - rewrite isDigitOrDot_byte, isOperator_byte, isParen_byte.
    destruct (isDigitByte b || isDotByte b) eqn:Ed.
    { apply IH; [done|].
      rewrite byteToString_allowed by (unfold allowedByte; by rewrite Ed).
      rewrite allDigitsOrDots_app, Hc. simpl. by rewrite Ed. }
    destruct (isOperatorByte b) eqn:Eo.
    { rewrite byteToString_allowed
        by (unfold allowedByte; rewrite Eo; by rewrite !orb_true_r).
      apply IH; [|done].
      apply Forall_app; split; [by apply flushNumber_shape|].
      constructor; [by apply tokenShape_operator|done]. }
    destruct (isParenByte b) eqn:Ep; [|done].
    rewrite byteToString_allowed
      by (unfold allowedByte; rewrite Ep; by rewrite !orb_true_r).
    apply IH; [|done].
    apply Forall_app; split; [by apply flushNumber_shape|].
    constructor; [by apply tokenShape_paren|done].
Qed.

Lemma tokenize_shape (expression : string) (tokens : list string) :
  tokenize expression = Ok tokens → Forall tokenShape tokens.
Proof. by apply tokenizeFrom_shape. Qed.

Lemma tokenizeFrom_invalid (expression : string) :
  ∀ (tokens : list string) (currentNumber : string) (b : ascii),
    firstInvalid expression = Some b →
    tokenizeFrom expression tokens currentNumber
    = Err ("invalid character in expression: " +:+ byteToString b).
Proof.
  induction expression as [|c rest IH]; intros tokens cur b; simpl; [done|].
  rewrite isDigitOrDot_byte, isOperator_byte, isParen_byte.
  unfold allowedByte.
  destruct (isDigitByte c || isDotByte c) eqn:Ed; simpl; [by apply IH|].
  destruct (isOperatorByte c) eqn:Eo; simpl; [by apply IH|].
  destruct (isParenByte c) eqn:Ep; simpl; [by apply IH|].
  by intros [= <-].
Qed.

Lemma tokenizeFrom_valid (expression : string) :
  ∀ (tokens : list string) (currentNumber : string),
    firstInvalid expression = None →
    ∃ out, tokenizeFrom expression tokens currentNumber = Ok out.
Proof.
  induction expression as [|c rest IH]; intros tokens cur; simpl; [by eauto|].
  rewrite isDigitOrDot_byte, isOperator_byte, isParen_byte.
  unfold allowedByte.
  destruct (isDigitByte c || isDotByte c) eqn:Ed; simpl; [by apply IH|].
  destruct (isOperatorByte c) eqn:Eo; simpl; [by apply IH|].
  destruct (isParenByte c) eqn:Ep; simpl; [by apply IH|done].
Qed.

Lemma firstInvalid_exists (expression : string) (b : ascii) :
  In b (list_ascii_of_string expression) → allowedByte b = false →
  ∃ c, firstInvalid expression = Some c ∧ allowedByte c = false
       ∧ In c (list_ascii_of_string expression).
Proof.
  induction expression as [|c rest IH]; simpl; [done|].
  intros Hin Hb. destruct (allowedByte c) eqn:Ec.
  - destruct Hin as [->|Hin]; [congruence|].
    destruct (IH Hin Hb) as (d & ? & ? & ?). eauto.
  - eauto.
Qed.

Lemma tokenShape_not_t (token : string) :
  tokenShape token → startsWith_t token = false.
Proof.
  intros [H|[H|[->| ->]]]; try reflexivity.
  - destruct token as [|b r]; [done|]. unfold isNumericToken in H. simpl in *.
    apply andb_prop in H as [H _].
    destruct b as [[] [] [] [] [] [] [] []]; (reflexivity || discriminate).
  - unfold isOperator in H.
    repeat (apply orb_prop in H as [H|H]); apply String.eqb_eq in H as ->;
      reflexivity.
Qed.

(** ** The shunting-yard conversion *)

Lemma termEmitted_pending (t : term) :
  termEmitted t ++ termPending t = termPostfix t.
Proof. destruct t; simpl; [by rewrite app_nil_r|by rewrite <- app_assoc]. Qed.

Lemma exprEmitted_pending (e : expr) :
  exprEmitted e ++ exprPending e = exprPostfix e.
Proof.
  destruct e; simpl; [apply termEmitted_pending|].
  by rewrite <- app_assoc, (app_assoc (termEmitted _)), termEmitted_pending.
Qed.

Lemma termPending_mul (t : term) :
  Forall (λ token, isMulToken token = true) (termPending t).
Proof. destruct t as [|? [] ?]; simpl; repeat constructor. Qed.

Lemma isMulToken_operator (token : string) :
  isMulToken token = true → isOperator token = true.
Proof.
  unfold isMulToken, isOperator.
  intros [->%String.eqb_eq| ->%String.eqb_eq]%orb_prop; reflexivity.
Qed.

Lemma exprPending_operators (e : expr) :
  Forall (λ token, isOperator token = true) (exprPending e).
Proof.
  assert (Ht : ∀ t, Forall (λ token, isOperator token = true) (termPending t)).
  { intros t. eapply Forall_impl; [apply termPending_mul|].
    apply isMulToken_operator. }
  destruct e as [|? [] ?]; simpl; [done|..];
    (apply Forall_app; split; [done|by repeat constructor]).
Qed.

Lemma isOperator_cases (token : string) :
  isOperator token = true →
  token = "+" ∨ token = "-" ∨ token = "*" ∨ token = "/".
Proof.
  unfold isOperator. intros H.
  repeat (apply orb_prop in H as [H|H]); apply String.eqb_eq in H; auto.
Qed.

Lemma popHigher_add (o : addop) (pend : list string) :
  ∀ (out st : list string),
    Forall (λ token, isOperator token = true) pend →
    barrier st = true →
    popHigher (addopToken o) out (pend ++ st) = (out ++ pend, st).
Proof.
  induction pend as [|top pend IH]; intros out st Hp Hst; simpl.
  - rewrite app_nil_r. destruct st as [|top st]; [done|]. simpl in *.
    by rewrite Hst.
  - inversion_clear Hp as [|?? Htop Hrest].
    assert (negb (top =? "(")
            && hasHigherPrecedence top (addopToken o) = true) as ->.
    { apply isOperator_cases in Htop as [->|[->|[->| ->]]]; by destruct o. }
    rewrite IH by done. by rewrite <- app_assoc.
Qed.

Lemma popHigher_mul (o : mulop) (pend : list string) :
  ∀ (out st : list string),
    Forall (λ token, isMulToken token = true) pend →
    belowProduct st = true →
    popHigher (mulopToken o) out (pend ++ st) = (out ++ pend, st).
Proof.
  induction pend as [|top pend IH]; intros out st Hp Hst; simpl.
  - rewrite app_nil_r. destruct st as [|top st]; [done|]. simpl in *.
    assert (negb (top =? "(")
            && hasHigherPrecedence top (mulopToken o) = false) as ->; [|done].
    apply orb_prop in Hst as [->|Hst]; [done|].
    apply andb_false_intro2. unfold hasHigherPrecedence.
    apply Z.ltb_lt in Hst. apply Z.leb_gt. by destruct o.
  - inversion_clear Hp as [|?? Htop Hrest].
    assert (negb (top =? "(")
            && hasHigherPrecedence top (mulopToken o) = true) as ->.
    { apply orb_prop in Htop as [->%String.eqb_eq| ->%String.eqb_eq];
        by destruct o. }
    rewrite IH by done. by rewrite <- app_assoc.
Qed.

Lemma popToParen_operators (pend : list string) :
  ∀ (out st : list string),
    Forall (λ token, isOperator token = true) pend →
    popToParen out (pend ++ "(" :: st) = (out ++ pend, "(" :: st).
Proof.
  induction pend as [|top pend IH]; intros out st Hp; simpl.
  - by rewrite app_nil_r.
  - inversion_clear Hp as [|?? Htop Hrest].
    assert (negb (top =? "(") = true) as ->.
    { by apply isOperator_cases in Htop as [->|[->|[->| ->]]]. }
    rewrite IH by done. by rewrite <- app_assoc.
Qed.

Lemma drainStack_operators (pend : list string) :
  ∀ out : list string,
    Forall (λ token, isOperator token = true) pend →
    drainStack out pend = Ok (out ++ pend).
Proof.
  induction pend as [|top pend IH]; intros out Hp; simpl.
  - by rewrite app_nil_r.
  - inversion_clear Hp as [|?? Htop Hrest].
    assert ((top =? "(") = false) as ->.
    { by apply isOperator_cases in Htop as [->|[->|[->| ->]]]. }
    rewrite IH by done. by rewrite <- app_assoc.
Qed.

Lemma addopToken_operator (o : addop) : isOperator (addopToken o) = true.
Proof. by destruct o. Qed.

Lemma mulopToken_operator (o : mulop) : isOperator (mulopToken o) = true.
Proof. by destruct o. Qed.

(** The conversion of the tokens of an expression, a product and a
    factor, from any state of the loop. *)
Lemma shuntingYardFrom_syntax :
  symbolsNotNumbers →
  (∀ e, Forall (λ token, isNumber token = true) (exprLeaves e) →
        ∀ rest out st, barrier st = true →
          shuntingYardFrom (exprTokens e ++ rest) out st
          = shuntingYardFrom rest (out ++ exprEmitted e)
              (exprPending e ++ st))
  ∧ (∀ t, Forall (λ token, isNumber token = true) (termLeaves t) →
        ∀ rest out st, belowProduct st = true →
          shuntingYardFrom (termTokens t ++ rest) out st
          = shuntingYardFrom rest (out ++ termEmitted t)
              (termPending t ++ st))
  ∧ (∀ f, Forall (λ token, isNumber token = true) (factorLeaves f) →
        ∀ rest out st,
          shuntingYardFrom (factorTokens f ++ rest) out st
          = shuntingYardFrom rest (out ++ factorPostfix f) st).
Proof.
  intros Hsym. apply syntax_mutind.
  - (* ETerm *)
    intros t IH Hl rest out st Hst. simpl. apply IH; [done|].
    destruct st; [done|]. simpl in *. by rewrite Hst.
  - (* EBin *)
    intros e IHe o t IHt Hl rest out st Hst. simpl in *.
    apply Forall_app in Hl as [Hle Hlt].
    rewrite <- app_assoc, IHe by done. simpl.
    rewrite Hsym by (left; apply addopToken_operator).
    rewrite addopToken_operator.
    rewrite popHigher_add by (done || apply exprPending_operators).
    rewrite <- app_assoc, exprEmitted_pending.
    rewrite IHt by (done || by destruct o).
    by rewrite <- !app_assoc.
  - (* TFactor *)
    intros f IH Hl rest out st Hst. simpl. by apply IH.
  - (* TBin *)
    intros t IHt o f IHf Hl rest out st Hst. simpl in *.
    apply Forall_app in Hl as [Hlt Hlf].
    rewrite <- app_assoc, IHt by done. simpl.
    rewrite Hsym by (left; apply mulopToken_operator).
    rewrite mulopToken_operator.
    rewrite popHigher_mul by (done || apply termPending_mul).
    rewrite <- app_assoc, termEmitted_pending.
    rewrite IHf by done.
    by rewrite <- !app_assoc.
  - (* FNum *)
    intros token Hl rest out st. simpl in *.
    inversion_clear Hl as [|?? Hn _]. by rewrite Hn.
  - (* FParen *)
    intros e IH Hl rest out st. simpl in *.
    rewrite Hsym by (right; by left). simpl.
    rewrite <- app_assoc, IH by done. simpl.
    rewrite Hsym by (right; by right). simpl.
    rewrite popToParen_operators by apply exprPending_operators.
    simpl. by rewrite <- app_assoc, exprEmitted_pending.
Qed.

Lemma shuntingYard_exprTokens (e : expr) :
  symbolsNotNumbers →
  Forall (λ token, isNumber token = true) (exprLeaves e) →
  shuntingYard (exprTokens e) = Ok (exprPostfix e).
Proof.
  intros Hsym Hl. unfold shuntingYard.
  destruct (shuntingYardFrom_syntax Hsym) as (He & _ & _).
  rewrite <- (app_nil_r (exprTokens e)), He by done. simpl.
  rewrite app_nil_r, drainStack_operators by apply exprPending_operators.
  by rewrite exprEmitted_pending.
Qed.

(** The stack evaluation of the postfix form of an expression, from any
    state of the loop. *)
Lemma evalPostfixFrom_syntax :
  symbolsNotNumbers →
  (∀ e, Forall (λ token, isNumber token = true) (exprLeaves e) →
        ∀ rest stack,
          evalPostfixFrom (exprPostfix e ++ rest) stack
          = match evalExpr e with
            | Ok v => evalPostfixFrom rest (v :: stack)
            | Err msg => Err msg
            end)
  ∧ (∀ t, Forall (λ token, isNumber token = true) (termLeaves t) →
        ∀ rest stack,
          evalPostfixFrom (termPostfix t ++ rest) stack
          = match evalTerm t with
            | Ok v => evalPostfixFrom rest (v :: stack)
            | Err msg => Err msg
            end)
  ∧ (∀ f, Forall (λ token, isNumber token = true) (factorLeaves f) →
        ∀ rest stack,
          evalPostfixFrom (factorPostfix f ++ rest) stack
          = match evalFactor f with
            | Ok v => evalPostfixFrom rest (v :: stack)
            | Err msg => Err msg
            end).
Proof.
  intros Hsym. apply syntax_mutind.
  - intros t IH Hl rest stack. simpl. by apply IH.
  - intros e IHe o t IHt Hl rest stack. simpl in *.
    apply Forall_app in Hl as [Hle Hlt].
    rewrite <- app_assoc, IHe by done.
    destruct (evalExpr e) as [a|msg]; [|done].
    rewrite <- app_assoc, IHt by done.
    destruct (evalTerm t) as [b|msg]; [|done].
    simpl. rewrite addopToken_operator.
    by destruct (ProcessOperation (addopToken o) a b).
  - intros f IH Hl rest stack. simpl. by apply IH.
  - intros t IHt o f IHf Hl rest stack. simpl in *.
    apply Forall_app in Hl as [Hlt Hlf].
    rewrite <- app_assoc, IHt by done.
    destruct (evalTerm t) as [a|msg]; [|done].
    rewrite <- app_assoc, IHf by done.
    destruct (evalFactor f) as [b|msg]; [|done].
    simpl. rewrite mulopToken_operator.
    by destruct (ProcessOperation (mulopToken o) a b).
  - intros token Hl rest stack. simpl in *.
    inversion_clear Hl as [|?? Hn _].
    destruct (isOperator token) eqn:Eo.
    { rewrite Hsym in Hn by by left. done. }
    by destruct (ParseFloat token).
  - intros e IH Hl rest stack. simpl in *. by apply IH.
Qed.

(** C1. For every valid infix token stream (the tokens of an expression
    of the grammar, whose leaves are numeric tokens), [shuntingYard]
    succeeds and the left-to-right stack evaluation of its output gives
    the result of evaluating the infix expression directly: the same
    value, or the same error of [ProcessOperation]. *)
Theorem shuntingYard_preserves_value (e : expr) :
  symbolsNotNumbers →
  Forall (λ token, isNumber token = true) (exprLeaves e) →
  ∃ postfix,
    shuntingYard (exprTokens e) = Ok postfix
    ∧ postfix = exprPostfix e
    ∧ evalPostfix postfix = evalExpr e.
Proof.
  intros Hsym Hl. exists (exprPostfix e).
  split; [by apply shuntingYard_exprTokens|]. split; [done|].
  unfold evalPostfix.
  destruct (evalPostfixFrom_syntax Hsym) as (He & _ & _).
  rewrite <- (app_nil_r (exprPostfix e)), He by done.
  by destruct (evalExpr e).
Qed.

(** ** The claim about the tokenizer *)

(** C8 fails as written: the run [1.2.3] becomes one numeric token with
    two decimal points. *)
Lemma tokenize_two_points : ¬ singlePointTokens "1.2.3".
Proof.
  intros H. specialize (H ["1.2.3"] eq_refl).
  inversion_clear H as [|?? Hdots _].
  specialize (Hdots eq_refl). simpl in Hdots. lia.
Qed.

(** C8 (amended). [tokenize] scans its input from left to right and
    accumulates digits and decimal points, any number of them, into a
    numeric token: every token it makes is a non-empty run of digits and
    decimal points, an operator or a parenthesis. For an input with a
    character that is none of these, it fails with the "invalid
    character" error that shows the first such character. *)
Theorem tokenize_tokens_and_invalid_character (expression : string) :
  (∀ tokens, tokenize expression = Ok tokens → Forall tokenShape tokens)
  ∧ (∀ b, In b (list_ascii_of_string expression) → allowedByte b = false →
       ∃ c, firstInvalid expression = Some c
            ∧ allowedByte c = false
            ∧ tokenize expression
              = Err ("invalid character in expression: " +:+ byteToString c)).
Proof.
  split; [apply tokenize_shape|].
  intros b Hin Hb.
  destruct (firstInvalid_exists expression b Hin Hb) as (c & Hc & Hc' & _).
  exists c. repeat split; [done..|]. by apply tokenizeFrom_invalid.
Qed.

(** ** The scheduler state: well-formedness *)

Lemma taskName_inj (n m : nat) : taskName n = taskName m → n = m.
Proof.
  unfold taskName. intros H%(inj (String.app "task_")).
  by apply (inj pretty) in H.
Qed.

Lemma taskName_starts_with_t (n : nat) : startsWith_t (taskName n) = true.
Proof. reflexivity. Qed.

Lemma wf_fresh (s : Service F) (n : nat) :
  wf s → (taskIDCounter s < n)%nat → tasks s !! taskName n = None.
Proof.
  intros Hwf Hn. destruct (tasks s !! taskName n) as [t|] eqn:E; [|done].
  apply (wf_keys s Hwf) in E as (_ & m & Hm & Hle).
  apply taskName_inj in Hm. lia.
Qed.

Lemma wf_NewService (ot : OperationTimes) : wf (NewService (F:=F) ot).
Proof.
  split; simpl.
  - intros k t H. by rewrite lookup_empty in H.
  - intros k H. set_solver.
  - intros d k. unfold dependents. simpl. rewrite lookup_empty. simpl.
    by intros ?%elem_of_nil.
  - intros k t d H. by rewrite lookup_empty in H.
  - intros k t H. by rewrite lookup_empty in H.
  - intros k. split; [set_solver|]. intros (t & H & _).
    by rewrite lookup_empty in H.
Qed.

(** *** [createTask] *)

Lemma createTask_id (exprID arg1 arg2 operation : string) (s : Service F) :
  (createTask exprID arg1 arg2 operation s).1
  = taskName (S (taskIDCounter s)).
Proof.
  unfold createTask.
  by destruct (addDependency _ _ _ _).
Qed.

Lemma addDependency_spec (s : Service F) (taskID arg : string)
    (acc : list string * gmap string (list string)) :
  addDependency s taskID arg acc
  = (acc.1 ++ (if isTaskID s arg then [arg] else []),
     if isTaskID s arg
     then <[arg := default [] (acc.2 !! arg) ++ [taskID]]> acc.2
     else acc.2).
Proof.
  unfold addDependency. destruct (isTaskID s arg); [done|].
  rewrite app_nil_r. by destruct acc.
Qed.

(** The fields of the state after [createTask]. *)
Lemma createTask_state (exprID arg1 arg2 operation : string) (s : Service F) :
  let taskID := taskName (S (taskIDCounter s)) in
  let s' := (createTask exprID arg1 arg2 operation s).2 in
  expressions s' = expressions s
  ∧ tasks s'
    = <[taskID := Task.mk taskID exprID arg1 arg2 operation
                    (operationTime (opTimes s) operation) None "pending"
                    (taskArgs s arg1 arg2)]> (tasks s)
  ∧ completedTasks s' = completedTasks s
  ∧ readyTasks s' = readyTasks s
  ∧ taskIDCounter s' = S (taskIDCounter s)
  ∧ opTimes s' = opTimes s
  ∧ ∀ d, dependents s' d
         = dependents s d
           ++ (if decide (d = arg1) then
                 if isTaskID s arg1 then [taskID] else []
               else [])
           ++ (if decide (d = arg2) then
                 if isTaskID s arg2 then [taskID] else []
               else []).
Proof.
  intros taskID s'. subst s'. unfold createTask.
  rewrite !addDependency_spec. simpl. fold taskID.
  repeat split.
  intros d. unfold dependents. simpl.
  destruct (isTaskID s arg1) eqn:E1, (isTaskID s arg2) eqn:E2;
    repeat case_decide; subst;
    repeat (rewrite lookup_insert_eq || rewrite lookup_insert_ne by done);
    simpl; rewrite ?app_nil_r, <- ?app_assoc; try done.
Qed.

Lemma elem_of_taskArgs (s : Service F) (arg1 arg2 d : string) :
  d ∈ taskArgs s arg1 arg2 ↔
  (d = arg1 ∧ isTaskID s arg1 = true) ∨ (d = arg2 ∧ isTaskID s arg2 = true).
Proof.
  unfold taskArgs. rewrite elem_of_app. split.
  - intros [H|H].
    + destruct (isTaskID s arg1); [|by apply elem_of_nil in H].
      apply list_elem_of_singleton in H. by left.
    + destruct (isTaskID s arg2); [|by apply elem_of_nil in H].
      apply list_elem_of_singleton in H. by right.
  - intros [[-> H]|[-> H]]; rewrite H; [left|right];
      by apply list_elem_of_singleton.
Qed.

Lemma isTaskID_true (s : Service F) (arg : string) :
  isTaskID s arg = true ↔ is_Some (tasks s !! arg).
Proof.
  unfold isTaskID. destruct (tasks s !! arg); split; try done; eauto.
Qed.

Lemma createTask_wf (exprID arg1 arg2 operation : string) (s : Service F) :
  wf s → is_Some (expressions s !! exprID) →
  wf (createTask exprID arg1 arg2 operation s).2.
Proof.
  intros Hwf Hexpr.
  destruct (createTask_state exprID arg1 arg2 operation s)
    as (He & Ht & Hc & Hr & Hn & _ & Hd).
  set (s' := (createTask exprID arg1 arg2 operation s).2) in *.
  set (taskID := taskName (S (taskIDCounter s))) in *.
  assert (Hfresh : tasks s !! taskID = None) by (apply wf_fresh; [done|lia]).
  split.
  - intros k t. rewrite Ht, Hn. intros Hk.
    apply lookup_insert_Some in Hk as [[<- <-]|[Hne Hk]].
    + split; [done|]. exists (S (taskIDCounter s)). split; [done|lia].
    + apply (wf_keys s Hwf) in Hk as (? & n & ? & ?).
      split; [done|]. exists n. split; [done|lia].
  - intros k. rewrite Hr, Ht. intros Hk%(wf_ready s Hwf).
    destruct Hk as [t Hk]. destruct (decide (taskID = k)) as [<-|Hne].
    + congruence.
    + rewrite lookup_insert_ne by done. eauto.
  - intros d k. rewrite Hd, Ht, !elem_of_app.
    intros [Hk|[Hk|Hk]].
    + apply (wf_rev s Hwf) in Hk as (t & Hk & Hdt). exists t. split; [|done].
      rewrite lookup_insert_ne; [done|]. congruence.
    + case_decide; [|by apply elem_of_nil in Hk]. subst d.
      destruct (isTaskID s arg1) eqn:E; [|by apply elem_of_nil in Hk].
      apply list_elem_of_singleton in Hk as ->.
      rewrite lookup_insert_eq. eexists; split; [done|]. simpl.
      apply elem_of_taskArgs. by left.
    + case_decide; [|by apply elem_of_nil in Hk]. subst d.
      destruct (isTaskID s arg2) eqn:E; [|by apply elem_of_nil in Hk].
      apply list_elem_of_singleton in Hk as ->.
      rewrite lookup_insert_eq. eexists; split; [done|]. simpl.
      apply elem_of_taskArgs. by right.
  - intros k t d. rewrite Ht, Hd. intros Hk Hdt.
    apply lookup_insert_Some in Hk as [[<- <-]|[Hne Hk]].
    + simpl in Hdt. apply elem_of_taskArgs in Hdt.
      assert (is_Some (tasks s !! d)) as [td Htd].
      { destruct Hdt as [[-> H]|[-> H]]; by apply isTaskID_true. }
      split.
      * rewrite lookup_insert_ne by congruence. eauto.
      * rewrite !elem_of_app.
        destruct Hdt as [[-> H]|[-> H]]; rewrite H.
        -- right; left. rewrite decide_True by done.
           by apply list_elem_of_singleton.
        -- right; right. rewrite decide_True by done.
           by apply list_elem_of_singleton.
    + destruct (wf_deps s Hwf k t d Hk Hdt) as [[td Htd] Hin].
      split.
      * rewrite lookup_insert_ne by congruence. eauto.
      * rewrite elem_of_app. by left.
  - intros k t. rewrite Ht, He. intros Hk.
    apply lookup_insert_Some in Hk as [[<- <-]|[Hne Hk]]; [done|].
    by apply (wf_expr s Hwf) in Hk.
  - intros k. rewrite Hc, Ht, (wf_completed s Hwf). split.
    + intros (t & Hk & Hres). exists t. split; [|done].
      rewrite lookup_insert_ne; [done|]. congruence.
    + intros (t & Hk & Hres).
      apply lookup_insert_Some in Hk as [[<- <-]|[Hne Hk]].
      * by destruct Hres.
      * eauto.
Qed.

(** *** What [shuntingYard] puts in its output *)

Lemma popHigher_tokens (token : string) (operatorStack : list string) :
  ∀ output output' stack',
    Forall postfixToken output → Forall stackToken operatorStack →
    popHigher token output operatorStack = (output', stack') →
    Forall postfixToken output' ∧ Forall stackToken stack'.
Proof.
  induction operatorStack as [|top below IH]; intros out out' st' Ho Hs; simpl.
  - by intros [= <- <-].
  - inversion_clear Hs as [|?? Htop Hbelow].
    destruct (top =? "(") eqn:E; simpl.
    + intros [= <- <-]. split; [done|by constructor].
    + destruct (hasHigherPrecedence top token).
      * apply IH; [|done]. apply Forall_app; split; [done|].
        constructor; [|done]. left. destruct Htop as [?| ->]; done.
      * intros [= <- <-]. split; [done|by constructor].
Qed.

Lemma popToParen_tokens (operatorStack : list string) :
  ∀ output output' stack',
    Forall postfixToken output → Forall stackToken operatorStack →
    popToParen output operatorStack = (output', stack') →
    Forall postfixToken output' ∧ Forall stackToken stack'.
Proof.
  induction operatorStack as [|top below IH]; intros out out' st' Ho Hs; simpl.
  - by intros [= <- <-].
  - inversion_clear Hs as [|?? Htop Hbelow].
    destruct (top =? "(") eqn:E; simpl.
    + intros [= <- <-]. split; [done|by constructor].
    + apply IH; [|done]. apply Forall_app; split; [done|].
      constructor; [|done]. left. destruct Htop as [?| ->]; done.
Qed.

Lemma drainStack_tokens (operatorStack : list string) :
  ∀ output output',
    Forall postfixToken output → Forall stackToken operatorStack →
    drainStack output operatorStack = Ok output' →
    Forall postfixToken output'.
Proof.
  induction operatorStack as [|top below IH]; intros out out' Ho Hs; simpl.
  - by intros [= <-].
  - inversion_clear Hs as [|?? Htop Hbelow].
    destruct (top =? "(") eqn:E; [done|].
    apply IH; [|done]. apply Forall_app; split; [done|].
    constructor; [|done]. left. destruct Htop as [?| ->]; done.
Qed.

Lemma shuntingYardFrom_tokens (tokens : list string) :
  ∀ output operatorStack output',
    Forall tokenShape tokens →
    Forall postfixToken output → Forall stackToken operatorStack →
    shuntingYardFrom tokens output operatorStack = Ok output' →
    Forall postfixToken output'.
Proof.
  induction tokens as [|token rest IH]; intros out st out' Ht Ho Hs; simpl.
  - by apply drainStack_tokens.
  - inversion_clear Ht as [|?? Htoken Hrest].
    destruct (isNumber token) eqn:En.
    { apply IH; [done| |done]. apply Forall_app; split; [done|].
      constructor; [|done]. right. split; [|done].
      by apply tokenShape_not_t. }
    destruct (isOperator token) eqn:Eo.
    { destruct (popHigher token out st) as [out1 st1] eqn:Ep.
      destruct (popHigher_tokens _ _ _ _ _ Ho Hs Ep) as [Ho1 Hs1].
      apply IH; [done..|]. constructor; [by left|done]. }
    destruct (token =? "(") eqn:El.
    { apply IH; [done..|]. constructor; [|done].
      right. by apply String.eqb_eq. }
    destruct (token =? ")") eqn:Er; [|by apply IH].
    destruct (popToParen out st) as [out1 st1] eqn:Ep.
    destruct (popToParen_tokens _ _ _ _ Ho Hs Ep) as [Ho1 Hs1].
    destruct st1 as [|top below]; [done|].
    destruct (negb (top =? "(")); [done|].
    inversion_clear Hs1. by apply IH.
Qed.

Lemma shuntingYard_tokens (tokens output : list string) :
  Forall tokenShape tokens → shuntingYard tokens = Ok output →
  Forall postfixToken output.
Proof. intros Ht. by apply shuntingYardFrom_tokens. Qed.

(** *** The first loop of [createTasksFromPostfix] *)

Lemma wf_no_dependents (s : Service F) (d : string) :
  wf s → tasks s !! d = None → dependents s d = [].
Proof.
  intros Hwf Hd. destruct (dependents s d) as [|k l] eqn:E; [done|].
  destruct (wf_rev s Hwf d k) as (t & Hk & Hdt); [rewrite E; by left|].
  destruct (wf_deps s Hwf k t d Hk Hdt) as [[? ?] _]. congruence.
Qed.

Lemma wf_task_starts_with_t (s : Service F) (k : string) :
  wf s → is_Some (tasks s !! k) → startsWith_t k = true.
Proof.
  intros Hwf [t Hk]. by apply (wf_keys s Hwf) in Hk as (_ & n & -> & _).
Qed.

Lemma buildInv_start (s0 : Service F) (exprID : string) :
  wf s0 → buildInv s0 exprID [] s0.
Proof.
  intros Hwf. split; try done.
  - intros k t H1 H2. congruence.
  - intros x Hx. by apply elem_of_nil in Hx.
  - intros k H1 [t H2]. congruence.
  - constructor.
Qed.

Lemma buildInv_push (s0 : Service F) (exprID token : string)
    (stack : list string) (s : Service F) :
  buildInv s0 exprID stack s →
  startsWith_t token = false → isNumber token = true →
  buildInv s0 exprID (token :: stack) s.
Proof.
  intros [] Ht Hn. split; try done.
  - intros x [->|Hx]%elem_of_cons; [by left|by apply bi_stack0].
  - intros k Hk0 Hk. rewrite bi_roots0 by done.
    rewrite elem_of_cons. split; [by right|]. intros [->|H]; [|done].
    apply (wf_task_starts_with_t s) in Hk; [congruence|done].
  - rewrite filter_cons_False; [done|congruence].
Qed.

Lemma buildInv_stack_task (s0 : Service F) (exprID : string)
    (stack : list string) (s : Service F) (x : string) :
  buildInv s0 exprID stack s → x ∈ stack → isTaskID s x = true →
  tasks s0 !! x = None ∧ startsWith_t x = true.
Proof.
  intros Hbi Hx Ht. apply isTaskID_true in Ht.
  pose proof (wf_task_starts_with_t s x (bi_wf _ _ _ _ Hbi) Ht) as Hst.
  destruct (bi_stack _ _ _ _ Hbi x Hx) as [[? _]|[? _]]; [congruence|done].
Qed.

Lemma buildInv_createTask (s0 : Service F) (exprID token arg1 arg2 : string)
    (below : list string) (s : Service F) :
  is_Some (expressions s0 !! exprID) →
  buildInv s0 exprID (arg2 :: arg1 :: below) s →
  buildInv s0 exprID
    ((createTask exprID arg1 arg2 token s).1 :: below)
    (createTask exprID arg1 arg2 token s).2.
Proof.
  intros Hexpr Hbi.
  pose proof (bi_wf _ _ _ _ Hbi) as Hwf.
  rewrite createTask_id.
  destruct (createTask_state exprID arg1 arg2 token s)
    as (He & Ht & Hc & Hr & Hn & _ & Hd).
  set (s' := (createTask exprID arg1 arg2 token s).2) in *.
  set (K := taskName (S (taskIDCounter s))) in *.
  assert (HK : tasks s !! K = None) by (apply wf_fresh; [done|lia]).
  assert (HK0 : tasks s0 !! K = None).
  { destruct (tasks s0 !! K) eqn:E; [|done].
    apply (bi_old _ _ _ _ Hbi) in E. congruence. }
  assert (Hin1 : arg1 ∈ arg2 :: arg1 :: below) by (right; left).
  assert (Hin2 : arg2 ∈ arg2 :: arg1 :: below) by left.
  assert (HKarg : ∀ x, x ∈ arg2 :: arg1 :: below → x ≠ K).
  { intros x Hx ->.
    destruct (bi_stack _ _ _ _ Hbi K Hx) as [[? _]|[_ [? ?]]];
      [done|congruence]. }
  assert (Hwf' : wf s').
  { apply createTask_wf; [done|]. by rewrite (bi_expressions _ _ _ _ Hbi). }
  split.
  - done.
  - by rewrite He, (bi_expressions _ _ _ _ Hbi).
  - by rewrite Hc, (bi_completed _ _ _ _ Hbi).
  - by rewrite Hr, (bi_ready _ _ _ _ Hbi).
  - rewrite Hn. pose proof (bi_counter _ _ _ _ Hbi). lia.
  - intros k t Hk. rewrite Ht.
    rewrite lookup_insert_ne by congruence. by apply (bi_old _ _ _ _ Hbi).
  - intros k t. rewrite Ht. intros Hk Hk0.
    apply lookup_insert_Some in Hk as [[<- <-]|[Hne Hk]];
      [|by apply (bi_new _ _ _ _ Hbi k)].
    simpl. split; [done|]. split; [done|]. split; [|split].
    + intros d Hdin. apply elem_of_taskArgs in Hdin.
      destruct Hdin as [[-> H]|[-> H]].
      * split; [by left|]. by eapply buildInv_stack_task.
      * split; [by right|]. by eapply buildInv_stack_task.
    + destruct (isTaskID s arg1) eqn:E.
      * right. apply elem_of_taskArgs. by left.
      * left. destruct (bi_stack _ _ _ _ Hbi arg1 Hin1) as [[_ ?]|[_ H]];
          [done|]. apply isTaskID_true in H. congruence.
    + destruct (isTaskID s arg2) eqn:E.
      * right. apply elem_of_taskArgs. by right.
      * left. destruct (bi_stack _ _ _ _ Hbi arg2 Hin2) as [[_ ?]|[_ H]];
          [done|]. apply isTaskID_true in H. congruence.
  - intros d Hd0. rewrite Hd, (bi_old_dependents _ _ _ _ Hbi) by done.
    assert (Hnot : ∀ x, x ∈ arg2 :: arg1 :: below →
                   (if decide (d = x)
                    then if isTaskID s x then [K] else []
                    else []) = []).
    { intros x Hx. case_decide; [|done]. subst x.
      destruct (isTaskID s d) eqn:E; [|done].
      destruct (buildInv_stack_task _ _ _ _ _ Hbi Hx E) as [H0 _].
      destruct Hd0. congruence. }
    by rewrite !Hnot, !app_nil_r.
  - intros x [->|Hx]%elem_of_cons.
    + right. split; [done|]. rewrite Ht, lookup_insert_eq. eauto.
    + destruct (bi_stack _ _ _ _ Hbi x) as [?|[? [t Hxt]]];
        [by do 2 right|by left|].
      right. split; [done|]. rewrite Ht, lookup_insert_ne; [eauto|].
      intros ->. congruence.
  - intros k Hk0 Hk. rewrite Hd.
    pose proof (bi_nodup _ _ _ _ Hbi) as Hnd.
    destruct (decide (k = K)) as [->|HkK].
    + rewrite (wf_no_dependents s K) by done.
      rewrite !decide_False; [split; [by left|done]|..].
      * intros <-. by apply (HKarg K Hin2).
      * intros <-. by apply (HKarg K Hin1).
    + rewrite Ht, lookup_insert_ne in Hk by done.
      pose proof (wf_task_starts_with_t s k Hwf Hk) as Hst.
      pose proof (bi_roots _ _ _ _ Hbi k Hk0 Hk) as Hroot.
      rewrite elem_of_cons.
      destruct (decide (k = arg1)) as [->|Hk1].
      { assert (isTaskID s arg1 = true) as -> by by apply isTaskID_true.
        split.
        - intros H. apply (f_equal length) in H.
          rewrite !length_app in H. simpl in H. lia.
        - intros [?|Hin]; [done|]. exfalso.
          rewrite filter_cons in Hnd.
          assert (NoDup (filter (λ x, startsWith_t x = true)
                           (arg1 :: below))) as Hnd'.
          { case_decide; [by apply NoDup_cons in Hnd as [_ ?]|done]. }
          rewrite filter_cons_True in Hnd' by done.
          apply NoDup_cons in Hnd' as [Hnot _]. apply Hnot.
          by apply list_elem_of_filter. }
      destruct (decide (k = arg2)) as [->|Hk2].
      { assert (isTaskID s arg2 = true) as -> by by apply isTaskID_true.
        split.
        - intros H. apply (f_equal length) in H.
          rewrite !length_app in H. simpl in H. lia.
        - intros [?|Hin]; [done|]. exfalso.
          rewrite filter_cons_True in Hnd by done.
          apply NoDup_cons in Hnd as [Hnot _]. apply Hnot.
          apply list_elem_of_filter. split; [done|]. by right. }
      rewrite !app_nil_r, Hroot, !elem_of_cons. split.
      * intros [?|[?|?]]; [done..|by right].
      * intros [?|?]; [done|]. by do 2 right.
  - pose proof (bi_nodup _ _ _ _ Hbi) as Hnd.
    rewrite filter_cons_True by done.
    assert (NoDup (filter (λ x, startsWith_t x = true) below)) as Hnd'.
    { rewrite !filter_cons in Hnd.
      repeat case_decide;
        repeat (apply NoDup_cons in Hnd as [_ Hnd]); done. }
    apply NoDup_cons. split; [|done].
    intros [_ Hin]%list_elem_of_filter.
    apply (HKarg K); [by do 2 right|done].
Qed.

Lemma buildTasks_buildInv (s0 : Service F) (exprID : string) :
  is_Some (expressions s0 !! exprID) →
  ∀ (postfix stack : list string) (s s' : Service F) r,
    Forall postfixToken postfix →
    buildInv s0 exprID stack s →
    buildTasks exprID postfix stack s = (s', r) →
    ∃ stack', buildInv s0 exprID stack' s' ∧ ∀ st, r = Ok st → st = stack'.
Proof.
  intros Hexpr postfix.
  induction postfix as [|token rest IH]; intros stack s s' r Hp Hbi; simpl.
  - intros [= <- <-]. exists stack. split; [done|]. by intros st [= <-].
  - inversion_clear Hp as [|?? Htoken Hrest].
    destruct (isOperator token) eqn:Eo.
    + destruct stack as [|arg2 [|arg1 below]].
      * intros [= <- <-]. by exists [].
      * intros [= <- <-]. by exists [arg2].
      * pose proof (buildInv_createTask s0 exprID token arg1 arg2 below s
                      Hexpr Hbi) as Hbi'.
        destruct (createTask exprID arg1 arg2 token s) as [taskID s1].
        by apply IH.
    + destruct Htoken as [?|[Hst Hn]]; [congruence|].
      apply IH; [done|]. by apply buildInv_push.
Qed.

(** *** The second loop of [createTasksFromPostfix] *)

Lemma elem_of_foldl_markReadyStep (exprID : string) (s : Service F)
    (order : list (string * Task.t F)) :
  ∀ (ready : gset string) (k : string),
    k ∈ foldl (markReadyStep exprID s) ready order ↔
    k ∈ ready
    ∨ ∃ t, (k, t) ∈ order ∧ Task.ExpressionID t = exprID
           ∧ isTaskID s (Task.Arg1 t) = false
           ∧ isTaskID s (Task.Arg2 t) = false.
Proof.
  induction order as [|[k' t'] order IH]; intros ready k; simpl.
  - split; [by left|]. intros [?|(t & Hin & _)]; [done|].
    by apply elem_of_nil in Hin.
  - rewrite IH. clear IH. split.
    + intros [Hk|(t & Hin & H)].
      * destruct (Task.ExpressionID t' =? exprID) eqn:Ee; [|by left].
        destruct (isTaskID s (Task.Arg1 t')) eqn:E1; simpl in Hk; [by left|].
        destruct (isTaskID s (Task.Arg2 t')) eqn:E2; simpl in Hk; [by left|].
        apply elem_of_union in Hk as [Hk|Hk]; [|by left].
        apply elem_of_singleton in Hk as ->.
        right. exists t'. apply String.eqb_eq in Ee.
        repeat split; [by left|done..].
      * right. exists t. split; [by right|done].
    + intros [Hk|(t & Hin & He & H1 & H2)].
      * left. destruct (Task.ExpressionID t' =? exprID); [|done].
        destruct (negb _ && negb _); [|done].
        apply elem_of_union. by right.
      * apply elem_of_cons in Hin as [[= -> ->]|Hin].
        -- left. apply String.eqb_eq in He. rewrite He, H1, H2. simpl.
           apply elem_of_union. left. by apply elem_of_singleton.
        -- right. exists t. by repeat split.
Qed.

Lemma elem_of_markReady (exprID : string) (s : Service F) (k : string) :
  k ∈ readyTasks (markReady exprID s) ↔
  k ∈ readyTasks s
  ∨ ∃ t, tasks s !! k = Some t ∧ Task.ExpressionID t = exprID
         ∧ isTaskID s (Task.Arg1 t) = false
         ∧ isTaskID s (Task.Arg2 t) = false.
Proof.
  unfold markReady, markReadyIn. simpl.
  rewrite elem_of_foldl_markReadyStep.
  by setoid_rewrite elem_of_map_to_list.
Qed.

(** The order in which the second loop visits [tasks] does not
    matter. *)
Lemma markReadyIn_order (order : list (string * Task.t F))
    (exprID : string) (s : Service F) :
  order ≡ₚ map_to_list (tasks s) →
  markReadyIn order exprID s = markReady exprID s.
Proof.
  intros Hperm. unfold markReady, markReadyIn. f_equal.
  apply set_eq. intros k. rewrite !elem_of_foldl_markReadyStep.
  by setoid_rewrite Hperm.
Qed.

Lemma isTaskID_false (s : Service F) (arg : string) :
  isTaskID s arg = false ↔ tasks s !! arg = None.
Proof. unfold isTaskID. by destruct (tasks s !! arg). Qed.

(** *** [SubmitExpression] as a whole *)

Lemma wf_insert_expression (s : Service F) (id : string)
    (e : ExpressionData.t F) :
  wf s → wf (setExpressions (<[id := e]> (expressions s)) s).
Proof.
  intros []. split; try done.
  intros k t Hk. simpl in *. apply wf_expr0 in Hk.
  destruct (decide (id = Task.ExpressionID t)) as [<-|Hne].
  - rewrite lookup_insert_eq. eauto.
  - by rewrite lookup_insert_ne.
Qed.

Lemma wf_alter_expression (s : Service F) (id : string)
    (f : ExpressionData.t F → ExpressionData.t F) :
  wf s → wf (setExpressions (alter f id (expressions s)) s).
Proof.
  intros []. split; try done.
  intros k t Hk. simpl in *. apply wf_expr0 in Hk as [e Hk].
  rewrite lookup_alter. case_decide; subst; rewrite Hk; simpl; eauto.
Qed.

Lemma wf_markReady (exprID : string) (s : Service F) :
  wf s → wf (markReady exprID s).
Proof.
  intros Hwf. pose proof Hwf as []. split; try done.
  intros k [Hk|(t & Hk & _)]%elem_of_markReady; [by apply wf_ready0|].
  simpl. eauto.
Qed.

(** The end of [SubmitExpression], after the first loop of
    [createTasksFromPostfix] has stopped in state [mid]: the second
    loop when the build succeeded, and the assignment of the status. *)
Lemma buildInv_submitSpec (s : Service F) (id expression : string)
    (stack : list string) (mid : Service F) (ok : bool) :
  wf s → expressions s !! id = None →
  buildInv
    (setExpressions
       (<[id := ExpressionData.mk id expression Pending None]>
          (expressions s)) s) id stack mid →
  (ok = true → length stack = 1%nat) →
  let fin := if ok then markReady id mid else mid in
  submitSpec s id expression ok
    (setExpressions
       (alter (ExpressionData.setStatus (if ok then InProcess else Failed))
          id (expressions fin)) fin).
Proof.
  intros Hwf Hid Hbi Hlen fin.
  set (s0 := setExpressions _ s) in Hbi.
  set (fin' := setExpressions _ fin).
  pose proof (bi_wf _ _ _ _ Hbi) as Hwfm.
  assert (Hwff : wf fin).
  { subst fin. destruct ok; [by apply wf_markReady|done]. }
  assert (Htf : tasks fin' = tasks mid) by (subst fin' fin; by destruct ok).
  assert (Hdf : ∀ d, dependents fin' d = dependents mid d)
    by (subst fin' fin; by destruct ok).
  assert (Hcf : completedTasks fin' = completedTasks mid)
    by (subst fin' fin; by destruct ok).
  assert (Hnf : taskIDCounter fin' = taskIDCounter mid)
    by (subst fin' fin; by destruct ok).
  assert (Hrf : readyTasks fin' = readyTasks fin) by done.
  assert (Hef : expressions fin
                = <[id := ExpressionData.mk id expression Pending None]>
                    (expressions s)).
  { trans (expressions mid); [subst fin; by destruct ok|].
    by rewrite (bi_expressions _ _ _ _ Hbi). }
  assert (Hold : ∀ k t, tasks s !! k = Some t → Task.ExpressionID t ≠ id).
  { intros k t Hk He. apply (wf_expr s Hwf) in Hk as [e Hk]. congruence. }
  split.
  - by apply wf_alter_expression.
  - subst fin'. cbn [expressions setExpressions].
    rewrite Hef, alter_insert_eq. by destruct ok.
  - rewrite Hcf. by rewrite (bi_completed _ _ _ _ Hbi).
  - rewrite Hnf. apply (bi_counter _ _ _ _ Hbi).
  - intros k t Hk. rewrite Htf. by apply (bi_old _ _ _ _ Hbi).
  - intros k t. rewrite Htf. apply (bi_new _ _ _ _ Hbi).
  - intros d Hd. rewrite Hdf. by apply (bi_old_dependents _ _ _ _ Hbi).
  - intros k.
    assert (Hrm : readyTasks mid = readyTasks s)
      by apply (bi_ready _ _ _ _ Hbi).
    unfold isTaskID. rewrite Htf, Hrf. fold (isTaskID mid).
    subst fin. destruct ok.
    + rewrite elem_of_markReady, Hrm. split.
      * intros [?|(t & Hk & He & H1 & H2)]; [by left|]. right.
        split; [done|]. split; [|by exists t].
        destruct (tasks s !! k) as [t0|] eqn:E; [|done].
        pose proof (bi_old _ _ _ _ Hbi k t0 E) as Hk'.
        assert (t = t0) as -> by congruence. by apply Hold in E.
      * intros [?|(_ & Hk0 & t & Hk & H1 & H2)]; [by left|]. right.
        exists t. split; [done|]. split; [|done].
        by apply (bi_new _ _ _ _ Hbi k t Hk Hk0).
    + rewrite Hrm. split; [by left|]. by intros [?|[? _]].
  - intros -> k k' Hk0 Hk0' Hk Hk' Hr Hr'.
    rewrite Htf in Hk, Hk'. rewrite Hdf in Hr, Hr'.
    apply (bi_roots _ _ _ _ Hbi) in Hr, Hr'; [|done..].
    destruct stack as [|x [|]]; [by specialize (Hlen eq_refl)|
                                |by specialize (Hlen eq_refl)].
    apply list_elem_of_singleton in Hr, Hr'. congruence.
Qed.

Lemma SubmitExpression_spec (s : Service F) (id expression : string)
    (s' : Service F) (r : result string) :
  wf s → expressions s !! id = None →
  SubmitExpression id expression s = (s', r) →
  submitSpec s id (removeSpaces expression) (isOk r) s'
  ∧ (r = Ok id ∨ ∃ err, r = Err err).
Proof.
  intros Hwf Hid. unfold SubmitExpression.
  set (text := removeSpaces expression).
  set (s0 := setExpressions _ s).
  assert (Hwf0 : wf s0) by by apply wf_insert_expression.
  assert (Hexpr : is_Some (expressions s0 !! id)).
  { simpl. rewrite lookup_insert_eq. eauto. }
  pose proof (buildInv_start s0 id Hwf0) as Hstart.
  assert (Hfail : ∀ err,
    (setExpressions
       (alter (ExpressionData.setStatus Failed) id (expressions s0)) s0,
     Err err) = (s', r) →
    submitSpec s id text (isOk r) s' ∧ (r = Ok id ∨ ∃ err, r = Err err)).
  { intros err [= <- <-]. split; [|eauto].
    by apply (buildInv_submitSpec s id text [] s0 false). }
  unfold parseExpression.
  destruct (tokenize text) as [tokens|err] eqn:Etok; [|apply Hfail].
  destruct (shuntingYard tokens) as [postfix|err] eqn:Esy; [|apply Hfail].
  assert (Hp : Forall postfixToken postfix).
  { eapply shuntingYard_tokens; [|done]. by eapply tokenize_shape. }
  unfold createTasksFromPostfix.
  destruct (buildTasks id postfix [] s0) as [mid rb] eqn:Eb.
  destruct (buildTasks_buildInv s0 id Hexpr _ _ _ _ _ Hp Hstart Eb)
    as (stack & Hbi & Hstack).
  destruct rb as [st|err].
  - specialize (Hstack st eq_refl) as ->.
    destruct (length stack =? 1)%nat eqn:El; simpl.
    + intros [= <- <-]. split; [|by left].
      apply (buildInv_submitSpec s id text stack mid true); [done..|].
      intros _. by apply Nat.eqb_eq.
    + intros [= <- <-]. split; [|eauto].
      by apply (buildInv_submitSpec s id text stack mid false).
  - intros [= <- <-]. split; [|eauto].
    by apply (buildInv_submitSpec s id text stack mid false).
Qed.

(** *** [GetTask] *)

(** Replacing a task by one with the same identity, expression,
    dependencies and result keeps the state well-formed. *)
Lemma wf_update_task (s : Service F) (k : string) (t t' : Task.t F) :
  wf s → tasks s !! k = Some t →
  Task.ID t' = Task.ID t →
  Task.ExpressionID t' = Task.ExpressionID t →
  Task.Dependencies t' = Task.Dependencies t →
  Task.Result t' = Task.Result t →
  wf (setTasks (<[k := t']> (tasks s)) s).
Proof.
  intros [] Hk Hid He Hd Hr. split; simpl.
  - intros k1 t1 [[<- <-]|[Hne H1]]%lookup_insert_Some.
    + rewrite Hid. by apply wf_keys0.
    + by apply wf_keys0.
  - intros k1 H1%wf_ready0. destruct (decide (k = k1)) as [<-|Hne].
    + rewrite lookup_insert_eq. eauto.
    + by rewrite lookup_insert_ne.
  - intros d k1 H1. change (k1 ∈ dependents s d) in H1.
    apply wf_rev0 in H1 as (t1 & H1 & Hd1).
    destruct (decide (k = k1)) as [<-|Hne].
    + rewrite lookup_insert_eq. exists t'. split; [done|].
      rewrite Hd. congruence.
    + rewrite lookup_insert_ne by done. eauto.
  - intros k1 t1 d H1 Hd1. change (dependents _ d) with (dependents s d).
    assert (∃ t0, tasks s !! k1 = Some t0 ∧ d ∈ Task.Dependencies t0)
      as (t0 & H0 & Hd0).
    { apply lookup_insert_Some in H1 as [[<- <-]|[Hne H1]].
      - exists t. split; [done|]. by rewrite <- Hd.
      - eauto. }
    destruct (wf_deps0 k1 t0 d H0 Hd0) as [[td Htd] Hin]. split; [|done].
    destruct (decide (k = d)) as [<-|Hne].
    + rewrite lookup_insert_eq. eauto.
    + rewrite lookup_insert_ne by done. eauto.
  - intros k1 t1 [[<- <-]|[Hne H1]]%lookup_insert_Some.
    + rewrite He. by eapply wf_expr0.
    + by eapply wf_expr0.
  - intros k1. rewrite wf_completed0. split.
    + intros (t1 & H1 & Hr1). destruct (decide (k = k1)) as [<-|Hne].
      * rewrite lookup_insert_eq. exists t'. split; [done|].
        rewrite Hr. congruence.
      * rewrite lookup_insert_ne by done. eauto.
    + intros (t1 & [[<- <-]|[Hne H1]]%lookup_insert_Some & Hr1).
      * exists t. split; [done|]. by rewrite <- Hr.
      * eauto.
Qed.

(** [GetTask] does not panic, returns a task of the ready set and
    removes it from the set. *)
Lemma GetTask_spec (first : option string) (s : Service F) :
  wf s → rangeFirst (readyTasks s) first →
  ∃ r s', GetTask first s = Some (r, s')
    ∧ wf s'
    ∧ expressions s' = expressions s
    ∧ completedTasks s' = completedTasks s
    ∧ reverseDependencies s' = reverseDependencies s
    ∧ taskIDCounter s' = taskIDCounter s
    ∧ match first with
      | None => r = None ∧ s' = s ∧ readyTasks s = ∅
      | Some k =>
          k ∈ readyTasks s
          ∧ readyTasks s' = readyTasks s ∖ {[k]}
          ∧ ∃ t, tasks s !! k = Some t
                 ∧ r = Some (Task.setStatus "processing" t)
                 ∧ tasks s'
                   = <[k := Task.setStatus "processing" t]> (tasks s)
      end.
Proof.
  intros Hwf Hfirst. destruct first as [k|]; simpl in *.
  - destruct (wf_ready s Hwf k Hfirst) as [t Hk]. rewrite Hk.
    eexists _, _. split; [done|]. split.
    { pose proof (wf_update_task s k t (Task.setStatus "processing" t)
                    Hwf Hk eq_refl eq_refl eq_refl eq_refl) as [].
      split; try done.
      intros k1 Hk1. cbn [readyTasks setReadyTasks] in Hk1.
      apply elem_of_difference in Hk1 as [H1 _]. by apply wf_ready0. }
    repeat split; try done. by exists t.
  - by eexists _, _.
Qed.

(** *** [updateDependencies] *)

Lemma substArg_idemp (taskID : string) (result : F) (arg : string) :
  substArg taskID result (substArg taskID result arg)
  = substArg taskID result arg.
Proof.
  unfold substArg. destruct (arg =? taskID) eqn:E; [|by rewrite E].
  by destruct (Sprintf_f result =? taskID).
Qed.

Lemma substTask_idemp (taskID : string) (result : F) (t : Task.t F) :
  substTask taskID result (substTask taskID result t)
  = substTask taskID result t.
Proof.
  unfold substTask. destruct t; simpl. by rewrite !substArg_idemp.
Qed.

Lemma updateDependent_eq (taskID : string) (result : F) (s : Service F)
    (depID : string) (t : Task.t F) :
  tasks s !! depID = Some t →
  updateDependent taskID result s depID
  = Some (setReadyTasks
            (if depsCompleted s t then {[depID]} ∪ readyTasks s
             else readyTasks s)
            (setTasks (<[depID := substTask taskID result t]> (tasks s)) s)).
Proof.
  intros Hk. unfold updateDependent. rewrite Hk. simpl.
  fold (substTask taskID result t). fold (depsCompleted s t).
  by destruct (depsCompleted s t).
Qed.

(** The loop of [updateDependencies] over dependents that are all in
    [tasks]: it does not panic, substitutes the result in the listed
    tasks and adds to the ready set those whose dependencies are all
    completed. *)
Lemma updateDependenciesFrom_spec (taskID : string) (result : F)
    (deps : list string) :
  ∀ s : Service F,
    (∀ k, k ∈ deps → is_Some (tasks s !! k)) →
    ∃ s', updateDependenciesFrom taskID result deps s = Some s'
      ∧ expressions s' = expressions s
      ∧ completedTasks s' = completedTasks s
      ∧ reverseDependencies s' = reverseDependencies s
      ∧ taskIDCounter s' = taskIDCounter s
      ∧ (∀ k, tasks s' !! k
              = (λ t, if bool_decide (k ∈ deps)
                      then substTask taskID result t else t)
                <$> tasks s !! k)
      ∧ (∀ k, k ∈ readyTasks s' ↔
              k ∈ readyTasks s
              ∨ (k ∈ deps ∧ ∃ t, tasks s !! k = Some t
                                 ∧ depsCompleted s t = true)).
Proof.
  induction deps as [|depID rest IH]; intros s Hdeps; simpl.
  - exists s. repeat split; try done.
    + intros k. by destruct (tasks s !! k).
    + by left.
    + intros [?|[?%elem_of_nil _]]; done.
  - destruct (Hdeps depID) as [t Hk]; [by left|].
    rewrite (updateDependent_eq _ _ _ _ _ Hk).
    set (s1 := setReadyTasks _ _).
    destruct (IH s1) as (s' & Hrun & He & Hc & Hr & Hn & Ht & Hready).
    { intros k Hin. subst s1. simpl.
      destruct (decide (depID = k)) as [<-|Hne].
      - rewrite lookup_insert_eq. eauto.
      - rewrite lookup_insert_ne by done. apply Hdeps. by right. }
    exists s'. rewrite Hrun, He, Hc, Hr, Hn. repeat split; try done.
    + intros k. rewrite Ht. subst s1. simpl.
      destruct (decide (depID = k)) as [<-|Hne].
      * rewrite lookup_insert_eq, Hk. simpl.
        rewrite (bool_decide_eq_true_2 (depID ∈ depID :: rest)) by by left.
        case_bool_decide; [by rewrite substTask_idemp|done].
      * rewrite lookup_insert_ne by done.
        destruct (tasks s !! k) as [tk|]; [|done]. simpl. f_equal.
        destruct (bool_decide (k ∈ rest)) eqn:E.
        -- apply bool_decide_eq_true in E.
           rewrite bool_decide_eq_true_2; [done|by right].
        -- apply bool_decide_eq_false in E.
           rewrite bool_decide_eq_false_2; [done|].
           intros [?|?]%elem_of_cons; [congruence|done].
    + rewrite Hready. subst s1. simpl.
      intros [Hin|(Hin & tk & Htk & Hcomp)].
      * destruct (depsCompleted s t) eqn:E; [|by left].
        apply elem_of_union in Hin as [->%elem_of_singleton|?]; [|by left].
        right. split; [by left|]. eauto.
      * right. split; [by right|].
        destruct (decide (depID = k)) as [<-|Hne].
        -- rewrite lookup_insert_eq in Htk. injection Htk as <-.
           exists t. split; [done|]. apply Hcomp.
        -- rewrite lookup_insert_ne in Htk by done. eauto.
    + rewrite Hready. subst s1. simpl.
      intros [Hin|(Hin & tk & Htk & Hcomp)].
      * left. destruct (depsCompleted s t); [|done].
        apply elem_of_union. by right.
      * apply elem_of_cons in Hin as [->|Hin].
        -- left. assert (tk = t) as -> by congruence. rewrite Hcomp.
           apply elem_of_union. left. by apply elem_of_singleton.
        -- right. split; [done|].
           destruct (decide (depID = k)) as [<-|Hne].
           ++ rewrite lookup_insert_eq. eexists. split; [done|].
              assert (tk = t) as -> by congruence. apply Hcomp.
           ++ rewrite lookup_insert_ne by done. eauto.
Qed.

(** *** [updateExpressionStatus] *)

Lemma scanTasks_spec (s : Service F) (exprID : string) (order : list string) :
  ∀ (finalResult : option F) (b : bool) (fr : option F),
    scanTasks s exprID order finalResult = (b, fr) →
    (b = true ↔
     ∀ k t, k ∈ order → tasks s !! k = Some t →
            Task.ExpressionID t = exprID → is_Some (Task.Result t))
    ∧ (b = true →
       (fr = finalResult
        ∨ ∃ k t, k ∈ order ∧ isRoot s exprID k t
                 ∧ is_Some (Task.Result t) ∧ fr = Task.Result t)
       ∧ ((is_Some finalResult
           ∨ ∃ k t, k ∈ order ∧ isRoot s exprID k t) → is_Some fr)).
Proof.
  induction order as [|k0 rest IH]; intros fin b fr; simpl.
  - intros [= <- <-]. split.
    + split; [|done]. intros _ k t Hin. by apply elem_of_nil in Hin.
    + intros _. split; [by left|].
      intros [?|(k & t & Hin & _)]; [done|]. by apply elem_of_nil in Hin.
  - destruct (tasks s !! k0) as [t0|] eqn:E0.
    2:{ intros Hscan. destruct (IH _ _ _ Hscan) as [Hb Hfr]. split.
        - rewrite Hb. split.
          + intros H k t [->|Hin]%elem_of_cons; [congruence|by apply H].
          + intros H k t Hin. apply H. by right.
        - intros Hbt. destruct (Hfr Hbt) as [Hcases Hsome]. split.
          + destruct Hcases as [?|(k & t & Hin & H)]; [by left|].
            right. exists k, t. split; [by right|done].
          + intros [?|(k & t & Hin & Hroot)]; apply Hsome; [by left|].
            right. exists k, t. split; [|done].
            apply elem_of_cons in Hin as [->|?]; [|done].
            destruct Hroot as [? _]. congruence. }
    destruct (Task.ExpressionID t0 =? exprID) eqn:Ee.
    2:{ apply String.eqb_neq in Ee.
        intros Hscan. destruct (IH _ _ _ Hscan) as [Hb Hfr]. split.
        - rewrite Hb. split.
          + intros H k t [->|Hin]%elem_of_cons; [congruence|by apply H].
          + intros H k t Hin. apply H. by right.
        - intros Hbt. destruct (Hfr Hbt) as [Hcases Hsome]. split.
          + destruct Hcases as [?|(k & t & Hin & H)]; [by left|].
            right. exists k, t. split; [by right|done].
          + intros [?|(k & t & Hin & Hroot)]; apply Hsome; [by left|].
            right. exists k, t. split; [|done].
            apply elem_of_cons in Hin as [->|?]; [|done].
            destruct Hroot as (? & ? & _). congruence. }
    apply String.eqb_eq in Ee.
    destruct (Task.Result t0) as [r0|] eqn:Er.
    2:{ intros [= <- <-]. split; [|done]. split; [done|].
        intros H. destruct (H k0 t0) as [? ?]; [by left|done..|congruence]. }
    intros Hscan. destruct (IH _ _ _ Hscan) as [Hb Hfr]. split.
    + rewrite Hb. split.
      * intros H k t [->|Hin]%elem_of_cons; [|by apply H].
        intros Hk _. assert (t = t0) as -> by congruence.
        rewrite Er. eauto.
      * intros H k t Hin. apply H. by right.
    + intros Hbt. destruct (Hfr Hbt) as [Hcases Hsome]. split.
      * destruct Hcases as [->|(k & t & Hin & H)].
        -- destruct (length (dependents s k0) =? 0)%nat eqn:El; [|by left].
           right. exists k0, t0. split; [by left|].
           split; [|by rewrite Er]. split; [done|]. split; [done|].
           apply Nat.eqb_eq in El. by destruct (dependents s k0).
        -- right. exists k, t. split; [by right|done].
      * intros [Hfin|(k & t & Hin & Hroot)]; apply Hsome.
        -- left. by destruct (length _ =? 0)%nat.
        -- apply elem_of_cons in Hin as [->|?]; [|right; by exists k, t].
           left. destruct Hroot as (Hk & _ & Hdeps).
           by rewrite Hdeps.
Qed.

Lemma elem_of_keys (s : Service F) (order : list string) (k : string)
    (t : Task.t F) :
  order ≡ₚ elements (dom (tasks s)) → tasks s !! k = Some t → k ∈ order.
Proof.
  intros -> Hk. apply elem_of_elements, elem_of_dom. eauto.
Qed.

(** [updateExpressionStatus] does not panic when the expression
    exists; it changes the expression exactly when all its tasks have a
    result and one of them is a root, to the result of a root. *)
Lemma updateExpressionStatus_spec (order : list string) (exprID : string)
    (s : Service F) (expr : ExpressionData.t F) :
  order ≡ₚ elements (dom (tasks s)) →
  expressions s !! exprID = Some expr →
  ∃ s', updateExpressionStatus order exprID s = Some s'
    ∧ tasks s' = tasks s
    ∧ completedTasks s' = completedTasks s
    ∧ readyTasks s' = readyTasks s
    ∧ reverseDependencies s' = reverseDependencies s
    ∧ taskIDCounter s' = taskIDCounter s
    ∧ ((expressions s' = expressions s
        ∧ ¬ (allDone s exprID ∧ ∃ k t, isRoot s exprID k t))
       ∨ (allDone s exprID
          ∧ ∃ k t, isRoot s exprID k t ∧ is_Some (Task.Result t)
              ∧ expressions s'
                = <[exprID := ExpressionData.mk (ExpressionData.ID expr)
                                (ExpressionData.Expression expr) Completed
                                (Task.Result t)]> (expressions s))).
Proof.
  intros Hperm Hexpr. unfold updateExpressionStatus.
  destruct (scanTasks s exprID order None) as [b fr] eqn:Escan.
  destruct (scanTasks_spec _ _ _ _ _ _ Escan) as [Hb Hfr].
  assert (Hall : b = true ↔ allDone s exprID).
  { rewrite Hb. split.
    - intros H k t Hk. apply (H k); [|done]. by eapply elem_of_keys.
    - intros H k t _. apply (H k). }
  destruct b.
  - destruct (Hfr eq_refl) as [Hcases Hsome].
    destruct fr as [r|].
    + rewrite Hexpr. eexists. split; [done|]. repeat split; try done.
      right. split; [by apply Hall|].
      destruct Hcases as [?|(k & t & _ & Hroot & Hres & Heq)]; [done|].
      exists k, t. split; [done|]. split; [done|].
      cbn [expressions setExpressions]. by rewrite <- Heq.
    + exists s. repeat split; try done. left. split; [done|].
      intros [_ (k & t & Hroot)].
      destruct Hsome as [? ?]; [|done]. right. exists k, t.
      split; [|done]. destruct Hroot as [Hk _]. by eapply elem_of_keys.
  - exists s. repeat split; try done. left. split; [done|].
    intros [Hdone _]. apply Hall in Hdone. done.
Qed.

(** *** [SetTaskResult] *)

(** A state whose tasks are those of a well-formed state, each changed
    by a function that keeps its identity, expression and dependencies,
    is well-formed when its other fields fit. *)
Lemma wf_map_tasks (s s' : Service F) (f : string → Task.t F → Task.t F) :
  wf s →
  (∀ k, tasks s' !! k = f k <$> tasks s !! k) →
  (∀ k t, Task.ID (f k t) = Task.ID t
          ∧ Task.ExpressionID (f k t) = Task.ExpressionID t
          ∧ Task.Dependencies (f k t) = Task.Dependencies t) →
  reverseDependencies s' = reverseDependencies s →
  (taskIDCounter s ≤ taskIDCounter s')%nat →
  (∀ k, k ∈ readyTasks s' → is_Some (tasks s' !! k)) →
  (∀ e, is_Some (expressions s !! e) → is_Some (expressions s' !! e)) →
  (∀ k, k ∈ completedTasks s' ↔
        ∃ t, tasks s' !! k = Some t ∧ is_Some (Task.Result t)) →
  wf s'.
Proof.
  intros [] Ht Hf Hr Hn Hready Hexpr Hcompl.
  assert (Hd : ∀ d, dependents s' d = dependents s d).
  { intros d. unfold dependents. by rewrite Hr. }
  assert (Hinv : ∀ k t', tasks s' !! k = Some t' →
            ∃ t, tasks s !! k = Some t ∧ t' = f k t).
  { intros k t'. rewrite Ht. destruct (tasks s !! k) as [t|]; [|done].
    intros [= <-]. eauto. }
  split; try done.
  - intros k t' (t & Hk & ->)%Hinv. destruct (Hf k t) as (-> & _).
    destruct (wf_keys0 k t Hk) as (? & n & ? & ?).
    split; [done|]. exists n. split; [done|lia].
  - intros d k. rewrite Hd. intros (t & Hk & Hdt)%wf_rev0.
    exists (f k t). rewrite Ht, Hk. split; [done|].
    destruct (Hf k t) as (_ & _ & ->). done.
  - intros k t' d (t & Hk & ->)%Hinv. destruct (Hf k t) as (_ & _ & ->).
    intros Hdt. destruct (wf_deps0 k t d Hk Hdt) as [[td Htd] Hin].
    rewrite Hd, Ht, Htd. split; [by eexists|done].
  - intros k t' (t & Hk & ->)%Hinv. destruct (Hf k t) as (_ & -> & _).
    apply Hexpr. by eapply wf_expr0.
Qed.

Lemma recordedTask_fields (s : Service F) (id : string) (result : F)
    (k : string) (t : Task.t F) :
  Task.ID (recordedTask s id result k t) = Task.ID t
  ∧ Task.ExpressionID (recordedTask s id result k t) = Task.ExpressionID t
  ∧ Task.Dependencies (recordedTask s id result k t) = Task.Dependencies t
  ∧ Task.Result (recordedTask s id result k t)
    = (if decide (k = id) then Some result else Task.Result t)
  ∧ Task.Status (recordedTask s id result k t) = Task.Status t.
Proof.
  unfold recordedTask. by case_bool_decide; case_decide.
Qed.

Lemma substTask_fields (taskID : string) (result : F) (t : Task.t F) :
  Task.ID (substTask taskID result t) = Task.ID t
  ∧ Task.ExpressionID (substTask taskID result t) = Task.ExpressionID t
  ∧ Task.Dependencies (substTask taskID result t) = Task.Dependencies t
  ∧ Task.Result (substTask taskID result t) = Task.Result t.
Proof. done. Qed.

Lemma SetTaskResult_spec (order : list string) (id : string) (result : F)
    (s : Service F) (task : Task.t F) :
  wf s → order ≡ₚ elements (dom (tasks s)) → tasks s !! id = Some task →
  ∃ s', SetTaskResult order id result s = Some (s', None)
        ∧ recordSpec s id result task s'.
Proof.
  intros Hwf Hperm Hid. unfold SetTaskResult. rewrite Hid.
  set (s1 := setCompletedTasks _ _).
  destruct (wf_expr s Hwf id task Hid) as [expr Hexpr].
  assert (Hperm1 : order ≡ₚ elements (dom (tasks s1))).
  { subst s1. simpl. rewrite dom_insert_lookup_L; [done|eauto]. }
  destruct (updateExpressionStatus_spec order (Task.ExpressionID task) s1
              expr Hperm1 Hexpr)
    as (s2 & -> & Ht2 & Hc2 & Hr2 & Hv2 & Hn2 & He2).
  unfold updateDependencies.
  assert (Hd2 : ∀ d, dependents s2 d = dependents s d).
  { intros d. unfold dependents. by rewrite Hv2. }
  rewrite Hd2.
  destruct (updateDependenciesFrom_spec id result (dependents s id) s2)
    as (s3 & -> & He3 & Hc3 & Hv3 & Hn3 & Ht3 & Hr3).
  { intros k (t & Hk & _)%(wf_rev s Hwf). rewrite Ht2. subst s1. simpl.
    destruct (decide (id = k)) as [<-|Hne].
    - rewrite lookup_insert_eq. eauto.
    - rewrite lookup_insert_ne by done. eauto. }
  exists s3. split; [done|].
  assert (Hd3 : ∀ d, dependents s3 d = dependents s d).
  { intros d. unfold dependents. by rewrite Hv3, Hv2. }
  assert (Htasks : ∀ k, tasks s3 !! k
                        = recordedTask s id result k <$> tasks s !! k).
  { intros k. rewrite Ht3, Ht2. subst s1. simpl. unfold recordedTask.
    destruct (decide (id = k)) as [<-|Hne].
    - rewrite lookup_insert_eq, Hid. simpl. by rewrite decide_True by done.
    - rewrite lookup_insert_ne by done.
      destruct (tasks s !! k); [|done]. simpl.
      by rewrite decide_False by congruence. }
  assert (Hcompl : completedTasks s3 = {[id]} ∪ completedTasks s).
  { by rewrite Hc3, Hc2. }
  assert (Hready : ∀ k, k ∈ readyTasks s3 ↔
            k ∈ readyTasks s
            ∨ (k ∈ dependents s id
               ∧ ∃ t, tasks s !! k = Some t
                      ∧ ∀ d, d ∈ Task.Dependencies t →
                             d = id ∨ d ∈ completedTasks s)).
  { intros k. rewrite Hr3, Hr2.
    change (readyTasks s1) with (readyTasks s).
    apply or_iff_compat_l. apply and_iff_compat_l.
    rewrite Ht2. subst s1. cbn [tasks setTasks setCompletedTasks].
    unfold depsCompleted. rewrite Hc2.
    cbn [completedTasks setCompletedTasks].
    assert (Hforall : ∀ t : Task.t F,
      forallb (λ dID, bool_decide (dID ∈ {[id]} ∪ completedTasks s))
        (Task.Dependencies t) = true ↔
      ∀ d, d ∈ Task.Dependencies t → d = id ∨ d ∈ completedTasks s).
    { intros t. rewrite forallb_forall. split.
      - intros H d Hd%list_elem_of_In. apply H in Hd.
        apply bool_decide_eq_true in Hd.
        apply elem_of_union in Hd as [->%elem_of_singleton|?]; eauto.
      - intros H d Hd%list_elem_of_In. apply bool_decide_eq_true.
        apply elem_of_union. destruct (H d Hd) as [->|?]; [left|by right].
        by apply elem_of_singleton. }
    destruct (decide (id = k)) as [<-|Hne].
    - rewrite lookup_insert_eq, Hid. split.
      + intros (t & [= <-] & H). exists task. split; [done|].
        by apply (Hforall (Task.setResult (Some result) task)).
      + intros (t & [= <-] & H). eexists. split; [done|].
        by apply (Hforall (Task.setResult (Some result) task)).
    - rewrite lookup_insert_ne by done. split.
      + intros (t & Hk & H). exists t. split; [done|]. by apply Hforall.
      + intros (t & Hk & H). exists t. split; [done|]. by apply Hforall. }
  assert (Hexprs : ∀ e, is_Some (expressions s !! e) →
                        is_Some (expressions s3 !! e)).
  { intros e He. rewrite He3.
    destruct He2 as [[-> _]|(_ & k & t & _ & _ & ->)]; [done|].
    destruct (decide (Task.ExpressionID task = e)) as [<-|Hne].
    - rewrite lookup_insert_eq. eauto.
    - by rewrite lookup_insert_ne. }
  assert (Hwf3 : wf s3).
  { apply (wf_map_tasks s s3 (recordedTask s id result));
      [done|done| | | | |done|].
    - intros k t.
      destruct (recordedTask_fields s id result k t) as (? & ? & ? & _).
      done.
    - by rewrite Hv3, Hv2.
    - apply Nat.eq_le_incl. symmetry. etrans; [exact Hn3|exact Hn2].
    - intros k. rewrite Hready, Htasks.
      intros [Hk%(wf_ready s Hwf)|(_ & t & Hk & _)].
      + destruct Hk as [t Hk]. rewrite Hk. by eexists.
      + rewrite Hk. by eexists.
    - intros k. rewrite Hcompl, Htasks, elem_of_union, elem_of_singleton.
      rewrite (wf_completed s Hwf). split.
      + intros [->|(t & Hk & Hres)].
        * rewrite Hid. eexists. split; [done|].
          destruct (recordedTask_fields s id result id task)
            as (_ & _ & _ & -> & _).
          rewrite decide_True by done. eauto.
        * rewrite Hk. eexists. split; [done|].
          destruct (recordedTask_fields s id result k t)
            as (_ & _ & _ & -> & _).
          case_decide; eauto.
      + intros (t' & Hk & Hres).
        destruct (tasks s !! k) as [t|] eqn:E; [|done].
        injection Hk as <-.
        destruct (recordedTask_fields s id result k t)
          as (_ & _ & _ & Hr & _).
        rewrite Hr in Hres. case_decide; [by left|right; eauto]. }
  (* the tasks of [s1] and of [s3] have the same expressions and results *)
  assert (H13 : ∀ k, tasks s3 !! k
                     = (λ t, if bool_decide (k ∈ dependents s id)
                             then substTask id result t else t)
                       <$> tasks s1 !! k).
  { intros k. by rewrite Ht3, Ht2. }
  assert (Hdone : ∀ e, allDone s1 e ↔ allDone s3 e).
  { intros e. unfold allDone. split.
    - intros H k t'. rewrite H13.
      destruct (tasks s1 !! k) as [t|] eqn:E; [|done]. intros [= <-].
      specialize (H k t E). by case_bool_decide.
    - intros H k t Hk. specialize (H k _ ltac:(by rewrite H13, Hk)).
      by case_bool_decide. }
  assert (Hroot13 : ∀ e k t, isRoot s1 e k t →
            ∃ t', isRoot s3 e k t' ∧ Task.Result t' = Task.Result t).
  { intros e k t (Hk & He & Hd).
    eexists. split; [split; [by rewrite H13, Hk|]|].
    - split; [by case_bool_decide|]. rewrite Hd3. apply Hd.
    - by case_bool_decide. }
  assert (Hroot31 : ∀ e k t', isRoot s3 e k t' → ∃ t, isRoot s1 e k t).
  { intros e k t' (Hk & He & Hd). rewrite H13 in Hk.
    destruct (tasks s1 !! k) as [t|] eqn:E; [|done]. injection Hk as <-.
    exists t. split; [done|]. split; [by case_bool_decide|].
    rewrite Hd3 in Hd. apply Hd. }
  split; try done.
  - by rewrite Hv3, Hv2.
  - by rewrite Hn3, Hn2.
  - rewrite He3.
    destruct He2 as [[-> Hnot]|(Hall & k & t & Hroot & Hres & ->)].
    + left. split; [done|]. intros [Hall (k & t' & Hroot)].
      apply Hnot. split; [by apply Hdone|].
      destruct (Hroot31 _ _ _ Hroot) as [t Ht]. eauto.
    + right. split; [by apply Hdone|].
      destruct (Hroot13 _ _ _ Hroot) as (t' & Hroot' & Hres').
      exists k, t', expr. rewrite Hres'. done.
Qed.

Lemma SetTaskResult_not_found (order : list string) (id : string)
    (result : F) (s : Service F) :
  tasks s !! id = None →
  SetTaskResult order id result s
  = Some (s, Some ("task not found: " +:+ id)).
Proof. intros H. unfold SetTaskResult. by rewrite H. Qed.

(** ** Executions *)

Lemma step_wf (s : Service F) (ev : event F) (s' : Service F) :
  wf s → step s ev s' → wf s'.
Proof.
  intros Hwf Hstep. revert Hwf.
  destruct Hstep as [s0 id expression s1 r Hid Hsub
                    |s0 first r s1 Hfirst Hget
                    |s0 order id value s1 err Hperm Hset]; intros Hwf.
  - by destruct (SubmitExpression_spec _ _ _ _ _ Hwf Hid Hsub) as [[] _].
  - destruct (GetTask_spec first s0 Hwf Hfirst) as (r' & s2 & Hget' & ? & _).
    congruence.
  - destruct (tasks s0 !! id) as [task|] eqn:E.
    + destruct (SetTaskResult_spec order id value s0 task Hwf Hperm E)
        as (s2 & Hset' & []).
      congruence.
    + rewrite SetTaskResult_not_found in Hset by done. congruence.
Qed.

Lemma run_wf (ot : OperationTimes) (evs : list (event F)) (s : Service F) :
  run (NewService (F:=F) ot) evs s → wf s.
Proof.
  induction 1 as [|evs s ev s' _ IH Hstep]; [apply wf_NewService|].
  by eapply step_wf.
Qed.

Lemma run_cons (s : Service F) (ev : event F) (s1 : Service F)
    (evs : list (event F)) (s2 : Service F) :
  step s ev s1 → run s1 evs s2 → run s (ev :: evs) s2.
Proof.
  intros Hstep Hrun. induction Hrun as [|evs s2 ev' s3 _ IH Hstep'].
  - apply (run_snoc s [] s ev s1); [constructor|done].
  - rewrite app_comm_cons. by eapply run_snoc.
Qed.

Lemma pulledIDs_snoc (evs : list (event F)) (ev : event F) :
  pulledIDs (evs ++ [ev])
  = pulledIDs evs
    ++ match ev with
       | Pulled (Some task) => [Task.ID task]
       | _ => []
       end.
Proof.
  unfold pulledIDs. rewrite omap_app. f_equal.
  by destruct ev as [| [|] |].
Qed.

Lemma recordedIDs_snoc (evs : list (event F)) (ev : event F) :
  recordedIDs (evs ++ [ev])
  = recordedIDs evs
    ++ match ev with
       | Recorded id _ None => [id]
       | _ => []
       end.
Proof.
  unfold recordedIDs. rewrite omap_app. f_equal.
  by destruct ev as [| |? ? [|]].
Qed.

(** *** Each task is pulled at most once *)

Lemma pullInv_step (evs : list (event F)) (s : Service F) (ev : event F)
    (s' : Service F) :
  wf s → pullInv evs s → step s ev s' →
  NoDup (recordedIDs (evs ++ [ev])) →
  NoDup (pulledIDs evs) →
  pullInv (evs ++ [ev]) s' ∧ NoDup (pulledIDs (evs ++ [ev])).
Proof.
  intros Hwf [Hready Hdeps Hpulled Hcompl] Hstep.
  rewrite pulledIDs_snoc, recordedIDs_snoc. intros Hrec Hnd.
  revert Hwf Hready Hdeps Hpulled Hcompl Hrec.
  destruct Hstep as [s id expression s' r Hid Hsub
                    |s first r s' Hfirst Hget
                    |s order id value s' err Hperm Hset];
    intros Hwf Hready Hdeps Hpulled Hcompl Hrec.
  - (* SubmitExpression *)
    destruct (SubmitExpression_spec _ _ _ _ _ Hwf Hid Hsub) as [Hspec _].
    rewrite !app_nil_r in *. split; [|done].
    pose proof (ss_wf _ _ _ _ _ Hspec) as Hwf'.
    assert (Hnewready : ∀ k, k ∈ readyTasks s' → tasks s !! k = None →
              ∃ t, tasks s' !! k = Some t ∧ Task.Dependencies t = []).
    { intros k Hk Hnew.
      apply (ss_ready _ _ _ _ _ Hspec) in Hk
        as [Hk|(_ & _ & t & Hkt & H1 & H2)].
      { apply (wf_ready s Hwf) in Hk as [? ?]. congruence. }
      exists t. split; [done|].
      destruct (Task.Dependencies t) as [|d l] eqn:E; [done|].
      destruct (ss_new _ _ _ _ _ Hspec k t Hkt Hnew) as (_ & _ & Hd & _).
      destruct (Hd d) as [Harg _]; [rewrite E; by left|].
      destruct (wf_deps s' Hwf' k t d Hkt) as [Hsome _];
        [rewrite E; by left|].
      apply isTaskID_true in Hsome. destruct Harg; congruence. }
    split; rewrite ?pulledIDs_snoc, ?recordedIDs_snoc, ?app_nil_r.
    + intros k Hk Hin.
      apply (ss_ready _ _ _ _ _ Hspec) in Hk as [Hk|(_ & Hnew & _)].
      * by apply (Hready k).
      * apply Hpulled in Hin as [t Ht]. congruence.
    + intros k t d Hk Hkt Hd.
      destruct (tasks s !! k) as [t0|] eqn:E.
      * pose proof (ss_old _ _ _ _ _ Hspec k t0 E) as Hkt'.
        assert (t = t0) as -> by congruence.
        apply (Hdeps k t0 d); [|done..].
        destruct Hk as [Hk|?]; [|by right].
        apply (ss_ready _ _ _ _ _ Hspec) in Hk as [?|(_ & ? & _)];
          [by left|congruence].
      * destruct Hk as [Hk|Hk].
        -- destruct (Hnewready k Hk E) as (t' & Hkt' & Hnil).
           assert (t = t') as -> by congruence.
           rewrite Hnil in Hd. by apply elem_of_nil in Hd.
        -- apply Hpulled in Hk as [? ?]. congruence.
    + intros k [t Hk]%Hpulled. apply (ss_old _ _ _ _ _ Hspec) in Hk. eauto.
    + intros k. rewrite (ss_completed _ _ _ _ _ Hspec). apply Hcompl.
  - (* GetTask *)
    destruct (GetTask_spec first s Hwf Hfirst)
      as (r' & s2 & Hget' & Hwf' & _ & Hc & _ & _ & Hcase).
    assert (r' = r ∧ s2 = s') as [-> ->] by (split; congruence).
    rewrite app_nil_r in *.
    destruct first as [k|].
    + destruct Hcase as (Hk & Hr & t & Hkt & -> & Ht).
      assert (Task.ID (Task.setStatus "processing" t) = k) as HID.
      { simpl. by apply (wf_keys s Hwf) in Hkt as [? _]. }
      split; [split; rewrite ?pulledIDs_snoc, ?recordedIDs_snoc, ?app_nil_r|];
        rewrite ?HID.
      * intros k'. rewrite Hr. intros [Hk' Hne]%elem_of_difference.
        intros [?| ->%list_elem_of_singleton]%elem_of_app.
        -- by apply (Hready k').
        -- apply Hne. by apply elem_of_singleton.
      * intros k' t' d Hk' Hkt' Hd.
        assert (k' ∈ readyTasks s ∨ k' ∈ pulledIDs evs) as Hk0.
        { destruct Hk' as [Hk'|Hk'].
          - rewrite Hr in Hk'. apply elem_of_difference in Hk' as [? _].
            by left.
          - apply elem_of_app in Hk' as [?| ->%list_elem_of_singleton];
              [by right|by left]. }
        rewrite Ht in Hkt'.
        apply lookup_insert_Some in Hkt' as [[<- <-]|[Hne Hkt']].
        -- by apply (Hdeps k t d).
        -- by apply (Hdeps k' t' d).
      * intros k' Hk'. rewrite Ht.
        destruct (decide (k = k')) as [<-|Hne].
        -- rewrite lookup_insert_eq. eauto.
        -- rewrite lookup_insert_ne by done. apply Hpulled.
           apply elem_of_app in Hk' as [?|?%list_elem_of_singleton];
             [done|congruence].
      * intros k'. rewrite Hc. apply Hcompl.
      * apply NoDup_app. split; [done|]. split; [|apply NoDup_singleton].
        intros k' Hin ->%list_elem_of_singleton. by apply (Hready k).
    + destruct Hcase as (-> & -> & _). rewrite app_nil_r.
      split; [|done].
      split; rewrite ?pulledIDs_snoc, ?recordedIDs_snoc, ?app_nil_r; done.
  - (* SetTaskResult *)
    destruct (tasks s !! id) as [task|] eqn:E.
    2:{ rewrite SetTaskResult_not_found in Hset by done.
        injection Hset as <- <-. rewrite !app_nil_r in *.
        split; [|done].
        split; rewrite ?pulledIDs_snoc, ?recordedIDs_snoc, ?app_nil_r;
          done. }
    destruct (SetTaskResult_spec order id value s task Hwf Hperm E)
      as (s2 & Hset' & Hspec).
    assert (s2 = s' ∧ err = None) as [-> ->] by (split; congruence).
    rewrite app_nil_r.
    apply NoDup_app in Hrec as (_ & Hfresh & _).
    assert (Hid : id ∉ recordedIDs evs).
    { intros Hin. apply (Hfresh id Hin). by left. }
    assert (Hfields : ∀ k t', tasks s' !! k = Some t' →
              ∃ t, tasks s !! k = Some t
                   ∧ Task.Dependencies t' = Task.Dependencies t).
    { intros k t'. rewrite (rs_tasks _ _ _ _ _ Hspec).
      destruct (tasks s !! k) as [t|]; [|done]. intros [= <-].
      exists t. split; [done|].
      by destruct (recordedTask_fields s id value k t) as (_ & _ & -> & _). }
    assert (Hnewready : ∀ k, k ∈ readyTasks s' → k ∉ readyTasks s →
              k ∈ dependents s id
              ∧ ∃ t, tasks s !! k = Some t
                     ∧ ∀ d, d ∈ Task.Dependencies t →
                            d = id ∨ d ∈ completedTasks s).
    { intros k Hk Hnot. by apply (rs_ready _ _ _ _ _ Hspec) in Hk as [?|?]. }
    split; [|done].
    split; rewrite ?pulledIDs_snoc, ?recordedIDs_snoc, ?app_nil_r.
    + intros k Hk Hin.
      destruct (decide (k ∈ readyTasks s)) as [Hold|Hnew];
        [by apply (Hready k)|].
      destruct (Hnewready k Hk Hnew) as (Hdep & _).
      apply (wf_rev s Hwf) in Hdep as (t & Hkt & Hidt).
      apply Hid. apply (Hdeps k t id); [by right|done..].
    + intros k t' d Hk Hkt' Hd.
      destruct (Hfields k t' Hkt') as (t & Hkt & Heq). rewrite Heq in Hd.
      apply elem_of_app.
      destruct (decide (k ∈ readyTasks s ∨ k ∈ pulledIDs evs)) as [Hold|Hnew].
      { left. by apply (Hdeps k t d). }
      destruct Hk as [Hk|Hk]; [|destruct Hnew; by right].
      destruct (Hnewready k Hk) as (_ & t0 & Hkt0 & Hall);
        [intros ?; apply Hnew; by left|].
      assert (t0 = t) as -> by congruence.
      destruct (Hall d Hd) as [->|Hc]; [right; by left|].
      left. by apply Hcompl.
    + intros k [t Hk]%Hpulled. rewrite (rs_tasks _ _ _ _ _ Hspec), Hk.
      by eexists.
    + intros k. rewrite (rs_completed _ _ _ _ _ Hspec).
      intros [->%elem_of_singleton|Hk]%elem_of_union; apply elem_of_app;
        [right; by left|left; by apply Hcompl].
Qed.

(** C2 (amended). In every execution of the store in which no task id
    is given twice to a successful [SetTaskResult], each task id is
    returned by at most one [GetTask]. *)
Theorem pull_at_most_once (ot : OperationTimes) (evs : list (event F))
    (s : Service F) :
  run (NewService (F:=F) ot) evs s →
  NoDup (recordedIDs evs) →
  NoDup (pulledIDs evs).
Proof.
  intros Hrun.
  cut (NoDup (recordedIDs evs) → pullInv evs s ∧ NoDup (pulledIDs evs)).
  { intros H Hnd. by apply H. }
  induction Hrun as [|evs s ev s' Hrun IH Hstep].
  - intros _. split; [|constructor]. split.
    + intros k Hk. by apply not_elem_of_empty in Hk.
    + intros k t d _ H. simpl in H. by rewrite lookup_empty in H.
    + intros k Hk. by apply elem_of_nil in Hk.
    + intros k Hk. by apply not_elem_of_empty in Hk.
  - intros Hnd.
    assert (NoDup (recordedIDs evs)) as Hnd0.
    { rewrite recordedIDs_snoc in Hnd. by apply NoDup_app in Hnd as [? _]. }
    destruct (IH Hnd0) as [Hinv Hndp].
    apply (pullInv_step evs s ev s'); try done. by eapply run_wf.
Qed.

(** *** The operands of ready tasks *)

Lemma recordedTask_args (s : Service F) (id : string) (result : F)
    (k : string) (t : Task.t F) :
  Task.Arg1 (recordedTask s id result k t)
  = (if bool_decide (k ∈ dependents s id)
     then substArg id result (Task.Arg1 t) else Task.Arg1 t)
  ∧ Task.Arg2 (recordedTask s id result k t)
    = (if bool_decide (k ∈ dependents s id)
       then substArg id result (Task.Arg2 t) else Task.Arg2 t).
Proof. unfold recordedTask. by case_bool_decide; case_decide. Qed.

Lemma substArg_cases (id : string) (result : F) (a : string) :
  (a = id ∧ substArg id result a = Sprintf_f result)
  ∨ (a ≠ id ∧ substArg id result a = a).
Proof.
  unfold substArg. destruct (String.eqb_spec a id); [by left|by right].
Qed.

Lemma argsInv_step (s : Service F) (ev : event F) (s' : Service F) :
  (∀ v, isNumber (Sprintf_f v) = true) →
  wf s → argsInv s → step s ev s' → argsInv s'.
Proof.
  intros Hfmt Hwf [Hargs Hready] Hstep. revert Hwf Hargs Hready.
  destruct Hstep as [s id expression s' r Hid Hsub
                    |s first r s' Hfirst Hget
                    |s order id value s' err Hperm Hset];
    intros Hwf Hargs Hready.
  - (* SubmitExpression *)
    destruct (SubmitExpression_spec _ _ _ _ _ Hwf Hid Hsub) as [Hspec _].
    pose proof (ss_wf _ _ _ _ _ Hspec) as Hwf'.
    assert (Hnew : ∀ k t a, tasks s' !! k = Some t → tasks s !! k = None →
              a = Task.Arg1 t ∨ a = Task.Arg2 t →
              isNumber a = true
              ∨ (a ∈ Task.Dependencies t ∧ tasks s !! a = None)).
    { intros k t a Hkt Hk0 Ha.
      destruct (ss_new _ _ _ _ _ Hspec k t Hkt Hk0)
        as (_ & _ & Hd & H1 & H2).
      assert (isNumber a = true ∨ a ∈ Task.Dependencies t) as [?|Hin]
        by (by destruct Ha as [-> | ->]).
      - by left.
      - right. split; [done|]. by apply Hd. }
    split.
    + intros k t a Hkt Ha. rewrite (ss_completed _ _ _ _ _ Hspec).
      destruct (tasks s !! k) as [t0|] eqn:E.
      * pose proof (ss_old _ _ _ _ _ Hspec k t0 E).
        assert (t = t0) as -> by congruence. by eapply Hargs.
      * destruct (Hnew k t a Hkt E Ha) as [?|[Hin Ha0]]; [by left|].
        right. split; [done|].
        intros (? & ? & _)%(wf_completed s Hwf). congruence.
    + intros k t Hk Hkt.
      apply (ss_ready _ _ _ _ _ Hspec) in Hk
        as [Hk|(_ & Hk0 & t' & Hkt' & H1 & H2)].
      * destruct (wf_ready s Hwf k Hk) as [t0 Hkt0].
        pose proof (ss_old _ _ _ _ _ Hspec k t0 Hkt0).
        assert (t = t0) as -> by congruence. by eapply Hready.
      * assert (t' = t) as -> by congruence.
        assert (Hnum : ∀ a, a = Task.Arg1 t ∨ a = Task.Arg2 t →
                  isTaskID s' a = false → isNumber a = true).
        { intros a Ha Hnot.
          destruct (Hnew k t a Hkt Hk0 Ha) as [?|[Hin _]]; [done|].
          destruct (wf_deps s' Hwf' k t a Hkt Hin) as [Hsome _].
          apply isTaskID_true in Hsome. congruence. }
        split; apply Hnum; auto.
  - (* GetTask *)
    destruct (GetTask_spec first s Hwf Hfirst)
      as (r' & s2 & Hget' & _ & _ & Hc & _ & _ & Hcase).
    assert (s2 = s') as -> by congruence.
    destruct first as [k|]; [|by destruct Hcase as (_ & -> & _)].
    destruct Hcase as (Hk & Hr & t & Hkt & _ & Ht).
    split.
    + intros k' t' a. rewrite Ht, Hc.
      intros [[<- <-]|[Hne Hkt']]%lookup_insert_Some Ha.
      * by apply (Hargs k t a).
      * by apply (Hargs k' t' a).
    + intros k' t'. rewrite Ht, Hr.
      intros [Hk' _]%elem_of_difference
             [[<- <-]|[Hne Hkt']]%lookup_insert_Some.
      * by apply (Hready k t).
      * by apply (Hready k' t').
  - (* SetTaskResult *)
    destruct (tasks s !! id) as [task|] eqn:E.
    2:{ rewrite SetTaskResult_not_found in Hset by done.
        by injection Hset as <- <-. }
    destruct (SetTaskResult_spec order id value s task Hwf Hperm E)
      as (s2 & Hset' & Hspec).
    assert (s2 = s') as -> by congruence.
    assert (Hinv : ∀ k t', tasks s' !! k = Some t' →
              ∃ t, tasks s !! k = Some t
                   ∧ t' = recordedTask s id value k t).
    { intros k t'. rewrite (rs_tasks _ _ _ _ _ Hspec).
      destruct (tasks s !! k) as [t|]; [|done]. intros [= <-]. eauto. }
    (* every slot after the call *)
    assert (Hslot : ∀ k t a,
              tasks s !! k = Some t →
              a = Task.Arg1 t ∨ a = Task.Arg2 t →
              let a' := if bool_decide (k ∈ dependents s id)
                        then substArg id value a else a in
              isNumber a' = true
              ∨ (a' = a ∧ a ≠ id ∧ a ∈ Task.Dependencies t
                 ∧ a ∉ completedTasks s)).
    { intros k t a Hkt Ha a'. subst a'.
      destruct (Hargs k t a Hkt Ha) as [Hn|[Hin Hnc]].
      - case_bool_decide; [|by left].
        destruct (substArg_cases id value a) as [[_ ->]|[_ ->]];
          [left; apply Hfmt|by left].
      - case_bool_decide as Hdep.
        + destruct (substArg_cases id value a) as [[_ ->]|[Hne ->]];
            [left; apply Hfmt|by right].
        + right. repeat split; try done. intros ->. apply Hdep.
          by apply (wf_deps s Hwf k t id Hkt Hin). }
    split.
    + intros k t' a (t & Hkt & ->)%Hinv.
      destruct (recordedTask_fields s id value k t) as (_ & _ & -> & _).
      destruct (recordedTask_args s id value k t) as [-> ->].
      rewrite (rs_completed _ _ _ _ _ Hspec).
      intros [-> | ->].
      * destruct (Hslot k t (Task.Arg1 t) Hkt) as [?|(-> & ? & ? & ?)];
          [by left|by left|].
        right. split; [done|].
        intros [?%elem_of_singleton|?]%elem_of_union; done.
      * destruct (Hslot k t (Task.Arg2 t) Hkt) as [?|(-> & ? & ? & ?)];
          [by right|by left|].
        right. split; [done|].
        intros [?%elem_of_singleton|?]%elem_of_union; done.
    + intros k t' Hk (t & Hkt & ->)%Hinv.
      unfold numericArgs.
      destruct (recordedTask_args s id value k t) as [-> ->].
      apply (rs_ready _ _ _ _ _ Hspec) in Hk as [Hk|(Hdep & t0 & Hkt0 & Hall)].
      * destruct (Hready k t Hk Hkt) as [H1 H2].
        case_bool_decide; [|done].
        split.
        -- destruct (substArg_cases id value (Task.Arg1 t))
             as [[_ ->]|[_ ->]]; [apply Hfmt|done].
        -- destruct (substArg_cases id value (Task.Arg2 t))
             as [[_ ->]|[_ ->]]; [apply Hfmt|done].
      * assert (t0 = t) as -> by congruence.
        split.
        -- destruct (Hslot k t (Task.Arg1 t) Hkt) as [?|(_ & ? & Hin & ?)];
             [by left|done|].
           by destruct (Hall _ Hin).
        -- destruct (Hslot k t (Task.Arg2 t) Hkt) as [?|(_ & ? & Hin & ?)];
             [by right|done|].
           by destruct (Hall _ Hin).
Qed.

Lemma run_argsInv (ot : OperationTimes) (evs : list (event F)) (s : Service F) :
  (∀ v, isNumber (Sprintf_f v) = true) →
  run (NewService (F:=F) ot) evs s → argsInv s.
Proof.
  intros Hfmt. induction 1 as [|evs s ev s' Hrun IH Hstep].
  - split.
    + intros k t a H. simpl in H. by rewrite lookup_empty in H.
    + intros k t Hk. by apply not_elem_of_empty in Hk.
  - eapply argsInv_step; [done| |done..]. by eapply run_wf.
Qed.

Lemma numericArgs_noTaskReference (t : Task.t F) :
  (∀ n, isNumber (taskName n) = false) →
  numericArgs t → noTaskReference t.
Proof.
  intros Htask [H1 H2] n. split; intros Heq.
  - rewrite Heq, Htask in H1. done.
  - rewrite Heq, Htask in H2. done.
Qed.

(** C10. When [fmt.Sprintf("%f", v)] always parses as a number and no
    task id does, then in every state of every execution both operand
    slots of each task of the ready set hold strings that parse as
    numbers, and so do the slots of each task returned by [GetTask];
    none of these slots holds a task id. *)
Theorem ready_tasks_have_numeric_operands (ot : OperationTimes)
    (evs : list (event F)) (s : Service F) :
  (∀ v, isNumber (Sprintf_f v) = true) →
  (∀ n, isNumber (taskName n) = false) →
  run (NewService (F:=F) ot) evs s →
  (∀ k t, k ∈ readyTasks s → tasks s !! k = Some t →
          numericArgs t ∧ noTaskReference t)
  ∧ (∀ task, Pulled (Some task) ∈ evs →
             numericArgs task ∧ noTaskReference task).
Proof.
  intros Hfmt Htask Hrun. split.
  - intros k t Hk Hkt.
    destruct (run_argsInv ot evs s Hfmt Hrun) as [_ Hready].
    pose proof (Hready k t Hk Hkt).
    split; [done|]. by apply numericArgs_noTaskReference.
  - induction Hrun as [|evs s ev s' Hrun IH Hstep].
    { intros task Hin. by apply elem_of_nil in Hin. }
    intros task [Hin|Hev%list_elem_of_singleton]%elem_of_app; [by apply IH|].
    subst ev.
    pose proof (run_wf _ _ _ Hrun) as Hwf.
    destruct (run_argsInv ot evs s Hfmt Hrun) as [_ Hready].
    inversion Hstep as [| s0 first r s1 Hfirst Hget |]; subst.
    destruct (GetTask_spec first s Hwf Hfirst)
      as (r' & s2 & Hget' & _ & _ & _ & _ & _ & Hcase).
    assert (r' = Some task) as -> by congruence.
    destruct first as [k|]; [|by destruct Hcase as [? _]].
    destruct Hcase as (Hk & _ & t & Hkt & [= ->] & _).
    assert (numericArgs (Task.setStatus "processing" t))
      by apply (Hready k t Hk Hkt).
    split; [done|]. by apply numericArgs_noTaskReference.
Qed.

(** *** The status of expressions *)

Lemma sameTasksOf_allDone (e : string) (s s' : Service F) :
  sameTasksOf e s s' → allDone s e → allDone s' e.
Proof.
  intros [_ H] Hdone k t' Hk He.
  destruct (H k t' Hk He) as (t & Hkt & Het & -> & _). by eapply Hdone.
Qed.

Lemma sameTasksOf_isRoot (e : string) (s s' : Service F) (k : string)
    (t : Task.t F) :
  sameTasksOf e s s' → isRoot s e k t →
  ∃ t', isRoot s' e k t' ∧ Task.Result t' = Task.Result t.
Proof.
  intros [H _] (Hk & He & Hd).
  destruct (H k t Hk He) as (t' & Hkt' & He' & Hr & Hd').
  exists t'. split; [|done]. split; [done|]. split; [done|]. congruence.
Qed.

Lemma sameTasksOf_isRoot_rev (e : string) (s s' : Service F) (k : string)
    (t' : Task.t F) :
  sameTasksOf e s s' → isRoot s' e k t' → ∃ t, isRoot s e k t.
Proof.
  intros [_ H] (Hk & He & Hd).
  destruct (H k t' Hk He) as (t & Hkt & Het & Hr & Hd').
  exists t. split; [done|]. split; [done|]. congruence.
Qed.

Lemma submitSpec_sameTasksOf (s : Service F) (id expression : string)
    (ok : bool) (s' : Service F) (e : string) :
  wf s → submitSpec s id expression ok s' → e ≠ id → sameTasksOf e s s'.
Proof.
  intros Hwf Hspec Hne. split.
  - intros k t Hk He. exists t.
    split; [by apply (ss_old _ _ _ _ _ Hspec)|]. split; [done|].
    split; [done|]. apply (ss_old_dependents _ _ _ _ _ Hspec). eauto.
  - intros k t' Hk He.
    destruct (tasks s !! k) as [t|] eqn:E.
    + pose proof (ss_old _ _ _ _ _ Hspec k t E).
      assert (t' = t) as -> by congruence.
      exists t. split; [done|]. split; [done|]. split; [done|].
      apply (ss_old_dependents _ _ _ _ _ Hspec). eauto.
    + destruct (ss_new _ _ _ _ _ Hspec k t' Hk E) as (? & _). congruence.
Qed.

Lemma recordSpec_sameTasksOf (s : Service F) (id : string) (result : F)
    (task : Task.t F) (s' : Service F) (e : string) :
  tasks s !! id = Some task → recordSpec s id result task s' →
  e ≠ Task.ExpressionID task → sameTasksOf e s s'.
Proof.
  intros Hid Hspec Hne.
  assert (Hd : ∀ d, dependents s' d = dependents s d).
  { intros d. unfold dependents. by rewrite (rs_rev _ _ _ _ _ Hspec). }
  assert (Hres : ∀ k t, tasks s !! k = Some t → Task.ExpressionID t = e →
            Task.Result (recordedTask s id result k t) = Task.Result t).
  { intros k t Hk He.
    destruct (recordedTask_fields s id result k t) as (_ & _ & _ & -> & _).
    case_decide; [|done]. subst k. congruence. }
  split.
  - intros k t Hk He. exists (recordedTask s id result k t).
    rewrite (rs_tasks _ _ _ _ _ Hspec), Hk. split; [done|].
    destruct (recordedTask_fields s id result k t) as (_ & -> & _).
    auto.
  - intros k t'. rewrite (rs_tasks _ _ _ _ _ Hspec).
    destruct (tasks s !! k) as [t|] eqn:E; [|done]. intros [= <-].
    destruct (recordedTask_fields s id result k t) as (_ & -> & _).
    intros He. exists t. auto.
Qed.

(** The graph of tasks after [SetTaskResult]: the same tasks with the
    same expressions and dependents; results are only added. *)
Lemma recordSpec_graph (s : Service F) (id : string) (result : F)
    (task : Task.t F) (s' : Service F) :
  recordSpec s id result task s' →
  (∀ e, allDone s e → allDone s' e)
  ∧ (∀ e k t, isRoot s e k t → ∃ t', isRoot s' e k t')
  ∧ (∀ e k t', isRoot s' e k t' → ∃ t, isRoot s e k t).
Proof.
  intros Hspec.
  assert (Hd : ∀ d, dependents s' d = dependents s d).
  { intros d. unfold dependents. by rewrite (rs_rev _ _ _ _ _ Hspec). }
  split; [|split].
  - intros e Hdone k t'. rewrite (rs_tasks _ _ _ _ _ Hspec).
    destruct (tasks s !! k) as [t|] eqn:E; [|done]. intros [= <-].
    destruct (recordedTask_fields s id result k t)
      as (_ & -> & _ & -> & _).
    intros He. case_decide; [eauto|]. by eapply Hdone.
  - intros e k t (Hk & He & Hdep). exists (recordedTask s id result k t).
    split; [by rewrite (rs_tasks _ _ _ _ _ Hspec), Hk|].
    destruct (recordedTask_fields s id result k t) as (_ & -> & _).
    split; [done|]. by rewrite Hd.
  - intros e k t' (Hk & He & Hdep). rewrite (rs_tasks _ _ _ _ _ Hspec) in Hk.
    destruct (tasks s !! k) as [t|] eqn:E; [|done]. injection Hk as <-.
    destruct (recordedTask_fields s id result k t) as (_ & Hexp & _).
    exists t. split; [done|]. split; [congruence|]. by rewrite <- Hd.
Qed.

Lemma statusInv_step (evs : list (event F)) (s : Service F) (ev : event F)
    (s' : Service F) :
  wf s → statusInv evs s → step s ev s' → statusInv (evs ++ [ev]) s'.
Proof.
  intros Hwf [Hres Hcompl Hsub Huniq] Hstep.
  revert Hwf Hres Hcompl Hsub Huniq.
  destruct Hstep as [s id expression s' r Hid Hsubmit
                    |s first r s' Hfirst Hget
                    |s order id value s' err Hperm Hset];
    intros Hwf Hres Hcompl Hsub Huniq.
  - (* SubmitExpression *)
    destruct (SubmitExpression_spec _ _ _ _ _ Hwf Hid Hsubmit)
      as [Hspec Hr].
    pose proof (ss_expressions _ _ _ _ _ Hspec) as Hexprs.
    assert (Hsame : ∀ e, e ≠ id → sameTasksOf e s s')
      by (intros e; by apply (submitSpec_sameTasksOf s id
                                (removeSpaces expression) (isOk r))).
    split.
    + intros e x. rewrite Hexprs.
      intros [[<- <-]|[Hne Hx]]%lookup_insert_Some; [by intros [? ?]|].
      by apply (Hres e).
    + intros e x. rewrite Hexprs.
      intros [[<- <-]|[Hne Hx]]%lookup_insert_Some; [by destruct (isOk r)|].
      intros Hst. destruct (Hcompl e x Hx Hst) as (Hdone & k & t & Hroot & H).
      split; [eapply sameTasksOf_allDone; [apply Hsame|]; done|].
      destruct (sameTasksOf_isRoot e s s' k t) as (t' & Hroot' & Heq);
        [by apply Hsame|done|].
      exists k, t'. rewrite Heq. done.
    + intros e expression' r' [Hin|Hev%list_elem_of_singleton]%elem_of_app.
      * destruct (Hsub e expression' r' Hin) as [x Hx]. rewrite Hexprs.
        destruct (decide (id = e)) as [<-|Hne]; [congruence|].
        rewrite lookup_insert_ne by done. eauto.
      * injection Hev as -> _ _. rewrite Hexprs, lookup_insert_eq. eauto.
    + intros e expression' [Hin|Hev%list_elem_of_singleton]%elem_of_app
             k k' t t' Hroot Hroot'.
      * destruct (Hsub e expression' _ Hin) as [x Hx].
        assert (e ≠ id) as Hne by congruence.
        destruct (sameTasksOf_isRoot_rev e s s' k t (Hsame e Hne) Hroot).
        destruct (sameTasksOf_isRoot_rev e s s' k' t' (Hsame e Hne) Hroot').
        by eapply (Huniq e).
      * injection Hev as -> _ <-.
        assert (Hnew : ∀ k t, isRoot s' id k t → tasks s !! k = None).
        { intros k0 t0 (Hk0 & He0 & _).
          destruct (tasks s !! k0) as [t1|] eqn:E; [|done].
          pose proof (ss_old _ _ _ _ _ Hspec k0 t1 E).
          assert (t0 = t1) as -> by congruence.
          apply (wf_expr s Hwf) in E as [x Hx]. congruence. }
        apply (ss_root _ _ _ _ _ Hspec eq_refl k k');
          try (by eapply Hnew).
        -- destruct Hroot as [? _]. eauto.
        -- destruct Hroot' as [? _]. eauto.
        -- by destruct Hroot as (_ & _ & ?).
        -- by destruct Hroot' as (_ & _ & ?).
  - (* GetTask *)
    destruct (GetTask_spec first s Hwf Hfirst)
      as (r' & s2 & Hget' & _ & He & _ & Hv & _ & Hcase).
    assert (s2 = s') as -> by congruence.
    assert (Hsame : ∀ e, sameTasksOf e s s').
    { intros e.
      assert (Hd : ∀ d, dependents s' d = dependents s d).
      { intros d. unfold dependents. by rewrite Hv. }
      destruct first as [k0|].
      2:{ destruct Hcase as (_ & -> & _). split; intros k t Hk Hke; eauto. }
      destruct Hcase as (_ & _ & t0 & Hk0 & _ & Ht). split.
      - intros k t Hk Hke. rewrite Ht.
        destruct (decide (k0 = k)) as [<-|Hne];
          [|rewrite lookup_insert_ne by done; eauto].
        rewrite lookup_insert_eq. assert (t = t0) as -> by congruence.
        eexists. split; [done|]. auto.
      - intros k t'. rewrite Ht.
        intros [[<- <-]|[Hne Hk]]%lookup_insert_Some Hke;
          [exists t0; auto|eauto]. }
    split.
    + intros e x. rewrite He. apply Hres.
    + intros e x. rewrite He. intros Hx Hst.
      destruct (Hcompl e x Hx Hst) as (Hdone & k & t & Hroot & H).
      split; [by eapply sameTasksOf_allDone|].
      destruct (sameTasksOf_isRoot e s s' k t (Hsame e) Hroot)
        as (t' & Hroot' & Heq).
      exists k, t'. rewrite Heq. done.
    + intros e expression' r0 [Hin|Hev%list_elem_of_singleton]%elem_of_app;
        [|done]. rewrite He. by eapply Hsub.
    + intros e expression' [Hin|Hev%list_elem_of_singleton]%elem_of_app
             k k' t t' Hroot Hroot'; [|done].
      destruct (sameTasksOf_isRoot_rev e s s' k t (Hsame e) Hroot).
      destruct (sameTasksOf_isRoot_rev e s s' k' t' (Hsame e) Hroot').
      by eapply (Huniq e).
  - (* SetTaskResult *)
    destruct (tasks s !! id) as [task|] eqn:E.
    2:{ rewrite SetTaskResult_not_found in Hset by done.
        injection Hset as <- <-.
        split; try done.
        - intros e expression' r0
            [Hin|Hev%list_elem_of_singleton]%elem_of_app; [|done].
          by eapply Hsub.
        - intros e expression'
            [Hin|Hev%list_elem_of_singleton]%elem_of_app; [|done].
          by eapply Huniq. }
    destruct (SetTaskResult_spec order id value s task Hwf Hperm E)
      as (s2 & Hset' & Hspec).
    assert (s2 = s') as -> by congruence.
    destruct (recordSpec_graph _ _ _ _ _ Hspec) as (Hgdone & Hgroot & Hgrev).
    set (e0 := Task.ExpressionID task) in *.
    assert (Hother : ∀ e, e ≠ e0 →
              expressions s' !! e = expressions s !! e).
    { intros e Hne.
      destruct (rs_expressions _ _ _ _ _ Hspec)
        as [[-> _]|(_ & k & t & x & _ & _ & _ & ->)]; [done|].
      by rewrite lookup_insert_ne. }
    split.
    + intros e x. destruct (decide (e = e0)) as [->|Hne].
      * destruct (rs_expressions _ _ _ _ _ Hspec)
          as [[-> _]|(_ & k & t & x0 & _ & _ & _ & ->)]; [apply Hres|].
        rewrite lookup_insert_eq. by intros [= <-].
      * rewrite Hother by done. apply Hres.
    + intros e x. destruct (decide (e = e0)) as [->|Hne].
      * destruct (rs_expressions _ _ _ _ _ Hspec)
          as [[-> Hnot]|(Hdone & k & t & x0 & Hroot & Hsome & _ & ->)].
        -- intros Hx Hst. exfalso. apply Hnot.
           destruct (Hcompl e0 x Hx Hst) as (Hdone & k & t & Hroot & _).
           split; [by apply Hgdone|]. exists k.
           by apply (Hgroot e0 k t).
        -- rewrite lookup_insert_eq. intros [= <-] _.
           split; [done|]. by exists k, t.
      * rewrite Hother by done. intros Hx Hst.
        destruct (Hcompl e x Hx Hst) as (Hdone & k & t & Hroot & H).
        pose proof (recordSpec_sameTasksOf s id value task s' e E Hspec Hne)
          as Hsame.
        split; [by eapply sameTasksOf_allDone|].
        destruct (sameTasksOf_isRoot e s s' k t Hsame Hroot)
          as (t' & Hroot' & Heq).
        exists k, t'. rewrite Heq. done.
    + intros e expression' r0 [Hin|Hev%list_elem_of_singleton]%elem_of_app;
        [|done].
      destruct (Hsub e expression' r0 Hin) as [x Hx].
      destruct (decide (e = e0)) as [->|Hne].
      * destruct (rs_expressions _ _ _ _ _ Hspec)
          as [[-> _]|(_ & k & t & x0 & _ & _ & _ & ->)]; [eauto|].
        rewrite lookup_insert_eq. eauto.
      * rewrite Hother by done. eauto.
    + intros e expression' [Hin|Hev%list_elem_of_singleton]%elem_of_app
             k k' t t' Hroot Hroot'; [|done].
      destruct (Hgrev e k t Hroot). destruct (Hgrev e k' t' Hroot').
      by eapply (Huniq e).
Qed.

Lemma run_statusInv (ot : OperationTimes) (evs : list (event F)) (s : Service F) :
  run (NewService (F:=F) ot) evs s → statusInv evs s.
Proof.
  induction 1 as [|evs s ev s' Hrun IH Hstep].
  - split.
    + intros id e H. simpl in H. by rewrite lookup_empty in H.
    + intros id e H. simpl in H. by rewrite lookup_empty in H.
    + intros id expression r H. by apply elem_of_nil in H.
    + intros id expression H. by apply elem_of_nil in H.
  - eapply statusInv_step; [|done..]. by eapply run_wf.
Qed.

(** C3 (amended). After every execution, an expression is completed
    exactly when each of its tasks has a result and the result of a root
    task of the expression is in its result field. The root is unique
    when the submission of the expression succeeded. *)
Theorem completed_iff_all_done_and_root_copied (ot : OperationTimes)
    (evs : list (event F)) (s : Service F) (id : string)
    (e : ExpressionData.t F) :
  run (NewService (F:=F) ot) evs s →
  expressions s !! id = Some e →
  (ExpressionData.Status e = Completed ↔
   allDone s id
   ∧ ∃ k t, isRoot s id k t ∧ is_Some (Task.Result t)
            ∧ ExpressionData.Result e = Task.Result t)
  ∧ (∀ expression, Submitted id expression (Ok id) ∈ evs →
     ∀ k k' t t', isRoot s id k t → isRoot s id k' t' → k = k').
Proof.
  intros Hrun He.
  destruct (run_statusInv ot evs s Hrun) as [Hres Hcompl _ Huniq].
  split; [split|].
  - by apply Hcompl.
  - intros (_ & k & t & _ & Hsome & Heq). apply (Hres id e He).
    by rewrite Heq.
  - apply Huniq.
Qed.

(** ** Scenario 2: the expression [2+2*2] *)

Lemma scenario_tokens :
  tokenize "2+2*2"
  = Ok (exprTokens (EBin (ETerm (TFactor (FNum "2"))) OpAdd
                      (TBin (TFactor (FNum "2")) OpMul (FNum "2")))).
Proof. reflexivity. Qed.

Lemma scenario_build (id : string) (ot : OperationTimes) :
  buildTasks id ["2"; "2"; "2"; "*"; "+"] []
    (setExpressions
       (<[id := ExpressionData.mk id "2+2*2" Pending None]>
          (expressions (NewService (F:=F) ot))) (NewService (F:=F) ot))
  = (builtStore (F:=F) id ot Pending ∅, Ok ["task_2"]).
Proof. vm_compute. reflexivity. Qed.

Lemma scenario_markReady (id : string) (ot : OperationTimes) :
  markReady id (builtStore (F:=F) id ot Pending ∅)
  = builtStore (F:=F) id ot Pending {["task_1"]}.
Proof.
  change (builtStore (F:=F) id ot Pending {["task_1"]})
    with (setReadyTasks {["task_1"]} (builtStore (F:=F) id ot Pending ∅)).
  unfold markReady, markReadyIn. f_equal.
  apply set_eq. intros k.
  rewrite (elem_of_foldl_markReadyStep id (builtStore (F:=F) id ot Pending ∅)).
  setoid_rewrite elem_of_map_to_list.
  rewrite elem_of_singleton. split.
  - intros [Hk|(t & Hk & _ & H1 & H2)];
      [by apply not_elem_of_empty in Hk|].
    cbn [tasks builtStore] in Hk.
    apply lookup_insert_Some in Hk as [[<- <-]|[_ Hk]]; [done|].
    by apply lookup_insert_Some in Hk as [[<- _]|[_ Hk]].
  - intros ->. right. exists (mulTask (F:=F) id ot). done.
Qed.

Lemma scenario_submit (id : string) (ot : OperationTimes) :
  isNumber "2" = true → symbolsNotNumbers →
  SubmitExpression id "2+2*2" (NewService (F:=F) ot)
  = (builtStore (F:=F) id ot InProcess {["task_1"]}, Ok id).
Proof.
  intros H2 Hsym. unfold SubmitExpression, parseExpression.
  change (removeSpaces "2+2*2") with "2+2*2".
  rewrite scenario_tokens.
  rewrite shuntingYard_exprTokens by (done || (repeat constructor; done)).
  unfold createTasksFromPostfix.
  change (exprPostfix _) with ["2"; "2"; "2"; "*"; "+"].
  rewrite scenario_build. cbn [length Nat.eqb negb].
  rewrite scenario_markReady.
  unfold builtStore, setExpressions. cbn [expressions tasks taskQueue
    completedTasks readyTasks opTimes taskIDCounter dependencyGraph
    reverseDependencies].
  by rewrite alter_insert_eq.
Qed.

Lemma scenario_tasks_lookup (id : string) (ot : OperationTimes)
    (st : ExpressionStatus) (ready : gset string) (k : string)
    (t : Task.t F) :
  tasks (builtStore (F:=F) id ot st ready) !! k = Some t →
  (k = "task_1" ∧ t = mulTask (F:=F) id ot)
  ∨ (k = "task_2" ∧ t = addTask (F:=F) id ot "task_1").
Proof.
  cbn [tasks builtStore].
  intros [[<- <-]|[_ Hk]]%lookup_insert_Some; [by right|].
  apply lookup_insert_Some in Hk as [[<- <-]|[_ Hk]]; [by left|done].
Qed.

(** C5. Submitting [2+2*2] makes exactly two tasks: the multiplication
    of 2 by 2, ready at once, and the addition, which depends on it.
    After a result [v1] (4 in the scenario) is recorded for the
    multiplication, the addition is ready with the operands ["2"] and
    [Sprintf_f v1]; after a result [v2] (6 in the scenario) is recorded
    for the addition, the expression is completed with the result
    [v2]. *)
Theorem scenario_two_plus_two_times_two (id : string) (ot : OperationTimes)
    (v1 v2 : F) :
  isNumber "2" = true → symbolsNotNumbers →
  ∃ s1,
    SubmitExpression id "2+2*2" (NewService (F:=F) ot) = (s1, Ok id)
    ∧ tasks s1
      = <["task_2" := addTask (F:=F) id ot "task_1"]>
          (<["task_1" := mulTask (F:=F) id ot]> ∅)
    ∧ readyTasks s1 = {["task_1"]}
    ∧ ∀ order1, order1 ≡ₚ elements (dom (tasks s1)) →
      ∃ s2,
        SetTaskResult order1 "task_1" v1 s1 = Some (s2, None)
        ∧ "task_2" ∈ readyTasks s2
        ∧ tasks s2 !! "task_2" = Some (addTask (F:=F) id ot (Sprintf_f v1))
        ∧ ∀ order2, order2 ≡ₚ elements (dom (tasks s2)) →
          ∃ s3,
            SetTaskResult order2 "task_2" v2 s2 = Some (s3, None)
            ∧ expressions s3 !! id
              = Some (ExpressionData.mk id "2+2*2" Completed (Some v2)).
Proof.
  intros H2 Hsym.
  pose proof (scenario_submit id ot H2 Hsym) as Hsub.
  set (s1 := builtStore (F:=F) id ot InProcess {["task_1"]}) in *.
  exists s1. split; [done|]. split; [done|]. split; [done|].
  assert (Hwf1 : wf s1).
  { destruct (SubmitExpression_spec (NewService (F:=F) ot) id "2+2*2" s1 (Ok id))
      as [[] _]; [apply wf_NewService|done..]. }
  assert (Hmul : tasks s1 !! "task_1" = Some (mulTask (F:=F) id ot)) by done.
  assert (Hadd : tasks s1 !! "task_2" = Some (addTask (F:=F) id ot "task_1"))
    by done.
  intros order1 Hperm1.
  destruct (SetTaskResult_spec order1 "task_1" v1 s1 _ Hwf1 Hperm1 Hmul)
    as (s2 & Hset1 & Hspec1).
  exists s2. split; [done|].
  assert (Hadd2 : tasks s2 !! "task_2" = Some (addTask (F:=F) id ot (Sprintf_f v1))).
  { rewrite (rs_tasks _ _ _ _ _ Hspec1), Hadd. done. }
  assert (Hmul2 : tasks s2 !! "task_1"
                  = Some (Task.setResult (Some v1) (mulTask (F:=F) id ot))).
  { rewrite (rs_tasks _ _ _ _ _ Hspec1), Hmul. done. }
  assert (Hkeys2 : ∀ k t, tasks s2 !! k = Some t →
            k = "task_1" ∨ k = "task_2").
  { intros k t. rewrite (rs_tasks _ _ _ _ _ Hspec1).
    destruct (tasks s1 !! k) as [t0|] eqn:E; [|done]. intros _.
    destruct (scenario_tasks_lookup _ _ _ _ _ _ E) as [[? _]|[? _]]; auto. }
  assert (Hexpr2 : expressions s2 !! id
                   = Some (ExpressionData.mk id "2+2*2" InProcess None)).
  { destruct (rs_expressions _ _ _ _ _ Hspec1)
      as [[-> _]|(Hdone & _)].
    - subst s1. cbn [expressions builtStore]. by rewrite lookup_insert_eq.
    - destruct (Hdone "task_2" _ Hadd2 eq_refl) as [? ?]. done. }
  split.
  { apply (rs_ready _ _ _ _ _ Hspec1). right. split.
    - apply list_elem_of_singleton. done.
    - eexists. split; [done|]. intros d ->%list_elem_of_singleton.
      by left. }
  split; [done|].
  intros order2 Hperm2.
  pose proof (rs_wf _ _ _ _ _ Hspec1) as Hwf2.
  destruct (SetTaskResult_spec order2 "task_2" v2 s2 _ Hwf2 Hperm2 Hadd2)
    as (s3 & Hset2 & Hspec2).
  exists s3. split; [done|].
  assert (Hd3 : ∀ d, dependents s3 d = dependents s1 d).
  { intros d. unfold dependents.
    by rewrite (rs_rev _ _ _ _ _ Hspec2), (rs_rev _ _ _ _ _ Hspec1). }
  assert (Hd2 : ∀ d, dependents s2 d = dependents s1 d).
  { intros d. unfold dependents. by rewrite (rs_rev _ _ _ _ _ Hspec1). }
  assert (Hadd3 : ∃ t, tasks s3 !! "task_2" = Some t
                       ∧ Task.ExpressionID t = id
                       ∧ Task.Result t = Some v2).
  { eexists. rewrite (rs_tasks _ _ _ _ _ Hspec2), Hadd2.
    split; [done|].
    destruct (recordedTask_fields s2 "task_2" v2 "task_2"
                (addTask (F:=F) id ot (Sprintf_f v1))) as (_ & -> & _ & -> & _).
    done. }
  assert (Hmul3 : ∃ t, tasks s3 !! "task_1" = Some t
                       ∧ Task.Result t = Some v1).
  { eexists. rewrite (rs_tasks _ _ _ _ _ Hspec2), Hmul2.
    split; [done|].
    destruct (recordedTask_fields s2 "task_2" v2 "task_1"
                (Task.setResult (Some v1) (mulTask (F:=F) id ot)))
      as (_ & _ & _ & -> & _).
    done. }
  assert (Hkeys3 : ∀ k t, tasks s3 !! k = Some t →
            k = "task_1" ∨ k = "task_2").
  { intros k t. rewrite (rs_tasks _ _ _ _ _ Hspec2).
    destruct (tasks s2 !! k) as [t0|] eqn:E; [|done]. intros _.
    by eapply Hkeys2. }
  destruct Hadd3 as (t3 & Hk3 & He3 & Hr3).
  destruct Hmul3 as (t3' & Hk3' & Hr3').
  destruct (rs_expressions _ _ _ _ _ Hspec2)
    as [[_ Hnot]|(_ & k & t & expr & Hroot & _ & Hexpr & ->)].
  - exfalso. apply Hnot. split.
    + intros k t Hk _.
      destruct (Hkeys3 k t Hk) as [-> | ->].
      * assert (t = t3') as -> by congruence. rewrite Hr3'. eauto.
      * assert (t = t3) as -> by congruence. rewrite Hr3. eauto.
    + exists "task_2", t3. split; [done|]. split; [done|].
      by rewrite Hd3.
  - rewrite lookup_insert_eq.
    change (expressions s2 !! id = Some expr) in Hexpr.
    assert (expr = ExpressionData.mk id "2+2*2" InProcess None) as ->
      by congruence.
    destruct Hroot as (Hk & _ & Hdep). rewrite Hd3 in Hdep.
    destruct (Hkeys3 k t Hk) as [-> | ->]; [done|].
    assert (t = t3) as -> by congruence. by rewrite Hr3.
Qed.

(** ** A build that fails *)

Lemma buildTasks_keeps (exprID : string) (postfix : list string) :
  ∀ (stack : list string) (s s' : Service F) r,
    buildTasks exprID postfix stack s = (s', r) →
    ∀ k, is_Some (tasks s !! k) → is_Some (tasks s' !! k).
Proof.
  induction postfix as [|token rest IH]; intros stack s s' r; simpl.
  - by intros [= <- <-].
  - destruct (isOperator token); [|apply IH].
    destruct stack as [|arg2 [|arg1 below]]; try by intros [= <- <-].
    destruct (createTask_state exprID arg1 arg2 token s)
      as (_ & Ht & _).
    destruct (createTask exprID arg1 arg2 token s) as [taskID s1].
    simpl in *. intros Hb k Hk. apply (IH _ _ _ _ Hb). rewrite Ht.
    destruct (decide (taskName (S (taskIDCounter s)) = k)) as [<-|Hne].
    + rewrite lookup_insert_eq. eauto.
    + by rewrite lookup_insert_ne.
Qed.

(** What the first loop of the build never touches, and what it
    leaves behind. *)
Lemma buildTasks_frame (exprID : string) (postfix : list string) :
  ∀ (stack : list string) (s s' : Service F) r,
    buildTasks exprID postfix stack s = (s', r) →
    expressions s' = expressions s
    ∧ completedTasks s' = completedTasks s
    ∧ readyTasks s' = readyTasks s
    ∧ (taskIDCounter s ≤ taskIDCounter s')%nat
    ∧ (taskIDCounter s' = taskIDCounter s → s' = s)
    ∧ (∀ n, (taskIDCounter s < n ≤ taskIDCounter s')%nat →
            is_Some (tasks s' !! taskName n)).
Proof.
  induction postfix as [|token rest IH]; intros stack s s' r; simpl.
  - intros [= <- <-]. repeat split; try done. intros n. lia.
  - destruct (isOperator token).
    + destruct stack as [|arg2 [|arg1 below]];
        try (intros [= <- <-]; repeat split; try done; intros n; lia).
      destruct (createTask_state exprID arg1 arg2 token s)
        as (He & Ht & Hc & Hr & Hn & _ & _).
      pose proof (createTask_id exprID arg1 arg2 token s) as Hid.
      destruct (createTask exprID arg1 arg2 token s) as [taskID s1].
      simpl in *. intros Hb.
      destruct (IH _ _ _ _ Hb) as (He' & Hc' & Hr' & Hn' & _ & Hin').
      rewrite He', Hc', Hr', He, Hc, Hr. repeat split; try done; try lia.
      intros n Hn0.
      destruct (decide (n = S (taskIDCounter s))) as [->|Hne];
        [|apply Hin'; lia].
      destruct (buildTasks_keeps exprID rest _ _ _ _ Hb
                  (taskName (S (taskIDCounter s)))) as [t Hk]; [|eauto].
      rewrite Ht, lookup_insert_eq. eauto.
    + apply IH.
Qed.

(** ** The guard of [SetTaskResult] *)

(** C6 (amended). In every state of every execution [SetTaskResult]
    returns: it succeeds exactly when the task id is in the task map,
    whether or not that task has been returned by [GetTask]; otherwise
    it reports "task not found" and leaves the state as it was. *)
Theorem record_succeeds_iff_task_exists (ot : OperationTimes)
    (evs : list (event F)) (s : Service F) (order : list string) (id : string)
    (value : F) :
  run (NewService (F:=F) ot) evs s →
  order ≡ₚ elements (dom (tasks s)) →
  ∃ s' err,
    SetTaskResult order id value s = Some (s', err)
    ∧ (err = None ↔ is_Some (tasks s !! id))
    ∧ (err ≠ None → err = Some ("task not found: " +:+ id) ∧ s' = s).
Proof.
  intros Hrun Hperm. pose proof (run_wf _ _ _ Hrun) as Hwf.
  destruct (tasks s !! id) as [task|] eqn:E.
  - destruct (SetTaskResult_spec order id value s task Hwf Hperm E)
      as (s' & Hset & _).
    exists s', None. split; [done|]. split; [|done]. split; eauto.
  - exists s, (Some ("task not found: " +:+ id)).
    split; [by apply SetTaskResult_not_found|].
    split; [|done]. split; [done|]. by intros [? ?].
Qed.

(** ** The empty expression *)

(** C7. A request whose expression is empty is rejected by the
    validation of [CalculateExpression] with status 422, before
    [SubmitExpression] is called: the store is unchanged. *)
Theorem CalculateExpression_empty (id : string) (s : Service F) :
  ∃ err,
    CalculateExpression id (Some "") s
    = (s, (StatusUnprocessableEntity, err)).
Proof. by eexists. Qed.

(** [SubmitExpression] itself does not validate: called with the empty
    string it records a failed expression. *)
Lemma SubmitExpression_empty (id : string) (s : Service F) :
  SubmitExpression id "" s
  = (setExpressions
       (alter (ExpressionData.setStatus Failed) id
          (<[id := ExpressionData.mk id "" Pending None]> (expressions s)))
       s,
     Err "invalid expression: too many values left on stack").
Proof. reflexivity. Qed.

(** ** Further properties of the tokenizer *)

Lemma append_cons (c : ascii) (a b : string) :
  String c a +:+ b = String c (a +:+ b).
Proof. reflexivity. Qed.

Lemma append_assoc (a b c : string) : (a +:+ b) +:+ c = a +:+ (b +:+ c).
Proof.
  induction a as [|x a IH]; [done|]. rewrite !append_cons. by f_equal.
Qed.

Lemma append_empty_r (a : string) : a +:+ "" = a.
Proof.
  induction a as [|c a IH]; [done|]. rewrite append_cons. by f_equal.
Qed.

Lemma concatTokens_cons (x : string) (a : list string) :
  concatTokens (x :: a) = x +:+ concatTokens a.
Proof. reflexivity. Qed.

Lemma concatTokens_app (a b : list string) :
  concatTokens (a ++ b) = concatTokens a +:+ concatTokens b.
Proof.
  induction a as [|x a IH]; [done|].
  rewrite <- app_comm_cons, !concatTokens_cons, IH.
  by rewrite append_assoc.
Qed.

Lemma concatTokens_flushNumber (tokens : list string) (cur : string) :
  concatTokens (flushNumber tokens cur) = concatTokens tokens +:+ cur.
Proof.
  unfold flushNumber. destruct (cur =? "") eqn:E.
  - apply String.eqb_eq in E as ->. by rewrite append_empty_r.
  - rewrite concatTokens_app. unfold concatTokens at 2. simpl.
    by rewrite append_empty_r.
Qed.

Lemma tokenizeFrom_concat (expression : string) :
  ∀ (tokens : list string) (cur : string) (out : list string),
    tokenizeFrom expression tokens cur = Ok out →
    concatTokens out = concatTokens tokens +:+ cur +:+ expression.
Proof.
  induction expression as [|b rest IH]; intros tokens cur out; simpl.
  - intros [= <-]. by rewrite concatTokens_flushNumber, append_empty_r.
  - rewrite isDigitOrDot_byte, isOperator_byte, isParen_byte.
    destruct (isDigitByte b || isDotByte b) eqn:Ed.
    { rewrite byteToString_allowed by (unfold allowedByte; by rewrite Ed).
      intros H. rewrite (IH _ _ _ H).
      by rewrite !append_assoc. }
    assert (Hsym : isOperatorByte b || isParenByte b = true →
              tokenizeFrom rest (flushNumber tokens cur ++ [byteToString b]) ""
              = Ok out →
              concatTokens out = concatTokens tokens +:+ cur +:+ String b rest).
    { intros Hb H.
      rewrite byteToString_allowed in H
        by (unfold allowedByte; rewrite Ed; simpl; done).
      rewrite (IH _ _ _ H), concatTokens_app, concatTokens_flushNumber.
      unfold concatTokens at 2. simpl.
      by rewrite !append_assoc. }
    destruct (isOperatorByte b) eqn:Eo; [by apply Hsym|].
    destruct (isParenByte b) eqn:Ep; [by apply Hsym|done].
Qed.

Lemma noAdjacentNumbers_snoc (tokens : list string) (token : string) :
  noAdjacentNumbers tokens = true →
  (isNumericToken token = true → endsWithSymbol tokens) →
  noAdjacentNumbers (tokens ++ [token]) = true.
Proof.
  unfold endsWithSymbol.
  induction tokens as [|a tokens IH]; intros Hn Hl; simpl; [done|].
  simpl in Hn. apply andb_prop in Hn as [Ha Hn].
  destruct tokens as [|b tokens]; simpl in *.
  - rewrite andb_true_r. destruct (isNumericToken token) eqn:E; [|by rewrite andb_false_r].
    by rewrite (Hl eq_refl).
  - rewrite Ha. simpl. apply IH; [done|].
    intros Ht. exact (Hl Ht).
Qed.

Lemma symbol_not_numeric (b : ascii) :
  isDigitByte b || isDotByte b = false →
  isNumericToken (String b EmptyString) = false.
Proof. intros H. unfold isNumericToken. simpl. by rewrite H. Qed.

Lemma endsWithSymbol_snoc (tokens : list string) (token : string) :
  isNumericToken token = false → endsWithSymbol (tokens ++ [token]).
Proof. intros H. unfold endsWithSymbol. by rewrite last_snoc. Qed.

Lemma tokenizeFrom_munch (expression : string) :
  ∀ (tokens : list string) (cur : string) (out : list string),
    noAdjacentNumbers tokens = true → endsWithSymbol tokens →
    tokenizeFrom expression tokens cur = Ok out →
    noAdjacentNumbers out = true.
Proof.
  induction expression as [|b rest IH]; intros tokens cur out Hn Hl; simpl.
  - intros [= <-]. unfold flushNumber. destruct (cur =? ""); [done|].
    by apply noAdjacentNumbers_snoc.
  - rewrite isDigitOrDot_byte, isOperator_byte, isParen_byte.
    destruct (isDigitByte b || isDotByte b) eqn:Ed; [by apply IH|].
    assert (Hsym : isOperatorByte b || isParenByte b = true →
              tokenizeFrom rest (flushNumber tokens cur ++ [byteToString b]) ""
              = Ok out →
              noAdjacentNumbers out = true).
    { intros Hb. rewrite byteToString_allowed
        by (unfold allowedByte; rewrite Ed; simpl; done).
      pose proof (symbol_not_numeric b Ed) as Hs.
      apply IH; [|by apply endsWithSymbol_snoc].
      apply noAdjacentNumbers_snoc; [|by rewrite Hs].
      unfold flushNumber. destruct (cur =? ""); [done|].
      by apply noAdjacentNumbers_snoc. }
    destruct (isOperatorByte b) eqn:Eo; [by apply Hsym|].
    destruct (isParenByte b) eqn:Ep; [by apply Hsym|done].
Qed.

(** X1. The tokens that [tokenize] makes are the input cut into pieces:
    put end to end they give the input back, and no two numeric tokens
    follow each other (a numeric token is a whole run of digits and
    points). *)
Theorem tokenize_cuts_input (expression : string) (tokens : list string) :
  tokenize expression = Ok tokens →
  concatTokens tokens = expression ∧ noAdjacentNumbers tokens = true.
Proof.
  intros H. split.
  - by rewrite (tokenizeFrom_concat _ _ _ _ H).
  - by apply (tokenizeFrom_munch _ [] "" _ eq_refl I H).
Qed.

Lemma tokenizeFrom_digits (digits : string) :
  ∀ (expression : string) (tokens : list string) (cur : string),
    allDigitsOrDots digits = true →
    tokenizeFrom (digits +:+ expression) tokens cur
    = tokenizeFrom expression tokens (cur +:+ digits).
Proof.
  induction digits as [|c digits IH]; intros expression tokens cur Hd.
  - by rewrite append_empty_r.
  - simpl in Hd. apply andb_prop in Hd as [Hc Hd].
    rewrite append_cons. simpl.
    rewrite isDigitOrDot_byte, Hc.
    rewrite byteToString_allowed by (unfold allowedByte; by rewrite Hc).
    rewrite IH by done. by rewrite append_assoc.
Qed.

Lemma symbol_token (token : string) :
  tokenShape token → isNumericToken token = false →
  ∃ c, token = String c EmptyString
       ∧ isDigitByte c || isDotByte c = false
       ∧ isOperatorByte c || isParenByte c = true.
Proof.
  intros [H|[H|[->| ->]]] Hn.
  - congruence.
  - apply isOperator_cases in H as [->|[->|[->| ->]]]; eexists; done.
  - by eexists.
  - by eexists.
Qed.

Lemma tokenizeFrom_symbol (c : ascii) (expression : string)
    (tokens : list string) (cur : string) :
  isDigitByte c || isDotByte c = false →
  isOperatorByte c || isParenByte c = true →
  tokenizeFrom (String c expression) tokens cur
  = tokenizeFrom expression
      (flushNumber tokens cur ++ [String c EmptyString]) "".
Proof.
  intros Hd Hs. simpl.
  rewrite isDigitOrDot_byte, isOperator_byte, isParen_byte, Hd.
  rewrite byteToString_allowed
    by (unfold allowedByte; rewrite Hd; simpl; done).
  destruct (isOperatorByte c); [done|]. simpl in Hs. by rewrite Hs.
Qed.

Lemma numeric_nonempty (token : string) :
  isNumericToken token = true → (token =? "") = false.
Proof.
  unfold isNumericToken. intros H. apply andb_prop in H as [H _].
  by apply negb_true_iff in H.
Qed.

Lemma tokenizeFrom_tokens (tokens : list string) :
  ∀ (acc : list string) (cur : string),
    Forall tokenShape tokens → noAdjacentNumbers tokens = true →
    ((cur =? "") = false → startsWithSymbol tokens) →
    tokenizeFrom (concatTokens tokens) acc cur
    = Ok (flushNumber acc cur ++ tokens).
Proof.
  induction tokens as [|token rest IH]; intros acc cur Hs Hn Hc.
  - by rewrite app_nil_r.
  - inversion_clear Hs as [|?? Htoken Hrest].
    simpl in Hn. apply andb_prop in Hn as [Hadj Hn].
    rewrite concatTokens_cons.
    destruct (isNumericToken token) eqn:Enum.
    + destruct (cur =? "") eqn:Ecur; [|by rewrite (Hc eq_refl) in Enum].
      apply String.eqb_eq in Ecur as ->.
      unfold isNumericToken in Enum. apply andb_prop in Enum as [Hne Hd].
      rewrite tokenizeFrom_digits by done.
      change ("" +:+ token) with token.
      rewrite IH; [| done..|].
      * unfold flushNumber. apply negb_true_iff in Hne. rewrite Hne. simpl.
        by rewrite <- app_assoc.
      * intros _. destruct rest as [|next rest']; [done|]. simpl.
        simpl in Hadj. by apply negb_true_iff in Hadj.
    + destruct (symbol_token token Htoken Enum) as (c & -> & Hd & Hsym).
      rewrite append_cons. change ("" +:+ concatTokens rest)
        with (concatTokens rest).
      rewrite tokenizeFrom_symbol by done.
      rewrite IH; [|done..].
      unfold flushNumber at 1. simpl. by rewrite <- app_assoc.
Qed.

(** X2. [tokenize] is the inverse of putting tokens end to end: a list
    of tokens (numeric tokens, operators, parentheses) in which no two
    numeric tokens follow each other is what [tokenize] makes of their
    concatenation. *)
Theorem tokenize_concatTokens (tokens : list string) :
  Forall tokenShape tokens → noAdjacentNumbers tokens = true →
  tokenize (concatTokens tokens) = Ok tokens.
Proof.
  intros Hs Hn. unfold tokenize.
  by rewrite tokenizeFrom_tokens.
Qed.
(** ** Further properties of the shunting-yard conversion *)

Lemma countOpen_cons (top : string) (below : list string) :
  countOpen (top :: below)
  = if top =? "(" then S (countOpen below) else countOpen below.
Proof. unfold countOpen. simpl. by destruct (top =? "("). Qed.

Lemma popHigher_countOpen (token : string) (operatorStack : list string) :
  ∀ output output' stack',
    popHigher token output operatorStack = (output', stack') →
    countOpen stack' = countOpen operatorStack.
Proof.
  induction operatorStack as [|top below IH]; intros out out' st'; simpl.
  - by intros [= _ <-].
  - destruct (top =? "(") eqn:E; simpl.
    + by intros [= _ <-].
    + destruct (hasHigherPrecedence top token).
      * intros H. rewrite (IH _ _ _ H), countOpen_cons. by rewrite E.
      * by intros [= _ <-].
Qed.

Lemma popToParen_countOpen (operatorStack : list string) :
  ∀ output output' stack',
    popToParen output operatorStack = (output', stack') →
    (stack' = [] ∧ countOpen operatorStack = 0%nat)
    ∨ (∃ below, stack' = "(" :: below
                ∧ countOpen operatorStack = S (countOpen below)).
Proof.
  induction operatorStack as [|top below IH]; intros out out' st'; simpl.
  - intros [= _ <-]. by left.
  - rewrite countOpen_cons. destruct (top =? "(") eqn:E; simpl.
    + intros [= _ <-]. right. exists below.
      by apply String.eqb_eq in E as ->.
    + apply IH.
Qed.

Lemma drainStack_countOpen (operatorStack : list string) :
  ∀ output,
    match countOpen operatorStack with
    | O => ∃ output', drainStack output operatorStack = Ok output'
    | S _ => drainStack output operatorStack = Err "mismatched parentheses"
    end.
Proof.
  induction operatorStack as [|top below IH]; intros out; simpl.
  - by eexists.
  - rewrite countOpen_cons. destruct (top =? "(") eqn:E; simpl; [done|].
    apply IH.
Qed.

Lemma isOperator_not_paren (token : string) :
  isOperator token = true → (token =? "(") = false ∧ (token =? ")") = false.
Proof. by intros [->|[->|[->| ->]]]%isOperator_cases. Qed.

Lemma shuntingYardFrom_balanced (tokens : list string) :
  symbolsNotNumbers →
  ∀ output operatorStack,
    if balancedFrom tokens (countOpen operatorStack)
    then ∃ output', shuntingYardFrom tokens output operatorStack = Ok output'
    else shuntingYardFrom tokens output operatorStack
         = Err "mismatched parentheses".
Proof.
  intros Hsym.
  induction tokens as [|token rest IH]; intros out st; simpl.
  - pose proof (drainStack_countOpen st out) as H.
    by destruct (countOpen st).
  - destruct (isNumber token) eqn:En.
    { assert ((token =? "(") = false) as ->.
      { apply not_true_is_false. intros ->%String.eqb_eq.
        rewrite Hsym in En; [done|auto]. }
      assert ((token =? ")") = false) as ->.
      { apply not_true_is_false. intros ->%String.eqb_eq.
        rewrite Hsym in En; [done|auto]. }
      apply IH. }
    destruct (isOperator token) eqn:Eo.
    { destruct (isOperator_not_paren _ Eo) as [-> ->].
      destruct (popHigher token out st) as [out1 st1] eqn:Ep.
      specialize (IH out1 (token :: st1)).
      rewrite countOpen_cons in IH.
      destruct (isOperator_not_paren _ Eo) as [-> _] in IH.
      by rewrite (popHigher_countOpen _ _ _ _ _ Ep) in IH. }
    destruct (token =? "(") eqn:El.
    { specialize (IH out (token :: st)).
      rewrite countOpen_cons, El in IH. apply IH. }
    destruct (token =? ")") eqn:Er; [|apply IH].
    destruct (popToParen out st) as [out1 st1] eqn:Ep.
    destruct (popToParen_countOpen _ _ _ _ Ep)
      as [[-> ->]|(below & -> & ->)]; [done|].
    simpl. apply IH.
Qed.

(** X3. [shuntingYard] checks the parentheses and nothing else: it
    succeeds when they are balanced and fails with "mismatched
    parentheses" when they are not, whatever the other tokens are. *)
Theorem shuntingYard_fails_iff_unbalanced (tokens : list string) :
  symbolsNotNumbers →
  if balanced tokens
  then ∃ output, shuntingYard tokens = Ok output
  else shuntingYard tokens = Err "mismatched parentheses".
Proof.
  intros Hsym. apply (shuntingYardFrom_balanced tokens Hsym [] []).
Qed.

Lemma filter_keep_all {A} (f : A → bool) (l : list A) :
  Forall (λ x, f x = true) l → List.filter f l = l.
Proof.
  induction 1 as [|x l Hx _ IH]; simpl; [done|]. by rewrite Hx, IH.
Qed.

Lemma filter_keep_none {A} (f : A → bool) (l : list A) :
  Forall (λ x, f x = false) l → List.filter f l = [].
Proof.
  induction 1 as [|x l Hx _ IH]; simpl; [done|]. by rewrite Hx.
Qed.

Lemma popHigher_popped (token : string) (operatorStack : list string) :
  ∀ output output' stack',
    popHigher token output operatorStack = (output', stack') →
    ∃ popped, output' = output ++ popped
              ∧ operatorStack = popped ++ stack'
              ∧ Forall (λ x, (x =? "(") = false) popped.
Proof.
  induction operatorStack as [|top below IH]; intros out out' st'; simpl.
  - intros [= <- <-]. exists []. by rewrite app_nil_r.
  - destruct (top =? "(") eqn:E; simpl.
    + intros [= <- <-]. exists []. by rewrite app_nil_r.
    + destruct (hasHigherPrecedence top token).
      * intros H. destruct (IH _ _ _ H) as (popped & -> & -> & Hp).
        exists (top :: popped). rewrite <- app_assoc.
        split; [done|]. split; [done|]. by constructor.
      * intros [= <- <-]. exists []. by rewrite app_nil_r.
Qed.

Lemma popToParen_popped (operatorStack : list string) :
  ∀ output output' stack',
    popToParen output operatorStack = (output', stack') →
    ∃ popped, output' = output ++ popped
              ∧ operatorStack = popped ++ stack'
              ∧ Forall (λ x, (x =? "(") = false) popped.
Proof.
  induction operatorStack as [|top below IH]; intros out out' st'; simpl.
  - intros [= <- <-]. exists []. by rewrite app_nil_r.
  - destruct (top =? "(") eqn:E; simpl.
    + intros [= <- <-]. exists []. by rewrite app_nil_r.
    + intros H. destruct (IH _ _ _ H) as (popped & -> & -> & Hp).
      exists (top :: popped). rewrite <- app_assoc.
      split; [done|]. split; [done|]. by constructor.
Qed.

Lemma drainStack_popped (operatorStack : list string) :
  ∀ output output',
    drainStack output operatorStack = Ok output' →
    output' = output ++ operatorStack
    ∧ Forall (λ x, (x =? "(") = false) operatorStack.
Proof.
  induction operatorStack as [|top below IH]; intros out out'; simpl.
  - intros [= <-]. by rewrite app_nil_r.
  - destruct (top =? "(") eqn:E; [done|].
    intros H. destruct (IH _ _ H) as [-> Hb].
    rewrite <- app_assoc. split; [done|]. by constructor.
Qed.

(** What is on the operator stack: operators and open parentheses that
    [isNumber] has rejected. *)
Lemma stack_operators (l : list string) :
  Forall stackToken l → Forall (λ x, (x =? "(") = false) l →
  Forall (λ x, isOperator x = true) l.
Proof.
  intros Hs Hp. induction Hs as [|x l [Hx| ->] _ IH];
    inversion_clear Hp; [done|constructor; auto|done].
Qed.

Lemma stack_filter_operators (l : list string) :
  Forall stackToken l →
  List.filter isOperator l
  = List.filter (λ x, negb (x =? "(")) l.
Proof.
  induction 1 as [|x l [Hx| ->] _ IH]; simpl; [done| |done].
  rewrite Hx. destruct (isOperator_not_paren _ Hx) as [-> _]. simpl.
  by rewrite IH.
Qed.

Lemma shuntingYardFrom_kept (tokens : list string) :
  ∀ output operatorStack output',
    Forall stackToken operatorStack →
    Forall (λ x, isNumber x = false) operatorStack →
    shuntingYardFrom tokens output operatorStack = Ok output' →
    output' ≡ₚ output ++ List.filter keptToken tokens
               ++ List.filter isOperator operatorStack
    ∧ List.filter isNumber output'
      = List.filter isNumber output ++ List.filter isNumber tokens.
Proof.
  induction tokens as [|token rest IH]; intros out st out' Hs Hn; simpl.
  - intros H. destruct (drainStack_popped _ _ _ H) as [-> Hp].
    rewrite (filter_keep_all isOperator) by by apply stack_operators.
    split; [done|].
    rewrite List.filter_app, (filter_keep_none isNumber st) by done.
    by rewrite !app_nil_r.
  - unfold keptToken at 1. destruct (isNumber token) eqn:En; simpl.
    { intros H. destruct (IH _ _ _ Hs Hn H) as [Hp Hf].
      split.
      - rewrite Hp. by rewrite <- !app_assoc.
      - rewrite Hf, List.filter_app. simpl. rewrite En.
        by rewrite <- !app_assoc. }
    destruct (isOperator token) eqn:Eo.
    { destruct (popHigher token out st) as [out1 st1] eqn:Ep.
      destruct (popHigher_popped _ _ _ _ _ Ep) as (popped & -> & -> & Hpop).
      apply Forall_app in Hs as [Hs1 Hs2].
      apply Forall_app in Hn as [Hn1 Hn2].
      intros H.
      destruct (IH _ _ _ (Forall_cons_2 _ _ _ (or_introl Eo) Hs2)
                  (Forall_cons_2 _ _ _ En Hn2) H) as [Hp Hf].
      rewrite List.filter_app, (filter_keep_none isNumber popped),
        app_nil_r in Hf by done.
      split; [|done].
      rewrite List.filter_app.
      rewrite (filter_keep_all isOperator popped) by by apply stack_operators.
      rewrite Hp. simpl. rewrite Eo.
      rewrite <- !app_assoc. apply Permutation_app_head.
      rewrite (app_assoc popped), (Permutation_app_comm popped).
      rewrite <- Permutation_middle. by rewrite <- app_assoc. }
    destruct (token =? "(") eqn:El.
    { intros H.
      destruct (IH _ _ _
                  (Forall_cons_2 _ _ _
                     (or_intror (proj1 (String.eqb_eq _ _) El)) Hs)
                  (Forall_cons_2 _ _ _ En Hn) H) as [Hp Hf].
      simpl in Hp. by rewrite Eo in Hp. }
    destruct (token =? ")") eqn:Er; [|by apply IH].
    destruct (popToParen out st) as [out1 st1] eqn:Ep.
    destruct (popToParen_popped _ _ _ _ Ep) as (popped & -> & -> & Hpop).
    apply Forall_app in Hs as [Hs1 Hs2].
    apply Forall_app in Hn as [Hn1 Hn2].
    destruct st1 as [|top below]; [done|].
    destruct (top =? "(") eqn:Et; simpl; [|done].
    apply String.eqb_eq in Et as ->.
    inversion_clear Hs2 as [|?? _ Hs3]. inversion_clear Hn2 as [|?? _ Hn3].
    intros H. destruct (IH _ _ _ Hs3 Hn3 H) as [Hp Hf].
    rewrite List.filter_app, (filter_keep_none isNumber popped),
      app_nil_r in Hf by done.
    split; [|done].
    rewrite List.filter_app. simpl.
    rewrite (filter_keep_all isOperator popped) by by apply stack_operators.
    rewrite Hp.
    rewrite <- !app_assoc. apply Permutation_app_head.
    rewrite (app_assoc popped), (Permutation_app_comm popped).
    by rewrite <- app_assoc.
Qed.

(** X4. The output of [shuntingYard] is made of the numbers and the
    operators of its input, each once: the parentheses are gone, and so
    is every other token, without an error. The numbers keep their
    order. *)
Theorem shuntingYard_keeps_numbers_and_operators
    (tokens output : list string) :
  shuntingYard tokens = Ok output →
  output ≡ₚ List.filter keptToken tokens
  ∧ List.filter isNumber output = List.filter isNumber tokens.
Proof.
  intros H.
  destruct (shuntingYardFrom_kept tokens [] [] output) as [Hp Hf];
    [done..|].
  simpl in Hp. by rewrite app_nil_r in Hp.
Qed.
(** ** Further properties of the task builder *)

Lemma countOperators_cons (token : string) (rest : list string) :
  countOperators (token :: rest)
  = if isOperator token then S (countOperators rest)
    else countOperators rest.
Proof. unfold countOperators. simpl. by destruct (isOperator token). Qed.

Lemma buildTasks_depth (exprID : string) (postfix : list string) :
  ∀ (stack : list string) (s : Service F),
    match postfixDepth postfix (length stack) with
    | Some depth =>
        ∃ s' stack',
          buildTasks exprID postfix stack s = (s', Ok stack')
          ∧ length stack' = depth
          ∧ taskIDCounter s'
            = (taskIDCounter s + countOperators postfix)%nat
    | None =>
        ∃ s' token,
          buildTasks exprID postfix stack s
          = (s', Err ("invalid expression: not enough operands for operator "
                      +:+ token))
          ∧ isOperator token = true ∧ token ∈ postfix
    end.
Proof.
  induction postfix as [|token rest IH]; intros stack s; simpl.
  - exists s, stack. unfold countOperators. simpl. split; [done|].
    split; [done|lia].
  - rewrite countOperators_cons. destruct (isOperator token) eqn:Eo.
    + destruct stack as [|arg2 [|arg1 below]]; simpl.
      * exists s, token. split; [done|]. split; [done|]. by left.
      * exists s, token. split; [done|]. split; [done|]. by left.
      * destruct (createTask_state exprID arg1 arg2 token s)
          as (_ & _ & _ & _ & Hc & _).
        destruct (createTask exprID arg1 arg2 token s) as [taskID s1].
        simpl in Hc.
        specialize (IH (taskID :: below) s1). simpl in IH.
        destruct (postfixDepth rest (S (length below))).
        -- destruct IH as (s' & stack' & -> & Hl & Hn).
           exists s', stack'. split; [done|]. split; [done|]. lia.
        -- destruct IH as (s' & tok & -> & Hop & Hin).
           exists s', tok. split; [done|]. split; [done|]. by right.
    + specialize (IH (token :: stack) s). simpl in IH.
      destruct (postfixDepth rest (S (length stack))).
      * done.
      * destruct IH as (s' & tok & -> & Hop & Hin).
        exists s', tok. split; [done|]. split; [done|]. by right.
Qed.

(** The operator at which the first loop stops: the first one that
    finds fewer than two values on the stack. One task has been made
    for each operator before it. *)
Lemma buildTasks_starved (exprID : string) (postfix : list string) :
  ∀ (stack : list string) (s : Service F),
    postfixDepth postfix (length stack) = None →
    ∃ s' before token after depth,
      postfix = before ++ token :: after
      ∧ isOperator token = true
      ∧ postfixDepth before (length stack) = Some depth
      ∧ (depth < 2)%nat
      ∧ buildTasks exprID postfix stack s
        = (s', Err ("invalid expression: not enough operands for operator "
                    +:+ token))
      ∧ taskIDCounter s'
        = (taskIDCounter s + countOperators before)%nat.
Proof.
  induction postfix as [|token rest IH]; intros stack s; simpl; [done|].
  destruct (isOperator token) eqn:Eo.
  - destruct stack as [|arg2 [|arg1 below]]; simpl.
    + intros _. exists s, [], token, rest, 0%nat.
      unfold countOperators. simpl. repeat split; try done; lia.
    + intros _. exists s, [], token, rest, 1%nat.
      unfold countOperators. simpl. repeat split; try done; lia.
    + intros Hd.
      destruct (createTask_state exprID arg1 arg2 token s)
        as (_ & _ & _ & _ & Hc & _).
      destruct (createTask exprID arg1 arg2 token s) as [taskID s1].
      simpl in Hc.
      destruct (IH (taskID :: below) s1 Hd)
        as (s' & before & tok & after & depth & -> & Hop & Hb & Hlt & -> & Hn).
      exists s', (token :: before), tok, after, depth.
      rewrite countOperators_cons, Eo. simpl. rewrite Eo.
      repeat split; try done. lia.
  - intros Hd.
    destruct (IH (token :: stack) s Hd)
      as (s' & before & tok & after & depth & -> & Hop & Hb & Hlt & -> & Hn).
    exists s', (token :: before), tok, after, depth.
    rewrite countOperators_cons, Eo. simpl. rewrite Eo.
    repeat split; done.
Qed.

(** X5. [createTasksFromPostfix] accepts exactly the postfix sequences
    that leave one value on the operand stack, and then it has made one
    task for each operator. A sequence that leaves another number of
    values, none included, is refused as having "too many values". A
    sequence in which an operator finds fewer than two values is
    refused with the name of the first such operator: the tokens before
    it are processed without an error and leave fewer than two values.
    In both cases of failure one task has been made for each operator
    processed. *)
Theorem createTasksFromPostfix_accepts (exprID : string)
    (postfix : list string) (s : Service F) :
  match postfixDepth postfix 0 with
  | Some 1 =>
      ∃ s', createTasksFromPostfix exprID postfix s = (s', None)
            ∧ taskIDCounter s'
              = (taskIDCounter s + countOperators postfix)%nat
  | Some _ =>
      ∃ s', createTasksFromPostfix exprID postfix s
            = (s', Some "invalid expression: too many values left on stack")
            ∧ taskIDCounter s'
              = (taskIDCounter s + countOperators postfix)%nat
  | None =>
      ∃ s' before token after depth,
        postfix = before ++ token :: after
        ∧ isOperator token = true
        ∧ postfixDepth before 0 = Some depth
        ∧ (depth < 2)%nat
        ∧ createTasksFromPostfix exprID postfix s
          = (s', Some ("invalid expression: not enough operands for operator "
                       +:+ token))
        ∧ taskIDCounter s'
          = (taskIDCounter s + countOperators before)%nat
  end.
Proof.
  pose proof (buildTasks_depth exprID postfix [] s) as H. simpl in H.
  pose proof (buildTasks_starved exprID postfix [] s) as Hs. simpl in Hs.
  unfold createTasksFromPostfix.
  destruct (postfixDepth postfix 0) as [depth|].
  - destruct H as (s' & stack' & -> & Hl & Hn). rewrite Hl.
    destruct depth as [|[|depth]]; simpl; eauto.
  - destruct (Hs eq_refl)
      as (s' & before & token & after & depth & Hp & Hop & Hb & Hlt & -> & Hn).
    by exists s', before, token, after, depth.
Qed.
(** ** Further invariants of the store *)

(** *** What the operations leave alone *)

Lemma recordedTask_operation (s : Service F) (id : string) (result : F)
    (k : string) (t : Task.t F) :
  Task.Operation (recordedTask s id result k t) = Task.Operation t
  ∧ Task.OperationTime (recordedTask s id result k t) = Task.OperationTime t
  ∧ Task.Dependencies (recordedTask s id result k t) = Task.Dependencies t.
Proof.
  unfold recordedTask. by case_bool_decide; case_decide.
Qed.

Lemma buildTasks_taskInv (exprID : string) (postfix : list string) :
  ∀ (stack : list string) (s s' : Service F) r,
    wf s → is_Some (expressions s !! exprID) → taskInv s →
    buildTasks exprID postfix stack s = (s', r) →
    wf s' ∧ taskInv s' ∧ opTimes s' = opTimes s.
Proof.
  induction postfix as [|token rest IH]; intros stack s s' r Hwf He Hti;
    simpl.
  - by intros [= <- <-].
  - destruct (isOperator token) eqn:Eo; [|by apply IH].
    destruct stack as [|arg2 [|arg1 below]]; try by intros [= <- <-].
    pose proof (createTask_wf exprID arg1 arg2 token s Hwf He) as Hwf1.
    destruct (createTask_state exprID arg1 arg2 token s)
      as (Hex & Ht & _ & _ & Hn & Hot & _).
    assert (Hg : dependencyGraph (createTask exprID arg1 arg2 token s).2
                 = <[taskName (S (taskIDCounter s))
                     := taskArgs s arg1 arg2]> (dependencyGraph s)).
    { unfold createTask. rewrite !addDependency_spec. done. }
    assert (Hq : taskQueue (createTask exprID arg1 arg2 token s).2
                 = taskQueue s).
    { unfold createTask. rewrite !addDependency_spec. done. }
    destruct (createTask exprID arg1 arg2 token s) as [taskID s1].
    simpl in *. intros Hb.
    assert (He1 : is_Some (expressions s1 !! exprID)) by by rewrite Hex.
    cut (taskInv s1).
    { intros Hti1. destruct (IH _ _ _ _ Hwf1 He1 Hti1 Hb) as (? & ? & ?).
      split; [done|]. split; [done|congruence]. }
    destruct Hti as [Hop Hold Hgr Hqu].
    split.
    + intros k t. rewrite Ht, Hot.
      intros [[<- <-]|[_ Hk]]%lookup_insert_Some; [done|by apply (Hop k)].
    + intros k t d. rewrite Ht.
      intros [[<- <-]|[_ Hk]]%lookup_insert_Some; [|by apply (Hold k t)].
      simpl. intros Hd%elem_of_taskArgs.
      assert (is_Some (tasks s !! d)) as [td Htd].
      { apply isTaskID_true. by destruct Hd as [[-> ?]|[-> ?]]. }
      apply (wf_keys s Hwf) in Htd as (_ & m & -> & Hm).
      exists (S (taskIDCounter s)), m. split; [done|]. split; [done|lia].
    + intros k. rewrite Hg, Ht.
      destruct (decide (taskName (S (taskIDCounter s)) = k)) as [<-|Hne].
      * by rewrite !lookup_insert_eq.
      * by rewrite !lookup_insert_ne.
    + congruence.
Qed.

(** The store that [SubmitExpression] returns is the one that the first
    loop of the build has left, up to the ready set and the
    expressions. *)
Lemma SubmitExpression_built (id expression : string) (s s' : Service F)
    (r : result string) :
  SubmitExpression id expression s = (s', r) →
  ∃ postfix mid rb,
    buildTasks id postfix []
      (setExpressions
         (<[id := ExpressionData.mk id (removeSpaces expression) Pending
                    None]> (expressions s)) s)
    = (mid, rb)
    ∧ tasks s' = tasks mid
    ∧ opTimes s' = opTimes mid
    ∧ dependencyGraph s' = dependencyGraph mid
    ∧ taskQueue s' = taskQueue mid
    ∧ taskIDCounter s' = taskIDCounter mid.
Proof.
  unfold SubmitExpression, parseExpression.
  set (s0 := setExpressions _ s).
  destruct (tokenize (removeSpaces expression)) as [tokens|msg].
  - destruct (shuntingYard tokens) as [output|msg].
    + unfold createTasksFromPostfix.
      destruct (buildTasks id output [] s0) as [mid rb] eqn:Eb.
      destruct rb as [stack|msg].
      * destruct (negb (length stack =? 1)%nat);
          intros [= <- <-]; by exists output, mid, (Ok stack).
      * intros [= <- <-]. by exists output, mid, (Err msg).
    + intros [= <- <-]. by exists [], s0, (Ok []).
  - intros [= <- <-]. by exists [], s0, (Ok []).
Qed.

Lemma SubmitExpression_taskInv (id expression : string) (s s' : Service F)
    (r : result string) :
  wf s → taskInv s → SubmitExpression id expression s = (s', r) →
  taskInv s' ∧ opTimes s' = opTimes s.
Proof.
  intros Hwf Hti Hsub.
  destruct (SubmitExpression_built _ _ _ _ _ Hsub)
    as (postfix & mid & rb & Hb & Ht & Hot & Hg & Hq & Hn).
  apply buildTasks_taskInv in Hb as (_ & [Hop Hold Hgr Hqu] & Hot').
  - split; [|by rewrite Hot, Hot'].
    split.
    + intros k t. rewrite Ht, Hot. apply (Hop k).
    + intros k t d. rewrite Ht. apply Hold.
    + intros k. rewrite Hg, Ht. apply Hgr.
    + by rewrite Hq.
  - by apply wf_insert_expression.
  - simpl. rewrite lookup_insert_eq. eauto.
  - by destruct Hti.
Qed.

Lemma updateDependenciesFrom_frame (taskID : string) (result : F)
    (deps : list string) :
  ∀ s s' : Service F,
    updateDependenciesFrom taskID result deps s = Some s' →
    opTimes s' = opTimes s ∧ dependencyGraph s' = dependencyGraph s
    ∧ taskQueue s' = taskQueue s.
Proof.
  induction deps as [|d deps IH]; intros s s'; simpl.
  - by intros [= <-].
  - unfold updateDependent. destruct (tasks s !! d) as [t|]; [|done].
    intros H. apply IH in H as (-> & -> & ->).
    by destruct (forallb _ _).
Qed.

Lemma SetTaskResult_frame (order : list string) (id : string) (result : F)
    (s s' : Service F) (err : option string) :
  SetTaskResult order id result s = Some (s', err) →
  opTimes s' = opTimes s ∧ dependencyGraph s' = dependencyGraph s
  ∧ taskQueue s' = taskQueue s.
Proof.
  unfold SetTaskResult. destruct (tasks s !! id) as [task|];
    [|by intros [= <- _]].
  set (s1 := setCompletedTasks _ _).
  unfold updateExpressionStatus.
  destruct (scanTasks s1 _ order None) as [[] [r|]];
    [destruct (expressions s1 !! _); [|done]|..];
    unfold updateDependencies;
    match goal with
    | |- context [updateDependenciesFrom ?a ?b ?c ?d] =>
        destruct (updateDependenciesFrom a b c d) as [s3|] eqn:E; [|done];
        apply updateDependenciesFrom_frame in E as (H1 & H2 & H3)
    end; intros [= <- _]; by rewrite H1, H2, H3.
Qed.

Lemma step_taskInv (s : Service F) (ev : event F) (s' : Service F) :
  wf s → taskInv s → step s ev s' → taskInv s' ∧ opTimes s' = opTimes s.
Proof.
  intros Hwf Hti Hstep. revert Hwf Hti.
  destruct Hstep as [s0 id expression s1 r Hid Hsub
                    |s0 first r s1 Hfirst Hget
                    |s0 order id value s1 err Hperm Hset]; intros Hwf Hti.
  - by eapply SubmitExpression_taskInv.
  - destruct first as [k|]; simpl in Hget; [|by injection Hget as <- <-].
    destruct (tasks s0 !! k) as [t|] eqn:E; [|done].
    injection Hget as <- <-. split; [|done].
    destruct Hti as [Hop Hold Hgr Hqu]. split; simpl.
    + intros k' t'. intros [[<- <-]|[_ Hk]]%lookup_insert_Some;
        [by apply (Hop k t)|by apply (Hop k')].
    + intros k' t' d. intros [[<- <-]|[_ Hk]]%lookup_insert_Some;
        [by apply (Hold k t)|by apply (Hold k' t')].
    + intros k'. rewrite Hgr.
      destruct (decide (k = k')) as [<-|Hne].
      * by rewrite lookup_insert_eq, E.
      * by rewrite lookup_insert_ne.
    + done.
  - destruct (SetTaskResult_frame _ _ _ _ _ _ Hset) as (Hot & Hg & Hq).
    split; [|done].
    destruct (tasks s0 !! id) as [task|] eqn:E.
    + destruct (SetTaskResult_spec order id value s0 task Hwf Hperm E)
        as (s2 & Hset' & Hspec).
      assert (s2 = s1) as -> by congruence.
      pose proof (rs_tasks _ _ _ _ _ Hspec) as Ht.
      destruct Hti as [Hop Hold Hgr Hqu]. split.
      * intros k t. rewrite Ht, Hot.
        destruct (tasks s0 !! k) as [t0|] eqn:Ek; [|done].
        intros [= <-].
        destruct (recordedTask_operation s0 id value k t0) as (Ho & Hti & _).
        rewrite Ho, Hti. by apply (Hop k).
      * intros k t d. rewrite Ht.
        destruct (tasks s0 !! k) as [t0|] eqn:Ek; [|done].
        intros [= <-].
        destruct (recordedTask_operation s0 id value k t0) as (_ & _ & Hd).
        rewrite Hd. by apply (Hold k).
      * intros k. rewrite Hg, Hgr, Ht.
        destruct (tasks s0 !! k) as [t0|] eqn:Ek; [|done]. simpl.
        destruct (recordedTask_operation s0 id value k t0) as (_ & _ & Hd).
        by rewrite Hd.
      * congruence.
    + rewrite SetTaskResult_not_found in Hset by done.
      by injection Hset as <- _.
Qed.

Lemma run_taskInv (ot : OperationTimes) (evs : list (event F))
    (s : Service F) :
  run (NewService (F:=F) ot) evs s → taskInv s ∧ opTimes s = ot.
Proof.
  induction 1 as [|evs s ev s' Hrun [IH Hot] Hstep].
  - split; [|done]. split; simpl; done.
  - destruct (step_taskInv s ev s') as [? ?]; [by eapply run_wf|done..|].
    split; [done|congruence].
Qed.
(** *** The ready set and the dependencies *)

Lemma readyInv_step (s : Service F) (ev : event F) (s' : Service F) :
  wf s → readyInv s → step s ev s' → readyInv s'.
Proof.
  intros Hwf Hinv Hstep. revert Hwf Hinv.
  destruct Hstep as [s id expression s' r Hid Hsub
                    |s first r s' Hfirst Hget
                    |s order id value s' err Hperm Hset]; intros Hwf Hinv.
  - destruct (SubmitExpression_spec _ _ _ _ _ Hwf Hid Hsub) as [Hspec _].
    intros k t d Hk Hkt Hd. rewrite (ss_completed _ _ _ _ _ Hspec).
    apply (ss_ready _ _ _ _ _ Hspec) in Hk
      as [Hk|(_ & Hk0 & t' & Hkt' & H1 & H2)].
    + destruct (wf_ready s Hwf k Hk) as [t0 Hk0].
      pose proof (ss_old _ _ _ _ _ Hspec k t0 Hk0) as Hk1.
      assert (t = t0) as -> by congruence. by apply (Hinv k t0).
    + assert (t' = t) as -> by congruence.
      destruct (ss_new _ _ _ _ _ Hspec k t Hkt Hk0) as (_ & _ & Hdeps & _).
      destruct (wf_deps s' (ss_wf _ _ _ _ _ Hspec) k t d Hkt Hd)
        as [Hsome%isTaskID_true _].
      destruct (Hdeps d Hd) as [[->| ->] _]; congruence.
  - destruct (GetTask_spec first s Hwf Hfirst)
      as (r' & s2 & Hget' & _ & _ & Hc & _ & _ & Hcase).
    assert (s2 = s') as -> by congruence.
    intros k t d Hk Hkt Hd. rewrite Hc.
    destruct first as [k0|]; [|destruct Hcase as (_ & -> & _); by eapply Hinv].
    destruct Hcase as (_ & Hr & t0 & Hk0 & _ & Ht).
    rewrite Hr in Hk. apply elem_of_difference in Hk as [Hk Hne].
    rewrite Ht, lookup_insert_ne in Hkt by set_solver.
    by apply (Hinv k t).
  - destruct (tasks s !! id) as [task|] eqn:E.
    + destruct (SetTaskResult_spec order id value s task Hwf Hperm E)
        as (s2 & Hset' & Hspec).
      assert (s2 = s') as -> by congruence.
      intros k t d Hk Hkt Hd. rewrite (rs_completed _ _ _ _ _ Hspec).
      rewrite (rs_tasks _ _ _ _ _ Hspec) in Hkt.
      destruct (tasks s !! k) as [t0|] eqn:Ek; [|done].
      injection Hkt as <-.
      destruct (recordedTask_operation s id value k t0) as (_ & _ & Hdeps).
      rewrite Hdeps in Hd.
      apply (rs_ready _ _ _ _ _ Hspec) in Hk as [Hk|(_ & t1 & Hk1 & Hall)].
      * apply elem_of_union. right. by apply (Hinv k t0).
      * assert (t1 = t0) as -> by congruence.
        apply elem_of_union. destruct (Hall d Hd) as [->|?];
          [left; by apply elem_of_singleton|by right].
    + rewrite SetTaskResult_not_found in Hset by done.
      by injection Hset as <- _.
Qed.

Lemma run_readyInv (ot : OperationTimes) (evs : list (event F))
    (s : Service F) :
  run (NewService (F:=F) ot) evs s → readyInv s.
Proof.
  induction 1 as [|evs s ev s' Hrun IH Hstep].
  - intros k t d Hk. by apply not_elem_of_empty in Hk.
  - eapply readyInv_step; [|done..]. by eapply run_wf.
Qed.

Lemma elem_of_pulledIDs_snoc (evs : list (event F)) (ev : event F)
    (k : string) :
  k ∈ pulledIDs evs → k ∈ pulledIDs (evs ++ [ev]).
Proof. rewrite pulledIDs_snoc. intros H. apply elem_of_app. by left. Qed.

Lemma run_runnableInv (ot : OperationTimes) (evs : list (event F))
    (s : Service F) :
  (∀ n, isNumber (taskName n) = false) →
  run (NewService (F:=F) ot) evs s → runnableInv evs s.
Proof.
  intros Htask. induction 1 as [|evs s ev s' Hrun IH Hstep].
  { intros k t expression H. simpl in H. by rewrite lookup_empty in H. }
  pose proof (run_wf _ _ _ Hrun) as Hwf.
  pose proof (run_statusInv _ _ _ Hrun) as Hstatus.
  revert IH Hwf Hstatus.
  destruct Hstep as [s id expression s' r Hid Hsub
                    |s first r s' Hfirst Hget
                    |s order id value s' err Hperm Hset];
    intros IH Hwf Hstatus.
  - destruct (SubmitExpression_spec _ _ _ _ _ Hwf Hid Hsub) as [Hspec _].
    pose proof (ss_wf _ _ _ _ _ Hspec) as Hwf'.
    intros k t text Hkt Hsubm Hall.
    rewrite (ss_completed _ _ _ _ _ Hspec) in Hall.
    destruct (tasks s !! k) as [t0|] eqn:Ek.
    + pose proof (ss_old _ _ _ _ _ Hspec k t0 Ek) as Hk1.
      assert (t = t0) as -> by congruence.
      apply elem_of_app in Hsubm as [Hsubm|Hsubm%list_elem_of_singleton].
      * destruct (IH k t0 text Ek Hsubm Hall) as [Hr|Hp].
        -- left. apply (ss_ready _ _ _ _ _ Hspec). by left.
        -- right. by apply elem_of_pulledIDs_snoc.
      * injection Hsubm as Heq _ _.
        destruct (wf_expr s Hwf k t0 Ek) as [e He]. congruence.
    + destruct (ss_new _ _ _ _ _ Hspec k t Hkt Ek)
        as (Hid' & _ & Hdeps & Ha1 & Ha2).
      apply elem_of_app in Hsubm as [Hsubm|Hsubm%list_elem_of_singleton].
      { apply (si_submitted _ _ Hstatus) in Hsubm as [e He]. congruence. }
      injection Hsubm as _ _ <-.
      assert (Hnone : ∀ d, d ∉ Task.Dependencies t).
      { intros d Hd. destruct (Hdeps d Hd) as [_ Hd0].
        apply Hall, (wf_completed s Hwf) in Hd as (td & Htd & _).
        congruence. }
      assert (Hnum : ∀ a, isNumber a = true → isTaskID s' a = false).
      { intros a Ha. apply isTaskID_false.
        destruct (tasks s' !! a) as [ta|] eqn:Eta; [|done].
        apply (wf_keys s' Hwf') in Eta as (_ & n & -> & _).
        by rewrite Htask in Ha. }
      left. apply (ss_ready _ _ _ _ _ Hspec). right.
      split; [done|]. split; [done|]. exists t. split; [done|].
      split; apply Hnum.
      * destruct Ha1 as [?|Hd]; [done|by apply Hnone in Hd].
      * destruct Ha2 as [?|Hd]; [done|by apply Hnone in Hd].
  - destruct (GetTask_spec first s Hwf Hfirst)
      as (r' & s2 & Hget' & _ & _ & Hc & _ & _ & Hcase).
    assert (s2 = s') as -> by congruence.
    assert (r' = r) as -> by congruence.
    intros k t text Hkt Hsubm Hall. rewrite Hc in Hall.
    apply elem_of_app in Hsubm as [Hsubm|Hsubm%list_elem_of_singleton];
      [|done].
    rewrite pulledIDs_snoc.
    destruct first as [k0|].
    + destruct Hcase as (_ & Hr & t0 & Hk0 & -> & Ht).
      rewrite Hr. rewrite Ht in Hkt.
      destruct (decide (k0 = k)) as [->|Hne].
      * right. apply elem_of_app. right. simpl.
        destruct (wf_keys s Hwf k t0 Hk0) as [-> _]. by left.
      * rewrite lookup_insert_ne in Hkt by done.
        destruct (IH k t text Hkt Hsubm Hall) as [?|?].
        -- left. apply elem_of_difference. split; [done|].
           intros ?%elem_of_singleton. congruence.
        -- right. apply elem_of_app. by left.
    + destruct Hcase as (-> & -> & _).
      destruct (IH k t text Hkt Hsubm Hall) as [?|?]; [by left|].
      right. apply elem_of_app. by left.
  - destruct (tasks s !! id) as [task|] eqn:E.
    + destruct (SetTaskResult_spec order id value s task Hwf Hperm E)
        as (s2 & Hset' & Hspec).
      assert (s2 = s') as -> by congruence.
      intros k t text Hkt Hsubm Hall.
      apply elem_of_app in Hsubm as [Hsubm|Hsubm%list_elem_of_singleton];
        [|done].
      rewrite (rs_tasks _ _ _ _ _ Hspec) in Hkt.
      destruct (tasks s !! k) as [t0|] eqn:Ek; [|done].
      injection Hkt as <-.
      destruct (recordedTask_fields s id value k t0)
        as (_ & Hex & Hdeps & _).
      rewrite Hex in Hsubm. rewrite Hdeps in Hall.
      rewrite (rs_completed _ _ _ _ _ Hspec) in Hall.
      destruct (decide (id ∈ Task.Dependencies t0)) as [Hin|Hnin].
      * left. apply (rs_ready _ _ _ _ _ Hspec). right.
        split; [by apply (wf_deps s Hwf k t0 id Ek Hin)|].
        exists t0. split; [done|]. intros d Hd.
        specialize (Hall d Hd). set_solver.
      * destruct (IH k t0 text Ek Hsubm) as [?|?].
        -- intros d Hd. specialize (Hall d Hd).
           apply elem_of_union in Hall as [->%elem_of_singleton|?]; done.
        -- left. apply (rs_ready _ _ _ _ _ Hspec). by left.
        -- right. by apply elem_of_pulledIDs_snoc.
    + rewrite SetTaskResult_not_found in Hset by done.
      injection Hset as <- _.
      intros k t text Hkt Hsubm Hall.
      apply elem_of_app in Hsubm as [Hsubm|Hsubm%list_elem_of_singleton];
        [|done].
      destruct (IH k t text Hkt Hsubm Hall) as [?|?]; [by left|].
      right. by apply elem_of_pulledIDs_snoc.
Qed.
(** X6. The dependency graph is acyclic, and [dependencyGraph] mirrors
    it: after every execution each dependency of a task is a task with
    a smaller number, and the entry of [dependencyGraph] for a task is
    the list of its dependencies. *)
Theorem dependencies_are_older_tasks (ot : OperationTimes)
    (evs : list (event F)) (s : Service F) (k : string) (t : Task.t F) :
  run (NewService (F:=F) ot) evs s →
  tasks s !! k = Some t →
  dependencyGraph s !! k = Some (Task.Dependencies t)
  ∧ ∀ d, d ∈ Task.Dependencies t →
      ∃ n m, k = taskName n ∧ d = taskName m ∧ (m < n)%nat
             ∧ is_Some (tasks s !! d).
Proof.
  intros Hrun Hk.
  destruct (run_taskInv ot evs s Hrun) as [[_ Hold Hgr _] _].
  split; [by rewrite Hgr, Hk|].
  intros d Hd. destruct (Hold k t d Hk Hd) as (n & m & ? & ? & ?).
  exists n, m. repeat split; try done.
  by apply (wf_deps s (run_wf _ _ _ Hrun) k t d).
Qed.

(** X7. After every execution the operation of each task is one of the
    four operators and its operation time is the configured time of
    that operator, so [ProcessOperation] applied to the task never
    answers "unknown operation": it returns a value or "division by
    zero". *)
Theorem task_operation_and_time (ot : OperationTimes)
    (evs : list (event F)) (s : Service F) (k : string) (t : Task.t F) :
  run (NewService (F:=F) ot) evs s →
  tasks s !! k = Some t →
  isOperator (Task.Operation t) = true
  ∧ Task.OperationTime t = operationTime ot (Task.Operation t)
  ∧ ∀ arg1 arg2,
      (∃ v, ProcessOperation (Task.Operation t) arg1 arg2 = Ok v)
      ∨ (Task.Operation t = Division ∧ fisZero arg2 = true
         ∧ ProcessOperation (Task.Operation t) arg1 arg2
           = Err "division by zero").
Proof.
  intros Hrun Hk.
  destruct (run_taskInv ot evs s Hrun) as [[Hop _ _ _] Hot].
  destruct (Hop k t Hk) as [Ho Htime]. rewrite Hot in Htime.
  split; [done|]. split; [done|]. intros arg1 arg2.
  apply isOperator_cases in Ho as [->|[->|[->| ->]]];
    unfold ProcessOperation; simpl; eauto.
  destruct (fisZero arg2); eauto.
Qed.

(** X8. [GetTask] hands out a task only when each of its dependencies
    has a recorded result: this holds for every task that [GetTask]
    returns in a state reached by an execution. *)
Theorem pulled_task_dependencies_completed (ot : OperationTimes)
    (evs : list (event F)) (s s' : Service F) (task : Task.t F) :
  run (NewService (F:=F) ot) evs s →
  step s (Pulled (Some task)) s' →
  ∀ d, d ∈ Task.Dependencies task →
    d ∈ completedTasks s
    ∧ ∃ td v, tasks s !! d = Some td ∧ Task.Result td = Some v.
Proof.
  intros Hrun Hstep d Hd.
  pose proof (run_wf _ _ _ Hrun) as Hwf.
  pose proof (run_readyInv _ _ _ Hrun) as Hready.
  inversion Hstep as [| s0 first r s1 Hfirst Hget |]; subst.
  destruct (GetTask_spec first s Hwf Hfirst)
    as (r' & s2 & Hget' & _ & _ & _ & _ & _ & Hcase).
  assert (r' = Some task) as -> by congruence.
  destruct first as [k|]; [|by destruct Hcase as [? _]].
  destruct Hcase as (Hk & _ & t & Hkt & [= ->] & _).
  assert (Hc : d ∈ completedTasks s) by by apply (Hready k t).
  split; [done|].
  apply (wf_completed s Hwf) in Hc as (td & Htd & [v Hv]). eauto.
Qed.

(** X9. No task is forgotten: after every execution, a task of an
    expression that [SubmitExpression] accepted, each dependency of
    which has a result, is in the ready set or has been returned by
    [GetTask]. (No task id parses as a number.) *)
Theorem runnable_task_is_ready_or_pulled (ot : OperationTimes)
    (evs : list (event F)) (s : Service F) (k : string) (t : Task.t F)
    (expression : string) :
  (∀ n, isNumber (taskName n) = false) →
  run (NewService (F:=F) ot) evs s →
  tasks s !! k = Some t →
  Submitted (Task.ExpressionID t) expression (Ok (Task.ExpressionID t))
    ∈ evs →
  (∀ d, d ∈ Task.Dependencies t → d ∈ completedTasks s) →
  k ∈ readyTasks s ∨ k ∈ pulledIDs evs.
Proof.
  intros Htask Hrun. by apply (run_runnableInv ot evs s Htask Hrun).
Qed.
(** *** The expressions of the store *)

Lemma run_wf_from (s : Service F) (evs : list (event F)) (s' : Service F) :
  wf s → run s evs s' → wf s'.
Proof.
  intros Hwf. induction 1 as [|evs s1 ev s2 _ IH Hstep]; [done|].
  by eapply step_wf.
Qed.

Lemma submittedIDs_snoc (evs : list (event F)) (ev : event F) :
  submittedIDs (evs ++ [ev])
  = submittedIDs evs
    ++ match ev with
       | Submitted id _ _ => [id]
       | _ => []
       end.
Proof.
  unfold submittedIDs. rewrite omap_app. f_equal.
  by destruct ev.
Qed.

(** What a step does to the expressions. *)
Lemma step_expressions (s : Service F) (ev : event F) (s' : Service F) :
  wf s → step s ev s' →
  match ev with
  | Submitted id expression r =>
      expressions s !! id = None
      ∧ expressions s'
        = <[id := ExpressionData.mk id (removeSpaces expression)
                    (if isOk r then InProcess else Failed) None]>
            (expressions s)
  | Pulled _ => expressions s' = expressions s
  | Recorded id value err =>
      expressions s' = expressions s
      ∨ ∃ task expr result,
          tasks s !! id = Some task
          ∧ expressions s !! Task.ExpressionID task = Some expr
          ∧ expressions s'
            = <[Task.ExpressionID task :=
                  ExpressionData.mk (ExpressionData.ID expr)
                    (ExpressionData.Expression expr) Completed
                    (Some result)]> (expressions s)
  end.
Proof.
  intros Hwf Hstep. revert Hwf.
  destruct Hstep as [s id expression s' r Hid Hsub
                    |s first r s' Hfirst Hget
                    |s order id value s' err Hperm Hset]; intros Hwf.
  - destruct (SubmitExpression_spec _ _ _ _ _ Hwf Hid Hsub) as [Hspec _].
    split; [done|]. apply (ss_expressions _ _ _ _ _ Hspec).
  - destruct (GetTask_spec first s Hwf Hfirst)
      as (r' & s2 & Hget' & _ & He & _).
    congruence.
  - destruct (tasks s !! id) as [task|] eqn:E.
    + destruct (SetTaskResult_spec order id value s task Hwf Hperm E)
        as (s2 & Hset' & Hspec).
      assert (s2 = s') as -> by congruence.
      destruct (rs_expressions _ _ _ _ _ Hspec)
        as [[He _]|(_ & k & t & expr & _ & [v Hv] & Hexpr & He)];
        [by left|].
      right. exists task, expr, v. rewrite Hv in He. done.
    + rewrite SetTaskResult_not_found in Hset by done.
      injection Hset as <- _. by left.
Qed.

Lemma exprInv_step (evs : list (event F)) (s : Service F) (ev : event F)
    (s' : Service F) :
  wf s → exprInv evs s → step s ev s' → exprInv (evs ++ [ev]) s'.
Proof.
  intros Hwf [Hnd Hdom Hf] Hstep.
  pose proof (step_expressions s ev s' Hwf Hstep) as He.
  destruct ev as [id expression r|r|id value err].
  - destruct He as [Hid He]. split; rewrite ?submittedIDs_snoc, ?He.
    + apply NoDup_app. split; [done|]. split; [|apply NoDup_singleton].
      intros x Hx ->%list_elem_of_singleton.
      apply Hdom in Hx as [e Hx]. congruence.
    + intros x. rewrite elem_of_app, list_elem_of_singleton, Hdom.
      destruct (decide (id = x)) as [->|Hne].
      * rewrite lookup_insert_eq. split; eauto.
      * rewrite lookup_insert_ne by done. split; [|by left].
        intros [?|?]; [done|congruence].
    + intros x e.
      intros [[<- <-]|[_ Hx]]%lookup_insert_Some; [|by apply Hf].
      split; [done|]. simpl. by destruct (isOk r).
  - split; rewrite ?submittedIDs_snoc, ?app_nil_r; [done| |].
    + intros x. by rewrite He.
    + intros x e. rewrite He. apply Hf.
  - split; rewrite ?submittedIDs_snoc, ?app_nil_r; [done| |].
    + intros x. rewrite Hdom.
      destruct He as [->|(task & expr & v & _ & Hexpr & ->)]; [done|].
      destruct (decide (Task.ExpressionID task = x)) as [<-|Hne].
      * rewrite lookup_insert_eq, Hexpr. split; eauto.
      * by rewrite lookup_insert_ne.
    + intros x e.
      destruct He as [->|(task & expr & v & _ & Hexpr & ->)];
        [apply Hf|].
      intros [[<- <-]|[_ Hx]]%lookup_insert_Some; [|by apply Hf].
      split; [by apply (Hf _ _ Hexpr)|done].
Qed.

Lemma run_exprInv (ot : OperationTimes) (evs : list (event F))
    (s : Service F) :
  run (NewService (F:=F) ot) evs s → exprInv evs s.
Proof.
  induction 1 as [|evs s ev s' Hrun IH Hstep].
  - split; [constructor| |].
    + intros id. simpl. rewrite lookup_empty. split.
      * by intros ?%elem_of_nil.
      * by intros [? ?].
    + intros id e H. simpl in H. by rewrite lookup_empty in H.
  - eapply exprInv_step; [|done..]. by eapply run_wf.
Qed.





(** X10. [GetExpressions] answers with one entry for each call of
    [SubmitExpression] made so far, the calls that returned an error
    included, whatever the order in which the map is visited; each
    entry shows the status and the result of its expression. *)
Theorem GetExpressions_lists_every_submission (ot : OperationTimes)
    (evs : list (event F)) (s : Service F) (order : list string) :
  run (NewService (F:=F) ot) evs s →
  order ≡ₚ elements (dom (expressions s)) →
  ∃ response,
    Handler.GetExpressions order s = (StatusOK, response)
    ∧ ExpressionResponse.ID <$> response ≡ₚ submittedIDs evs
    ∧ Forall (λ r, ∃ e,
                expressions s !! ExpressionResponse.ID r = Some e
                ∧ ExpressionResponse.Status r = ExpressionData.Status e
                ∧ ExpressionResponse.Result r = ExpressionData.Result e)
        response.
Proof.
  intros Hrun Hperm.
  destruct (run_exprInv ot evs s Hrun) as [Hnd Hdom Hf].
  eexists. split; [done|].
  assert (Hall : Forall (λ id, is_Some (expressions s !! id)) order).
  { apply Forall_forall. intros id Hid. rewrite Hperm in Hid.
    apply elem_of_elements, elem_of_dom in Hid. done. }
  split.
  - trans order.
    + unfold GetExpressions. clear Hperm.
      induction Hall as [|id order [e Hid] _ IH]; simpl; [done|].
      rewrite Hid. simpl. rewrite IH.
      by destruct (Hf id e Hid) as [-> _].
    + rewrite Hperm. apply NoDup_Permutation; [apply NoDup_elements|done|].
      intros id. by rewrite elem_of_elements, elem_of_dom, Hdom.
  - unfold GetExpressions. clear Hperm.
    induction Hall as [|id order [e Hid] _ IH]; simpl; [done|].
    rewrite Hid. simpl. constructor; [|done].
    exists e. simpl. by destruct (Hf id e Hid) as [-> _].
Qed.

(** *** An expression without tasks *)

Lemma step_noTasksOf (s : Service F) (ev : event F) (s' : Service F)
    (id : string) :
  wf s → noTasksOf id s → is_Some (expressions s !! id) → step s ev s' →
  noTasksOf id s' ∧ expressions s' !! id = expressions s !! id.
Proof.
  intros Hwf Hno Hid Hstep.
  pose proof (step_expressions s ev s' Hwf Hstep) as He.
  revert Hwf Hno Hid He.
  destruct Hstep as [s id' expression s' r Hid' Hsub
                    |s first r s' Hfirst Hget
                    |s order id' value s' err Hperm Hset];
    intros Hwf Hno Hid He.
  - destruct He as [_ He]. rewrite He.
    assert (id' ≠ id) as Hne by (intros ->; destruct Hid; congruence).
    split; [|by rewrite lookup_insert_ne].
    destruct (SubmitExpression_spec _ _ _ _ _ Hwf Hid' Hsub) as [Hspec _].
    intros k t Hk. destruct (tasks s !! k) as [t0|] eqn:Ek.
    + pose proof (ss_old _ _ _ _ _ Hspec k t0 Ek).
      assert (t = t0) as -> by congruence. by apply (Hno k).
    + destruct (ss_new _ _ _ _ _ Hspec k t Hk Ek) as [-> _]. done.
  - rewrite He. split; [|done].
    destruct (GetTask_spec first s Hwf Hfirst)
      as (r' & s2 & Hget' & _ & _ & _ & _ & _ & Hcase).
    assert (s2 = s') as -> by congruence.
    destruct first as [k0|]; [|by destruct Hcase as (_ & -> & _)].
    destruct Hcase as (_ & _ & t0 & Hk0 & _ & Ht).
    intros k t. rewrite Ht.
    intros [[<- <-]|[_ Hk]]%lookup_insert_Some;
      [by apply (Hno k0 t0)|by apply (Hno k t)].
  - destruct (tasks s !! id') as [task|] eqn:E.
    + destruct (SetTaskResult_spec order id' value s task Hwf Hperm E)
        as (s2 & Hset' & Hspec).
      assert (s2 = s') as -> by congruence. split.
      * intros k t. rewrite (rs_tasks _ _ _ _ _ Hspec).
        destruct (tasks s !! k) as [t0|] eqn:Ek; [|done].
        intros [= <-].
        destruct (recordedTask_fields s id' value k t0) as (_ & -> & _).
        by apply (Hno k).
      * destruct He as [->|(task' & expr & v & Htask & _ & ->)]; [done|].
        rewrite lookup_insert_ne; [done|]. apply (Hno id'). congruence.
    + rewrite SetTaskResult_not_found in Hset by done.
      by injection Hset as <- _.
Qed.

Lemma run_noTasksOf (s : Service F) (evs : list (event F)) (s' : Service F)
    (id : string) :
  wf s → noTasksOf id s → is_Some (expressions s !! id) → run s evs s' →
  noTasksOf id s' ∧ expressions s' !! id = expressions s !! id.
Proof.
  intros Hwf Hno Hid Hrun.
  induction Hrun as [|evs s1 ev s2 Hrun [IH1 IH2] Hstep]; [done|].
  destruct (step_noTasksOf s1 ev s2 id) as [H1 H2]; try done.
  - by eapply run_wf_from.
  - by rewrite IH2.
  - split; [done|congruence].
Qed.

(** X12. An expression for which [SubmitExpression] made no task never
    changes afterwards. When the call returned the id, as it does for
    a lone number, the expression stays in process for ever: no
    [SetTaskResult] can complete it. *)
Theorem expression_without_tasks_never_changes (ot : OperationTimes)
    (evs evs' : list (event F)) (s s1 s2 : Service F)
    (id expression : string) (r : result string) :
  run (NewService (F:=F) ot) evs s →
  step s (Submitted id expression r) s1 →
  taskIDCounter s1 = taskIDCounter s →
  run s1 evs' s2 →
  expressions s2 !! id
  = Some (ExpressionData.mk id (removeSpaces expression)
            (if isOk r then InProcess else Failed) None).
Proof.
  intros Hrun Hstep Hn Hrun'.
  pose proof (run_wf _ _ _ Hrun) as Hwf.
  pose proof (step_wf _ _ _ Hwf Hstep) as Hwf1.
  destruct (step_expressions _ _ _ Hwf Hstep) as [Hid He].
  assert (He1 : expressions s1 !! id
                = Some (ExpressionData.mk id (removeSpaces expression)
                          (if isOk r then InProcess else Failed) None))
    by by rewrite He, lookup_insert_eq.
  destruct (run_noTasksOf s1 evs' s2 id) as [_ ->]; try done.
  inversion Hstep as [s0 id0 e0 s0' r0 _ Hsub| |]; subst.
  destruct (SubmitExpression_built _ _ _ _ _ Hsub)
    as (postfix & mid & rb & Hb & Ht & _ & _ & _ & Hc).
  destruct (buildTasks_frame _ _ _ _ _ _ Hb) as (_ & _ & _ & _ & Hsame & _).
  rewrite Hsame in Ht by (simpl; congruence).
  intros k t. rewrite Ht. simpl. intros Hk Heq.
  destruct (wf_expr s Hwf k t Hk) as [e0 He0]. congruence.
Qed.
(** ** The request handlers *)

(** X13. What [CalculateExpression] stores can be read back: after a
    request with a new id and a non-empty expression,
    [Handler.GetExpression] answers 200 for that id, with the status
    "in process" when the request was answered 201 and "failed" when it
    was answered 422; a refused expression is stored too. Before the
    request the id is answered 404, and the answers for the other ids
    do not change. *)
Theorem CalculateExpression_then_GetExpression (ot : OperationTimes)
    (evs : list (event F)) (s s' : Service F) (id expression : string)
    (code : Z) (body : string) :
  run (NewService (F:=F) ot) evs s →
  expressions s !! id = None →
  expression ≠ "" →
  CalculateExpression id (Some expression) s = (s', (code, body)) →
  Handler.GetExpression id s = (StatusNotFound, inl "expression not found")
  ∧ (∃ status,
       Handler.GetExpression id s'
       = (StatusOK, inr (ExpressionResponse.mk id status None))
       ∧ ((code = StatusCreated ∧ body = id ∧ status = InProcess)
          ∨ (code = StatusUnprocessableEntity ∧ status = Failed)))
  ∧ ∀ id', id' ≠ id →
      Handler.GetExpression id' s' = Handler.GetExpression id' s.
Proof.
  intros Hrun Hid Hne. pose proof (run_wf _ _ _ Hrun) as Hwf.
  unfold CalculateExpression, ShouldBindJSON.
  apply String.eqb_neq in Hne. rewrite Hne.
  destruct (SubmitExpression id expression s) as [s1 r] eqn:Hsub.
  destruct (SubmitExpression_spec _ _ _ _ _ Hwf Hid Hsub) as [Hspec Hr].
  pose proof (ss_expressions _ _ _ _ _ Hspec) as He.
  unfold Handler.GetExpression, GetExpression.
  destruct Hr as [->|[err ->]]; intros [= <- <- <-];
    (split; [by rewrite Hid|]); rewrite He; simpl.
  - split.
    + exists InProcess. rewrite lookup_insert_eq. split; [done|]. by left.
    + intros id' Hne'. by rewrite lookup_insert_ne.
  - split.
    + exists Failed. rewrite lookup_insert_eq. split; [done|]. by right.
    + intros id' Hne'. by rewrite lookup_insert_ne.
Qed.

(** X14. [Handler.GetTask] never panics in a state reached by an
    execution. It answers 404 "no task available" exactly when the
    ready set is empty, and leaves the store as it is; otherwise it
    answers 200 with a task of the ready set, which it marks
    "processing" and takes out of the ready set, nothing else being
    changed. *)
Theorem Handler_GetTask_answers (ot : OperationTimes)
    (evs : list (event F)) (s : Service F) (first : option string) :
  run (NewService (F:=F) ot) evs s →
  rangeFirst (readyTasks s) first →
  ∃ s' code body,
    Handler.GetTask first s = Some (s', (code, body))
    ∧ ((readyTasks s = ∅ ∧ code = StatusNotFound
        ∧ body = inl "no task available" ∧ s' = s)
       ∨ (∃ k t, first = Some k ∧ k ∈ readyTasks s
                 ∧ tasks s !! k = Some t
                 ∧ code = StatusOK
                 ∧ body = inr (Task.setStatus "processing" t)
                 ∧ s' = setReadyTasks (readyTasks s ∖ {[k]})
                          (setTasks
                             (<[k := Task.setStatus "processing" t]>
                                (tasks s)) s))).
Proof.
  intros Hrun Hfirst. pose proof (run_wf _ _ _ Hrun) as Hwf.
  unfold Handler.GetTask. destruct first as [k|]; simpl in *.
  - destruct (wf_ready s Hwf k Hfirst) as [t Hk]. rewrite Hk.
    eexists _, _, _. split; [done|]. right. by exists k, t.
  - eexists _, _, _. split; [done|]. by left.
Qed.

(** X15. [Handler.SetTaskResult] never panics in a state reached by an
    execution. It answers 422 when the request could not be bound, 404
    "task not found" when the id is not a key of the task map, and
    leaves the store as it is in both cases; it answers 200 for every
    id of the task map. *)
Theorem Handler_SetTaskResult_answers (ot : OperationTimes)
    (evs : list (event F)) (s : Service F) (bound : result (string * F))
    (order : list string) :
  run (NewService (F:=F) ot) evs s →
  order ≡ₚ elements (dom (tasks s)) →
  ∃ s' code body,
    Handler.SetTaskResult bound order s = Some (s', (code, body))
    ∧ match bound with
      | Err err =>
          code = StatusUnprocessableEntity ∧ body = err ∧ s' = s
      | Ok (id, value) =>
          match tasks s !! id with
          | Some task =>
              code = StatusOK ∧ body = "success"
              ∧ SetTaskResult order id value s = Some (s', None)
          | None =>
              code = StatusNotFound
              ∧ body = "task not found: " +:+ id ∧ s' = s
          end
      end.
Proof.
  intros Hrun Hperm. pose proof (run_wf _ _ _ Hrun) as Hwf.
  unfold Handler.SetTaskResult. destruct bound as [[id value]|err].
  - destruct (tasks s !! id) as [task|] eqn:E.
    + destruct (SetTaskResult_spec order id value s task Hwf Hperm E)
        as (s' & -> & _).
      by eexists _, _, _.
    + rewrite SetTaskResult_not_found by done. by eexists _, _, _.
  - by eexists _, _, _.
Qed.
(** ** The worker and the configuration *)

(** A task that [GetTask] returned was ready in a state of the
    execution. *)
Lemma run_pulled (ot : OperationTimes) (evs : list (event F))
    (s : Service F) (task : Task.t F) :
  run (NewService (F:=F) ot) evs s →
  Pulled (Some task) ∈ evs →
  ∃ evs0 s0 t,
    run (NewService (F:=F) ot) evs0 s0
    ∧ Task.ID task ∈ readyTasks s0
    ∧ tasks s0 !! Task.ID task = Some t
    ∧ task = Task.setStatus "processing" t.
Proof.
  induction 1 as [|evs s ev s' Hrun IH Hstep].
  { by intros ?%elem_of_nil. }
  intros [Hin|Hev%list_elem_of_singleton]%elem_of_app; [by apply IH|].
  subst ev.
  pose proof (run_wf _ _ _ Hrun) as Hwf.
  inversion Hstep as [| s0 first r s1 Hfirst Hget |]; subst.
  destruct (GetTask_spec first s Hwf Hfirst)
    as (r' & s2 & Hget' & _ & _ & _ & _ & _ & Hcase).
  assert (r' = Some task) as -> by congruence.
  destruct first as [k|]; [|by destruct Hcase as [? _]].
  destruct Hcase as (Hk & _ & t & Hkt & [= ->] & _).
  destruct (wf_keys s Hwf k t Hkt) as [Hid _].
  exists evs, s, t. simpl. rewrite Hid. done.
Qed.

(** X16. The worker can compute every task that it is given: for a
    task returned by [GetTask] in an execution, [processTask] parses
    both operands and applies [ProcessOperation] to them; it returns a
    value or "division by zero", never "invalid arg" or "unknown
    operation". ([fmt.Sprintf("%f", v)] always parses as a number.) *)
Theorem processTask_of_pulled_task (ParseFloatError : string → string)
    (ot : OperationTimes) (evs : list (event F)) (s : Service F)
    (task : Task.t F) :
  (∀ v, isNumber (Sprintf_f v) = true) →
  run (NewService (F:=F) ot) evs s →
  Pulled (Some task) ∈ evs →
  ∃ arg1 arg2,
    ParseFloat (Task.Arg1 task) = Some arg1
    ∧ ParseFloat (Task.Arg2 task) = Some arg2
    ∧ Agent.processTask ParseFloatError task
      = ProcessOperation (Task.Operation task) arg1 arg2
    ∧ ((∃ v, Agent.processTask ParseFloatError task = Ok v)
       ∨ Agent.processTask ParseFloatError task = Err "division by zero").
Proof.
  intros Hfmt Hrun Hin.
  destruct (run_pulled ot evs s task Hrun Hin)
    as (evs0 & s0 & t & Hrun0 & Hready & Hk & ->).
  destruct (run_argsInv ot evs0 s0 Hfmt Hrun0) as [_ Hargs].
  destruct (Hargs _ t Hready Hk) as [H1 H2].
  destruct (run_taskInv ot evs0 s0 Hrun0) as [[Hop _ _ _] _].
  destruct (Hop _ t Hk) as [Ho _].
  unfold isNumber in H1, H2. unfold Agent.processTask, Agent.parseArg.
  simpl in *.
  destruct (ParseFloat (Task.Arg1 t)) as [arg1|]; [|done].
  destruct (ParseFloat (Task.Arg2 t)) as [arg2|]; [|done].
  exists arg1, arg2. split; [done|]. split; [done|]. split; [done|].
  apply isOperator_cases in Ho as [->|[->|[->| ->]]];
    unfold ProcessOperation; simpl; eauto.
  destruct (fisZero arg2); eauto.
Qed.

(** X17. The operation time of every task comes from the environment
    of the orchestrator: it is what [getEnvInt] reads from the variable
    of the task's operator, that is 1000 when the variable is unset,
    empty or not an integer. *)
Theorem operation_time_from_environment (Getenv : string → string)
    (Atoi : string → option Z) (evs : list (event F)) (s : Service F)
    (k : string) (t : Task.t F) :
  run (NewService (F:=F) (Handler.GetOperationTimes Getenv Atoi)) evs s →
  tasks s !! k = Some t →
  Task.OperationTime t
  = Handler.getEnvInt Getenv Atoi (Handler.timeVariable (Task.Operation t))
      1000
  ∧ (Getenv (Handler.timeVariable (Task.Operation t)) = ""
     ∨ Atoi (Getenv (Handler.timeVariable (Task.Operation t))) = None →
     Task.OperationTime t = 1000%Z).
Proof.
  intros Hrun Hk.
  destruct (run_taskInv _ evs s Hrun) as [[Hop _ _ _] Hot].
  destruct (Hop k t Hk) as [Ho Htime]. rewrite Hot in Htime.
  assert (Heq : Task.OperationTime t
                = Handler.getEnvInt Getenv Atoi
                    (Handler.timeVariable (Task.Operation t)) 1000).
  { rewrite Htime.
    by apply isOperator_cases in Ho as [->|[->|[->| ->]]]. }
  split; [done|]. rewrite Heq. unfold Handler.getEnvInt.
  intros [->| ->]; [done|].
  by destruct (_ =? "").
Qed.
(** ** The values that the workers compute *)

Lemma operandValue_det (s : Service F) (a : string) (v v' : F) :
  operandValue s a v → operandValue s a v' → v = v'.
Proof.
  intros H. revert v'.
  induction H as [a v Ha Hv|a t v1 v2 r v Ha _ IH1 _ IH2 Hop Hr];
    intros v' H'.
  - inversion H' as [a' w Ha' Hw|a' t' w1 w2 r' w Ha' _ _ _ _]; subst;
      congruence.
  - inversion H' as [a' w Ha' Hw|a' t' w1 w2 r' w Ha' H1 H2 Hop' Hr'];
      subst; [congruence|].
    assert (t' = t) as -> by congruence.
    rewrite (IH1 _ H1), (IH2 _ H2) in Hop. congruence.
Qed.

Lemma taskValue_det (s : Service F) (t : Task.t F) (r r' : F) :
  taskValue s t r → taskValue s t r' → r = r'.
Proof.
  intros (v1 & v2 & H1 & H2 & Hop) (w1 & w2 & H1' & H2' & Hop').
  rewrite (operandValue_det _ _ _ _ H1 H1'),
    (operandValue_det _ _ _ _ H2 H2') in Hop.
  congruence.
Qed.

(** The slot that holds the id of a task reads as the reread result of
    the task. *)
Lemma operandValue_task (s : Service F) (a : string) (t : Task.t F)
    (r v : F) :
  tasks s !! a = Some t → taskValue s t r →
  operandValue s a v ↔ reread r = Some v.
Proof.
  intros Ha Ht. split.
  - intros H. inversion H as [a' w Ha' Hw|a' t' w1 w2 r' w Ha' H1 H2 Hop Hr];
      subst; [congruence|].
    assert (t' = t) as -> by congruence.
    assert (r' = r) as -> by (eapply taskValue_det; [by exists w1, w2|done]).
    done.
  - intros Hr. destruct Ht as (v1 & v2 & H1 & H2 & Hop).
    by eapply ov_task.
Qed.

(** The slot that holds a number reads as that number. *)
Lemma operandValue_number (s : Service F) (a : string) (v : F) :
  tasks s !! a = None →
  operandValue s a v ↔ ParseFloat a = Some v.
Proof.
  intros Ha. split.
  - intros H. inversion H; subst; congruence.
  - intros Hv. by apply ov_number.
Qed.

Lemma wf_numbersNotTasks (s : Service F) :
  (∀ n, isNumber (taskName n) = false) → wf s → numbersNotTasks s.
Proof.
  intros Htask Hwf a Ha.
  destruct (tasks s !! a) as [t|] eqn:E; [|done].
  apply (wf_keys s Hwf) in E as (_ & n & -> & _).
  by rewrite Htask in Ha.
Qed.

Lemma isNumber_Some (a : string) (v : F) :
  ParseFloat a = Some v → isNumber a = true.
Proof. unfold isNumber. by intros ->. Qed.

Section Evolution.

Variables s s' : Service F.
Hypothesis Hfmt : ∀ v : F, isNumber (Sprintf_f v) = true.
Hypothesis Hnum : numbersNotTasks s.
Hypothesis Hnum' : numbersNotTasks s'.
Hypothesis Hev : evolves s s'.

Lemma slotKept_forward (a a' : string) (v : F) :
  slotKept s a a' →
  operandValue s a v →
  (a' = a → operandValue s' a v) →
  operandValue s' a' v.
Proof using Hfmt Hnum'.
  intros [->|(t & r & Ha & Ht & ->)] Hv Hsame; [by apply Hsame|].
  apply (operandValue_task s a t r v Ha Ht) in Hv.
  apply operandValue_number; [by apply Hnum'|done].
Qed.

Lemma evolves_forward (a : string) (v : F) :
  operandValue s a v → operandValue s' a v.
Proof using Hfmt Hnum' Hev.
  induction 1 as [a v Ha Hv|a t v1 v2 r v Ha H1 IH1 H2 IH2 Hop Hr].
  - apply ov_number; [|done]. apply Hnum'. by eapply isNumber_Some.
  - destruct (Hev a t Ha) as (t' & Ha' & Ho & Hs1 & Hs2).
    apply (ov_task s' a t' v1 v2 r v); try done.
    + by apply (slotKept_forward (Task.Arg1 t)).
    + by apply (slotKept_forward (Task.Arg2 t)).
    + by rewrite Ho.
Qed.

Hypothesis Hclosed : closedArgs s.

Lemma evolves_backward (a : string) (v : F) :
  operandValue s' a v →
  isNumber a = true ∨ is_Some (tasks s !! a) →
  operandValue s a v.
Proof using Hfmt Hnum Hnum' Hev Hclosed.
  induction 1 as [a v Ha Hv|a t' v1 v2 r v Ha' H1 IH1 H2 IH2 Hop Hr];
    intros Hin.
  - apply ov_number; [|done].
    destruct (tasks s !! a) as [t|] eqn:E; [|done].
    destruct (Hev a t E) as (t' & Ha' & _). congruence.
  - destruct Hin as [Hn|[t Ha]]; [apply Hnum' in Hn; congruence|].
    destruct (Hev a t Ha) as (t'' & Ha'' & Ho & Hs1 & Hs2).
    assert (t'' = t') as -> by congruence.
    assert (Hslot : ∀ b b' w, slotKept s b b' →
              (isNumber b = true ∨ is_Some (tasks s !! b)) →
              (isNumber b' = true ∨ is_Some (tasks s !! b') →
               operandValue s b' w) →
              operandValue s b w).
    { intros b b' w [->|(td & rd & Hb & Htd & ->)] Hb_in IH; [by apply IH|].
      apply (operandValue_task s b td rd w Hb Htd).
      apply (operandValue_number s (Sprintf_f rd) w); [by apply Hnum|].
      apply IH. by left. }
    apply (ov_task s a t v1 v2 r v); try done.
    + apply (Hslot _ _ _ Hs1); [|done]. apply (Hclosed a t); auto.
    + apply (Hslot _ _ _ Hs2); [|done]. apply (Hclosed a t); auto.
    + by rewrite <- Ho.
Qed.

Lemma evolves_taskValue (k : string) (t t' : Task.t F) (r : F) :
  tasks s !! k = Some t → tasks s' !! k = Some t' →
  taskValue s' t' r ↔ taskValue s t r.
Proof using Hfmt Hnum Hnum' Hev Hclosed.
  intros Hk Hk'.
  destruct (Hev k t Hk) as (t'' & Hk'' & Ho & Hs1 & Hs2).
  assert (t'' = t') as -> by congruence.
  assert (Hslot : ∀ b b' w, slotKept s b b' →
            (isNumber b = true ∨ is_Some (tasks s !! b)) →
            operandValue s' b' w ↔ operandValue s b w).
  { intros b b' w Hs Hb. split.
    - destruct Hs as [->|(td & rd & Hb' & Htd & ->)];
        [intros H; by apply evolves_backward|].
      intros H. apply (operandValue_task s b td rd w Hb' Htd).
      apply (operandValue_number s' (Sprintf_f rd) w); [by apply Hnum'|done].
    - intros H. apply (slotKept_forward b); [done..|].
      intros _. by apply evolves_forward. }
  unfold taskValue. rewrite Ho.
  split; intros (v1 & v2 & H1 & H2 & Hop); exists v1, v2.
  - split; [|split; [|done]].
    + apply (Hslot _ _ _ Hs1); [|done]. apply (Hclosed k t); auto.
    + apply (Hslot _ _ _ Hs2); [|done]. apply (Hclosed k t); auto.
  - split; [|split; [|done]].
    + apply (Hslot _ _ _ Hs1); [|done]. apply (Hclosed k t); auto.
    + apply (Hslot _ _ _ Hs2); [|done]. apply (Hclosed k t); auto.
Qed.

End Evolution.
Lemma argsInv_closedArgs (s : Service F) :
  wf s → argsInv s → closedArgs s.
Proof.
  intros Hwf [Hargs _] k t a Hk Ha.
  destruct (Hargs k t a Hk Ha) as [?|[Hd _]]; [by left|].
  right. by apply (wf_deps s Hwf k t a).
Qed.

Lemma evolves_refl (s : Service F) : evolves s s.
Proof. intros k t Hk. exists t. repeat split; try done; by left. Qed.

Lemma computedByWorkers_snoc (pfe : string → string)
    (evs : list (event F)) (ev : event F) :
  computedByWorkers pfe (evs ++ [ev]) →
  computedByWorkers pfe evs
  ∧ ∀ id value, ev = Recorded id value None →
      ∃ task, Pulled (Some task) ∈ evs ∧ Task.ID task = id
              ∧ Agent.processTask pfe task = Ok value.
Proof.
  intros H. split.
  - intros i id value Hi.
    pose proof (lookup_lt_Some _ _ _ Hi) as Hlt.
    destruct (H i id value) as (j & task & Hj & Hjt & Hid & Hp).
    { by rewrite lookup_app_l. }
    exists j, task. split; [done|]. split; [|done].
    rewrite lookup_app_l in Hjt by lia. done.
  - intros id value ->.
    destruct (H (length evs) id value) as (j & task & Hj & Hjt & Hid & Hp).
    { by apply list_lookup_middle. }
    rewrite lookup_app_l in Hjt by done.
    exists task. split; [|done]. by eapply list_elem_of_lookup_2.
Qed.

(** A step keeps the slots of the tasks, up to the substitution of a
    result that is the value of its task. *)
Lemma step_evolves (s : Service F) (ev : event F) (s' : Service F) :
  wf s → step s ev s' →
  (∀ id value task, ev = Recorded id value None →
     tasks s !! id = Some task → taskValue s task value) →
  evolves s s'.
Proof.
  intros Hwf Hstep. revert Hwf.
  destruct Hstep as [s id expression s' r Hid Hsub
                    |s first r s' Hfirst Hget
                    |s order id value s' err Hperm Hset]; intros Hwf Hval.
  - destruct (SubmitExpression_spec _ _ _ _ _ Hwf Hid Hsub) as [Hspec _].
    intros k t Hk. exists t.
    split; [by apply (ss_old _ _ _ _ _ Hspec)|]. repeat split; by left.
  - destruct (GetTask_spec first s Hwf Hfirst)
      as (r' & s2 & Hget' & _ & _ & _ & _ & _ & Hcase).
    assert (s2 = s') as -> by congruence.
    destruct first as [k0|];
      [|destruct Hcase as (_ & -> & _); apply evolves_refl].
    destruct Hcase as (_ & _ & t0 & Hk0 & _ & Ht).
    intros k t Hk. rewrite Ht.
    destruct (decide (k0 = k)) as [->|Hne].
    + rewrite lookup_insert_eq. eexists. split; [done|].
      assert (t0 = t) as -> by congruence.
      repeat split; by left.
    + rewrite lookup_insert_ne by done. exists t.
      repeat split; try done; by left.
  - destruct (tasks s !! id) as [task|] eqn:E.
    + destruct (SetTaskResult_spec order id value s task Hwf Hperm E)
        as (s2 & Hset' & Hspec).
      assert (s2 = s') as -> by congruence.
      assert (err = None) as -> by congruence.
      specialize (Hval id value task eq_refl E).
      intros k t Hk. exists (recordedTask s id value k t).
      split; [by rewrite (rs_tasks _ _ _ _ _ Hspec), Hk|].
      destruct (recordedTask_operation s id value k t) as (-> & _).
      destruct (recordedTask_args s id value k t) as [-> ->].
      split; [done|].
      assert (Hslot : ∀ a, slotKept s a (substArg id value a)).
      { intros a. destruct (substArg_cases id value a) as [[-> ->]|[_ ->]];
          [|by left].
        right. by exists task, value. }
      case_bool_decide; split; try done; by left.
    + rewrite SetTaskResult_not_found in Hset by done.
      injection Hset as <- _. apply evolves_refl.
Qed.

(** A result of the state after a step was there before, or is the
    value that the step has recorded. *)
Lemma step_result (s : Service F) (ev : event F) (s' : Service F)
    (k : string) (t' : Task.t F) (r : F) :
  wf s → step s ev s' →
  tasks s' !! k = Some t' → Task.Result t' = Some r →
  ∃ t, tasks s !! k = Some t
       ∧ (Task.Result t = Some r ∨ ev = Recorded k r None).
Proof.
  intros Hwf Hstep. revert Hwf.
  destruct Hstep as [s id expression s' r0 Hid Hsub
                    |s first r0 s' Hfirst Hget
                    |s order id value s' err Hperm Hset];
    intros Hwf Hk' Hr.
  - destruct (SubmitExpression_spec _ _ _ _ _ Hwf Hid Hsub) as [Hspec _].
    destruct (tasks s !! k) as [t|] eqn:Ek.
    + pose proof (ss_old _ _ _ _ _ Hspec k t Ek).
      exists t. split; [done|]. left. congruence.
    + destruct (ss_new _ _ _ _ _ Hspec k t' Hk' Ek) as (_ & Hnone & _).
      congruence.
  - destruct (GetTask_spec first s Hwf Hfirst)
      as (r' & s2 & Hget' & _ & _ & _ & _ & _ & Hcase).
    assert (s2 = s') as -> by congruence.
    destruct first as [k0|];
      [|destruct Hcase as (_ & -> & _); exists t'; auto].
    destruct Hcase as (_ & _ & t0 & Hk0 & _ & Ht).
    rewrite Ht in Hk'.
    apply lookup_insert_Some in Hk' as [[<- <-]|[_ Hk']].
    + exists t0. auto.
    + exists t'. auto.
  - destruct (tasks s !! id) as [task|] eqn:E.
    + destruct (SetTaskResult_spec order id value s task Hwf Hperm E)
        as (s2 & Hset' & Hspec).
      assert (s2 = s') as -> by congruence.
      assert (err = None) as -> by congruence.
      rewrite (rs_tasks _ _ _ _ _ Hspec) in Hk'.
      destruct (tasks s !! k) as [t|] eqn:Ek; [|done].
      injection Hk' as <-.
      destruct (recordedTask_fields s id value k t)
        as (_ & _ & _ & Hres & _).
      rewrite Hres in Hr. exists t. split; [done|].
      case_decide; [|by left]. right. congruence.
    + rewrite SetTaskResult_not_found in Hset by done.
      injection Hset as <- _. exists t'. auto.
Qed.

(** The values of the tasks along an execution in which the results
    are those of workers. *)
Lemma run_valueInv (pfe : string → string) (ot : OperationTimes)
    (evs : list (event F)) (s : Service F) :
  (∀ v : F, isNumber (Sprintf_f v) = true) →
  (∀ n, isNumber (taskName n) = false) →
  run (NewService (F:=F) ot) evs s →
  computedByWorkers pfe evs →
  valueInv pfe evs s.
Proof.
  intros Hfmt Htask Hrun.
  induction Hrun as [|evs s ev s' Hrun IH Hstep]; intros Hcomp.
  { split.
    - by intros task value ?%elem_of_nil.
    - intros k t r H. simpl in H. by rewrite lookup_empty in H. }
  apply computedByWorkers_snoc in Hcomp as [Hcomp Hlast].
  destruct (IH Hcomp) as [Hpulled Hresult]. clear IH.
  pose proof (run_wf _ _ _ Hrun) as Hwf.
  pose proof (step_wf _ _ _ Hwf Hstep) as Hwf'.
  pose proof (wf_numbersNotTasks s Htask Hwf) as Hnum.
  pose proof (wf_numbersNotTasks s' Htask Hwf') as Hnum'.
  pose proof (argsInv_closedArgs s Hwf (run_argsInv _ _ _ Hfmt Hrun))
    as Hclosed.
  assert (Hrec : ∀ id value task, ev = Recorded id value None →
            tasks s !! id = Some task → taskValue s task value).
  { intros id value task -> Hid.
    destruct (Hlast id value eq_refl) as (task0 & Hin & <- & Hp).
    destruct (Hpulled task0 value Hin Hp) as (t & Ht & Hv).
    congruence. }
  pose proof (step_evolves s ev s' Hwf Hstep Hrec) as Hev.
  assert (Hkeep : ∀ k t t' r, tasks s !! k = Some t →
            tasks s' !! k = Some t' → taskValue s t r → taskValue s' t' r).
  { intros k t t' r Hk Hk' Hv.
    by apply (evolves_taskValue s s' Hfmt Hnum Hnum' Hev Hclosed k t t'). }
  split.
  - intros task value [Hin|Hlast'%list_elem_of_singleton]%elem_of_app Hp.
    + destruct (Hpulled task value Hin Hp) as (t & Ht & Hv).
      destruct (Hev _ t Ht) as (t' & Ht' & _).
      exists t'. split; [done|]. by eapply Hkeep.
    + subst ev.
      inversion Hstep as [| s0 first r s1 Hfirst Hget |]; subst.
      destruct (GetTask_spec first s Hwf Hfirst)
        as (r' & s2 & Hget' & _ & _ & _ & _ & _ & Hcase).
      assert (s2 = s') as -> by congruence.
      assert (r' = Some task) as -> by congruence.
      destruct first as [k|]; [|by destruct Hcase as [? _]].
      destruct Hcase as (Hk & _ & t & Hkt & [= ->] & Ht').
      destruct (wf_keys s Hwf k t Hkt) as [Hid _].
      exists (Task.setStatus "processing" t). simpl. rewrite Hid.
      split; [by rewrite Ht', lookup_insert_eq|].
      revert Hp. unfold Agent.processTask, Agent.parseArg. simpl.
      destruct (ParseFloat (Task.Arg1 t)) as [a1|] eqn:E1; [|done].
      destruct (ParseFloat (Task.Arg2 t)) as [a2|] eqn:E2; [|done].
      intros Hp. exists a1, a2. simpl.
      split; [|split; [|done]]; apply ov_number; try done;
        apply Hnum'; by eapply isNumber_Some.
  - intros k t' r Hk' Hr.
    destruct (step_result s ev s' k t' r Hwf Hstep Hk' Hr)
      as (t & Ek & [Hr0|Hev']).
    + apply (Hkeep k t t' r Ek Hk'). by apply (Hresult k).
    + apply (Hkeep k t t' r Ek Hk'). by apply (Hrec k r t).
Qed.
(** *** The tasks that the build makes of an expression *)

Lemma exprAst_postfix :
  (∀ e, exprPostfix e = astPostfix (exprAst e))
  ∧ (∀ t, termPostfix t = astPostfix (termAst t))
  ∧ (∀ f, factorPostfix f = astPostfix (factorAst f)).
Proof.
  apply syntax_mutind; simpl; intros; congruence.
Qed.

Lemma exprAst_leaves :
  (∀ e, exprLeaves e = astLeaves (exprAst e))
  ∧ (∀ t, termLeaves t = astLeaves (termAst t))
  ∧ (∀ f, factorLeaves f = astLeaves (factorAst f)).
Proof.
  apply syntax_mutind; simpl; intros; congruence.
Qed.

Lemma exprAst_operators :
  (∀ e, astOperators (exprAst e) = true)
  ∧ (∀ t, astOperators (termAst t) = true)
  ∧ (∀ f, astOperators (factorAst f) = true).
Proof.
  apply syntax_mutind; simpl; intros; try done.
  - rewrite addopToken_operator. simpl. by rewrite H, H0.
  - rewrite mulopToken_operator. simpl. by rewrite H, H0.
Qed.

Lemma operandValue_same_tasks (s s' : Service F) (a : string) (v : F) :
  tasks s' = tasks s → operandValue s a v → operandValue s' a v.
Proof.
  intros Ht. induction 1 as [a v Ha Hv|a t v1 v2 r v Ha _ IH1 _ IH2 Hop Hr].
  - apply ov_number; [by rewrite Ht|done].
  - eapply ov_task; [by rewrite Ht|done..].
Qed.

Lemma taskValue_same_tasks (s s' : Service F) (t : Task.t F) (r : F) :
  tasks s' = tasks s → taskValue s t r → taskValue s' t r.
Proof.
  intros Ht (v1 & v2 & H1 & H2 & Hop). exists v1, v2.
  split; [by eapply operandValue_same_tasks|].
  split; [by eapply operandValue_same_tasks|done].
Qed.

Lemma keepsTasks_evolves (s s' : Service F) :
  keepsTasks s s' → evolves s s'.
Proof.
  intros H k t Hk. exists t. split; [by apply H|].
  repeat split; by left.
Qed.

Section Build.

Hypothesis Hfmt : ∀ v : F, isNumber (Sprintf_f v) = true.
Hypothesis Htask : ∀ n, isNumber (taskName n) = false.
Hypothesis Hsym : symbolsNotNumbers.

Lemma buildTasks_ast (id : string) (a : ast) :
  astOperators a = true →
  Forall (λ token, isNumber token = true) (astLeaves a) →
  ∀ (rest stack : list string) (s : Service F),
    wf s → is_Some (expressions s !! id) → closedArgs s →
    ∃ x s1,
      buildTasks id (astPostfix a ++ rest) stack s
      = buildTasks id rest (x :: stack) s1
      ∧ wf s1 ∧ expressions s1 = expressions s ∧ closedArgs s1
      ∧ keepsTasks s s1
      ∧ (isNumber x = true ∨ is_Some (tasks s1 !! x))
      ∧ (∀ v, operandValue s1 x v → workerOperand a = Some v)
      ∧ (∀ t r, tasks s1 !! x = Some t → taskValue s1 t r →
                workerValue a = Some r).
Proof using Hfmt Htask Hsym.
  induction a as [token|operation lhs IHl rhs IHr];
    intros Hops Hleaves rest stack s Hwf Hexpr Hclosed.
  - inversion_clear Hleaves as [|?? Htoken _].
    assert (Hno : tasks s !! token = None)
      by by apply (wf_numbersNotTasks s Htask Hwf).
    exists token, s. simpl.
    assert (isOperator token = false) as ->.
    { apply not_true_is_false. intros Ho.
      rewrite Hsym in Htoken; [done|by left]. }
    split; [done|]. split; [done|]. split; [done|]. split; [done|].
    split; [by intros k t|]. split; [by left|]. split.
    + intros v Hv. by apply operandValue_number in Hv.
    + intros t r Ht. congruence.
  - simpl in Hops, Hleaves.
    apply andb_prop in Hops as [[Hop Hl]%andb_prop Hr].
    apply Forall_app in Hleaves as [Hll Hlr].
    simpl. rewrite <- !app_assoc.
    destruct (IHl Hl Hll (astPostfix rhs ++ [operation] ++ rest) stack s
                Hwf Hexpr Hclosed)
      as (xl & sl & -> & Hwfl & Hel & Hcl & Hkl & Hinl & Hvl & _).
    destruct (IHr Hr Hlr ([operation] ++ rest) (xl :: stack) sl
                Hwfl ltac:(by rewrite Hel) Hcl)
      as (xr & sr & -> & Hwfr & Her & Hcr & Hkr & Hinr & Hvr & _).
    simpl. rewrite Hop.
    assert (Hexr : is_Some (expressions sr !! id)) by by rewrite Her, Hel.
    pose proof (createTask_wf id xl xr operation sr Hwfr Hexr) as Hwf1.
    pose proof (createTask_id id xl xr operation sr) as Hid.
    destruct (createTask_state id xl xr operation sr)
      as (He1 & Ht1 & _ & _ & Hn1 & _ & _).
    destruct (createTask id xl xr operation sr) as [x s1]. simpl in *.
    subst x. set (x := taskName (S (taskIDCounter sr))) in *.
    set (task := Task.mk x id xl xr operation _ None "pending" _) in Ht1.
    assert (Hfresh : tasks sr !! x = None)
      by (apply wf_fresh; [done|lia]).
    assert (Hk1 : keepsTasks sr s1).
    { intros k t Hk. rewrite Ht1, lookup_insert_ne; [done|congruence]. }
    assert (Hinl' : isNumber xl = true ∨ is_Some (tasks sr !! xl)).
    { destruct Hinl as [?|[t Ht]]; [by left|right]. rewrite (Hkr _ _ Ht).
      eauto. }
    assert (Hback : ∀ s0 a0 v,
              wf s0 → closedArgs s0 → keepsTasks s0 s1 →
              isNumber a0 = true ∨ is_Some (tasks s0 !! a0) →
              operandValue s1 a0 v → operandValue s0 a0 v).
    { intros s0 a0 v Hwf0 Hc0 Hk0 Hin0 Hv.
      apply (evolves_backward s0 s1 Hfmt
               (wf_numbersNotTasks s0 Htask Hwf0)
               (wf_numbersNotTasks s1 Htask Hwf1)
               (keepsTasks_evolves _ _ Hk0) Hc0 a0 v Hv Hin0). }
    assert (Hkl1 : keepsTasks sl s1).
    { intros k t Hk. by apply Hk1, Hkr. }
    assert (Hargs : ∀ v1 v2,
              operandValue s1 xl v1 → operandValue s1 xr v2 →
              workerOperand lhs = Some v1 ∧ workerOperand rhs = Some v2).
    { intros v1 v2 H1 H2. split.
      - apply Hvl. by apply (Hback sl xl v1).
      - apply Hvr. by apply (Hback sr xr v2). }
    exists x, s1. split; [done|]. split; [done|].
    split; [by rewrite He1, Her|]. split; [|split; [|split; [|split]]].
    + intros k t a0 Hk Ha0. rewrite Ht1 in Hk.
      apply lookup_insert_Some in Hk as [[<- <-]|[_ Hk]].
      * simpl in Ha0. destruct Ha0 as [->| ->].
        -- destruct Hinl' as [?|[t Ht]]; [by left|right].
           rewrite (Hk1 _ _ Ht). eauto.
        -- destruct Hinr as [?|[t Ht]]; [by left|right].
           rewrite (Hk1 _ _ Ht). eauto.
      * destruct (Hcr k t a0 Hk Ha0) as [?|[t0 Ht0]]; [by left|right].
        rewrite (Hk1 _ _ Ht0). eauto.
    + intros k t Hk. by apply Hk1, Hkr, Hkl.
    + right. rewrite Ht1, lookup_insert_eq. eauto.
    + intros v Hv.
      inversion Hv as [a0 w Ha0 Hw|a0 t0 w1 w2 r0 w Ha0 H1 H2 Hop0 Hr0];
        subst.
      { rewrite Ht1, lookup_insert_eq in Ha0. done. }
      rewrite Ht1, lookup_insert_eq in Ha0. injection Ha0 as <-.
      simpl in *. destruct (Hargs w1 w2 H1 H2) as [-> ->].
      by rewrite Hop0.
    + intros t r. rewrite Ht1, lookup_insert_eq. intros [= <-].
      intros (w1 & w2 & H1 & H2 & Hop0). simpl in *.
      destruct (Hargs w1 w2 H1 H2) as [-> ->]. by rewrite Hop0.
Qed.

End Build.
Section Values.

Hypothesis Hfmt : ∀ v : F, isNumber (Sprintf_f v) = true.
Hypothesis Htask : ∀ n, isNumber (taskName n) = false.
Hypothesis Hsym : symbolsNotNumbers.

(** After [SubmitExpression] has accepted the tokens of [e], the root
    task computes the value of the tree of [e]. *)
Lemma SubmitExpression_rootValue (s s' : Service F) (id text : string)
    (e : expr) (r : result string) :
  wf s → closedArgs s → expressions s !! id = None →
  tokenize (removeSpaces text) = Ok (exprTokens e) →
  Forall (λ token, isNumber token = true) (exprLeaves e) →
  SubmitExpression id text s = (s', r) →
  rootValue id (exprAst e) s'.
Proof using Hfmt Htask Hsym.
  intros Hwf Hclosed Hid Htok Hleaves.
  unfold SubmitExpression, parseExpression. rewrite Htok.
  rewrite (shuntingYard_exprTokens e Hsym Hleaves).
  set (s0 := setExpressions _ s).
  assert (Hwf0 : wf s0) by by apply wf_insert_expression.
  assert (Hexpr : is_Some (expressions s0 !! id)).
  { simpl. rewrite lookup_insert_eq. eauto. }
  destruct exprAst_postfix as [Hpost _].
  destruct exprAst_leaves as [Hlv _].
  destruct exprAst_operators as [Hops _].
  assert (Hpf : Forall postfixToken (exprPostfix e)).
  { apply (shuntingYard_tokens (exprTokens e));
      [by eapply tokenize_shape|by apply shuntingYard_exprTokens]. }
  rewrite Hlv in Hleaves.
  destruct (buildTasks_ast Hfmt Htask Hsym id (exprAst e) (Hops e) Hleaves
              [] [] s0 Hwf0 Hexpr Hclosed)
    as (x & s1 & Hb & Hwf1 & He1 & _ & Hk1 & _ & _ & Hval).
  rewrite app_nil_r, <- Hpost in Hb. simpl in Hb.
  destruct (buildTasks_buildInv s0 id Hexpr (exprPostfix e) [] s0 s1
              (Ok [x]) Hpf (buildInv_start s0 id Hwf0) Hb)
    as (stack' & Hbi & Hst).
  rewrite <- (Hst [x] eq_refl) in Hbi.
  unfold createTasksFromPostfix. rewrite Hb. simpl.
  intros [= <- _] k t v (Hk & Hex & Hdep) Hv.
  simpl in Hk. unfold dependents in Hdep. simpl in Hdep.
  fold (dependents s1 k) in Hdep.
  assert (Hk0 : tasks s0 !! k = None).
  { destruct (tasks s0 !! k) as [t0|] eqn:E; [|done].
    pose proof (Hk1 k t0 E) as Hk'. simpl in Hk'.
    assert (t0 = t) as -> by congruence.
    destruct (wf_expr s Hwf k t E) as [e0 He0]. congruence. }
  apply (bi_roots _ _ _ _ Hbi k Hk0) in Hdep; [|by eauto].
  apply list_elem_of_singleton in Hdep as ->.
  apply (Hval t v Hk). by apply (taskValue_same_tasks _ s1) in Hv.
Qed.

(** A root of an expression was a root before a step that is not the
    submission of the expression. *)
Lemma step_isRoot_rev (s : Service F) (ev : event F) (s' : Service F)
    (id k : string) (t' : Task.t F) :
  wf s → step s ev s' → is_Some (expressions s !! id) →
  isRoot s' id k t' → ∃ t, isRoot s id k t.
Proof.
  intros Hwf Hstep. revert Hwf.
  destruct Hstep as [s id' expression s' r Hid' Hsub
                    |s first r s' Hfirst Hget
                    |s order id' value s' err Hperm Hset];
    intros Hwf Hid Hroot.
  - destruct (SubmitExpression_spec _ _ _ _ _ Hwf Hid' Hsub) as [Hspec _].
    apply (sameTasksOf_isRoot_rev id s s' k t'); [|done].
    apply (submitSpec_sameTasksOf s id' _ _ s' id Hwf Hspec).
    intros ->. destruct Hid. congruence.
  - destruct (GetTask_spec first s Hwf Hfirst)
      as (r' & s2 & Hget' & _ & _ & _ & Hrev & _ & Hcase).
    assert (s2 = s') as -> by congruence.
    destruct Hroot as (Hk & He & Hd).
    assert (Hd' : dependents s k = []).
    { unfold dependents in *. by rewrite <- Hrev. }
    destruct first as [k0|];
      [|destruct Hcase as (_ & -> & _); by exists t'].
    destruct Hcase as (_ & _ & t0 & Hk0 & _ & Ht).
    rewrite Ht in Hk.
    apply lookup_insert_Some in Hk as [[<- <-]|[_ Hk]].
    + by exists t0.
    + by exists t'.
  - destruct (tasks s !! id') as [task|] eqn:E.
    + destruct (SetTaskResult_spec order id' value s task Hwf Hperm E)
        as (s2 & Hset' & Hspec).
      assert (s2 = s') as -> by congruence.
      destruct (recordSpec_graph _ _ _ _ _ Hspec) as (_ & _ & H).
      by eapply H.
    + rewrite SetTaskResult_not_found in Hset by done.
      injection Hset as <- _. by exists t'.
Qed.

Lemma run_rootValue (pfe : string → string) (ot : OperationTimes)
    (evs : list (event F)) (s : Service F) (id text : string) (e : expr) :
  run (NewService (F:=F) ot) evs s →
  computedByWorkers pfe evs →
  Submitted id text (Ok id) ∈ evs →
  tokenize (removeSpaces text) = Ok (exprTokens e) →
  Forall (λ token, isNumber token = true) (exprLeaves e) →
  rootValue id (exprAst e) s.
Proof using Hfmt Htask Hsym.
  intros Hrun Hcomp Hin Htok Hleaves.
  induction Hrun as [|evs s ev s' Hrun IH Hstep].
  { by apply elem_of_nil in Hin. }
  pose proof (run_wf _ _ _ Hrun) as Hwf.
  pose proof (step_wf _ _ _ Hwf Hstep) as Hwf'.
  pose proof (argsInv_closedArgs s Hwf (run_argsInv _ _ _ Hfmt Hrun))
    as Hclosed.
  apply elem_of_app in Hin as [Hin|Hlast%list_elem_of_singleton].
  - pose proof Hcomp as Hcomp'.
    apply computedByWorkers_snoc in Hcomp as [Hcomp Hlast].
    specialize (IH Hcomp Hin).
    destruct (run_valueInv pfe ot evs s Hfmt Htask Hrun Hcomp)
      as [Hpulled _].
    assert (Hrec : ∀ id0 value task, ev = Recorded id0 value None →
              tasks s !! id0 = Some task → taskValue s task value).
    { intros id0 value task -> Hid0.
      destruct (Hlast id0 value eq_refl) as (task0 & Hin0 & <- & Hp).
      destruct (Hpulled task0 value Hin0 Hp) as (t & Ht & Hv).
      congruence. }
    pose proof (step_evolves s ev s' Hwf Hstep Hrec) as Hev.
    intros k t' r Hroot Hv.
    destruct (step_isRoot_rev s ev s' id k t' Hwf Hstep) as [t Hroot0];
      [|done|].
    { by apply (si_submitted _ _ (run_statusInv _ _ _ Hrun) id text (Ok id)). }
    apply (IH k t r Hroot0).
    destruct Hroot as (Hk' & _), Hroot0 as (Hk & _).
    by apply (evolves_taskValue s s' Hfmt
                (wf_numbersNotTasks s Htask Hwf)
                (wf_numbersNotTasks s' Htask Hwf') Hev Hclosed k t t').
  - subst ev.
    inversion Hstep as [s0 id0 text0 s1 r0 Hid Hsub| |]; subst.
    by apply (SubmitExpression_rootValue s s' id text e (Ok id)).
Qed.

End Values.

(** When the text of each intermediate result is reread as the same
    number, the workers compute the value of the expression. *)
Lemma workerOperand_exact (a : ast) (v : F) :
  rereadExact a →
  workerOperand a = Some v → workerValue a = Some v.
Proof.
  destruct a as [token|operation lhs rhs]; [done|].
  intros Hexact. revert Hexact. simpl.
  destruct (workerOperand lhs), (workerOperand rhs); try done.
  destruct (ProcessOperation _ _ _) as [r|]; [|done].
  intros Hexact Hv. rewrite (Hexact r eq_refl) in Hv. done.
Qed.

Lemma workerValue_evalExpr :
  (∀ e v, exactOperands (exprAst e) →
          workerValue (exprAst e) = Some v → evalExpr e = Ok v)
  ∧ (∀ t v, exactOperands (termAst t) →
            workerValue (termAst t) = Some v → evalTerm t = Ok v)
  ∧ (∀ f v, exactOperands (factorAst f) →
            workerValue (factorAst f) = Some v → evalFactor f = Ok v).
Proof.
  apply syntax_mutind; simpl.
  - done.
  - intros e IHe o t IHt v (Hl & Hle & Hr & Hre).
    destruct (workerOperand (exprAst e)) as [v1|] eqn:E1; [|done].
    destruct (workerOperand (termAst t)) as [v2|] eqn:E2; [|done].
    rewrite (IHe v1), (IHt v2) by (try done; by apply workerOperand_exact).
    by destruct (ProcessOperation _ _ _); intros [= <-].
  - done.
  - intros t IHt o f IHf v (Hl & Hle & Hr & Hre).
    destruct (workerOperand (termAst t)) as [v1|] eqn:E1; [|done].
    destruct (workerOperand (factorAst f)) as [v2|] eqn:E2; [|done].
    rewrite (IHt v1), (IHf v2) by (try done; by apply workerOperand_exact).
    by destruct (ProcessOperation _ _ _); intros [= <-].
  - intros token v _. by intros ->.
  - done.
Qed.

(** X18. The result of a completed expression is what the workers
    compute for its tree: in an execution in which each recorded value
    is what [processTask] returns for a task that [GetTask] has
    returned, an expression whose tokens are those of a valid infix
    expression, once completed, holds the value of the root operation,
    the operands being numeric tokens and, for an operand that is
    itself an operation, its result printed with ["%f"] and parsed
    again. When each result that passes through an operand slot of this
    expression is read back as the same number, the result is the value
    of the expression. *)
Theorem completed_result_is_worker_value (pfe : string → string)
    (ot : OperationTimes) (evs : list (event F)) (s : Service F)
    (id text : string) (e : expr) (ex : ExpressionData.t F) :
  (∀ v : F, isNumber (Sprintf_f v) = true) →
  (∀ n, isNumber (taskName n) = false) →
  symbolsNotNumbers →
  run (NewService (F:=F) ot) evs s →
  computedByWorkers pfe evs →
  Submitted id text (Ok id) ∈ evs →
  tokenize (removeSpaces text) = Ok (exprTokens e) →
  Forall (λ token, isNumber token = true) (exprLeaves e) →
  expressions s !! id = Some ex →
  ExpressionData.Status ex = Completed →
  ∃ r, ExpressionData.Result ex = Some r
       ∧ workerValue (exprAst e) = Some r
       ∧ (exactOperands (exprAst e) → evalExpr e = Ok r).
Proof.
  intros Hfmt Htask Hsym Hrun Hcomp Hin Htok Hleaves Hex Hcompleted.
  destruct (run_statusInv ot evs s Hrun) as [_ Hcompl _ _].
  destruct (Hcompl id ex Hex Hcompleted)
    as (_ & k & t & Hroot & [r Hr] & Heq).
  destruct (run_valueInv pfe ot evs s Hfmt Htask Hrun Hcomp)
    as [_ Hresult].
  pose proof Hroot as (Hk & _).
  pose proof (Hresult k t r Hk Hr) as Hv.
  pose proof (run_rootValue Hfmt Htask Hsym pfe ot evs s id text e
                Hrun Hcomp Hin Htok Hleaves k t r Hroot Hv) as Hw.
  exists r. split; [congruence|]. split; [done|].
  intros Hexact. destruct workerValue_evalExpr as [H _].
  by apply H.
Qed.
(** ** Progress *)

Lemma step_depsSameExpression (s : Service F) (ev : event F)
    (s' : Service F) :
  wf s → depsSameExpression s → step s ev s' → depsSameExpression s'.
Proof.
  intros Hwf Hinv Hstep. revert Hwf Hinv.
  destruct Hstep as [s id expression s' r Hid Hsub
                    |s first r s' Hfirst Hget
                    |s order id value s' err Hperm Hset]; intros Hwf Hinv.
  - destruct (SubmitExpression_spec _ _ _ _ _ Hwf Hid Hsub) as [Hspec _].
    intros k t d td Hk Hd Htd.
    destruct (tasks s !! k) as [t0|] eqn:Ek.
    + pose proof (ss_old _ _ _ _ _ Hspec k t0 Ek).
      assert (t = t0) as -> by congruence.
      destruct (wf_deps s Hwf k t0 d Ek Hd) as [[td0 Htd0] _].
      pose proof (ss_old _ _ _ _ _ Hspec d td0 Htd0).
      assert (td = td0) as -> by congruence.
      by apply (Hinv k t0 d td0).
    + destruct (ss_new _ _ _ _ _ Hspec k t Hk Ek) as (-> & _ & Hdeps & _).
      destruct (Hdeps d Hd) as [_ Hd0].
      by destruct (ss_new _ _ _ _ _ Hspec d td Htd Hd0) as (-> & _).
  - destruct (GetTask_spec first s Hwf Hfirst)
      as (r' & s2 & Hget' & _ & _ & _ & _ & _ & Hcase).
    assert (s2 = s') as -> by congruence.
    destruct first as [k0|]; [|by destruct Hcase as (_ & -> & _)].
    destruct Hcase as (_ & _ & t0 & Hk0 & _ & Ht).
    assert (Hsame : ∀ k t, tasks s' !! k = Some t →
              ∃ t1, tasks s !! k = Some t1
                    ∧ Task.ExpressionID t1 = Task.ExpressionID t
                    ∧ Task.Dependencies t1 = Task.Dependencies t).
    { intros k t. rewrite Ht.
      intros [[<- <-]|[_ Hk]]%lookup_insert_Some; eauto. }
    intros k t d td Hk Hd Htd.
    destruct (Hsame k t Hk) as (t1 & Hk1 & <- & Hd1).
    destruct (Hsame d td Htd) as (td1 & Htd1 & <- & _).
    rewrite <- Hd1 in Hd. by apply (Hinv k t1 d td1).
  - destruct (tasks s !! id) as [task|] eqn:E.
    + destruct (SetTaskResult_spec order id value s task Hwf Hperm E)
        as (s2 & Hset' & Hspec).
      assert (s2 = s') as -> by congruence.
      intros k t d td. rewrite !(rs_tasks _ _ _ _ _ Hspec).
      destruct (tasks s !! k) as [t1|] eqn:Ek; [|done].
      destruct (tasks s !! d) as [td1|] eqn:Ed; [|done].
      intros [= <-] Hd [= <-].
      destruct (recordedTask_fields s id value k t1) as (_ & -> & Hd1 & _).
      destruct (recordedTask_fields s id value d td1) as (_ & -> & _).
      rewrite Hd1 in Hd. by apply (Hinv k t1 d td1).
    + rewrite SetTaskResult_not_found in Hset by done.
      by injection Hset as <- _.
Qed.

Lemma run_depsSameExpression (ot : OperationTimes) (evs : list (event F))
    (s : Service F) :
  run (NewService (F:=F) ot) evs s → depsSameExpression s.
Proof.
  induction 1 as [|evs s ev s' Hrun IH Hstep].
  - intros k t d td H. simpl in H. by rewrite lookup_empty in H.
  - eapply step_depsSameExpression; [|done..]. by eapply run_wf.
Qed.

(** Below a task without a result there is a task without a result
    whose dependencies are all completed. *)
Lemma unfinished_task_above_runnable (s : Service F) :
  wf s → taskInv s → depsSameExpression s →
  ∀ n k t, k = taskName n → tasks s !! k = Some t → Task.Result t = None →
    ∃ k' t', tasks s !! k' = Some t'
             ∧ Task.ExpressionID t' = Task.ExpressionID t
             ∧ Task.Result t' = None
             ∧ ∀ d, d ∈ Task.Dependencies t' → d ∈ completedTasks s.
Proof.
  intros Hwf [_ Hold _ _] Hsame n.
  induction (lt_wf n) as [n _ IH]. intros k t -> Hk Hr.
  destruct (decide (Forall (λ d, d ∈ completedTasks s) (Task.Dependencies t)))
    as [Hall|Hnot].
  - exists (taskName n), t. repeat split; try done.
    by apply Forall_forall.
  - apply not_Forall_Exists in Hnot; [|apply _].
    apply Exists_exists in Hnot as (d & Hd & Hdc).
    destruct (wf_deps s Hwf _ t d Hk Hd) as [[td Htd] _].
    destruct (Hold _ t d Hk Hd) as (n' & m & Hn' & -> & Hlt).
    apply taskName_inj in Hn' as <-.
    destruct (IH m Hlt (taskName m) td eq_refl Htd) as (k' & t' & ? & He & ?).
    + destruct (Task.Result td) as [v|] eqn:E; [|done].
      destruct Hdc. apply (wf_completed s Hwf). eauto.
    + exists k', t'. split; [done|]. split; [|done].
      rewrite He. by apply (Hsame (taskName n) t (taskName m) td).
Qed.

(** X19. An accepted expression is never stuck in the store: as long as
    one of its tasks has no result, one of its tasks without a result
    is in the ready set or has been returned by [GetTask]. *)
Theorem unfinished_expression_has_runnable_task (ot : OperationTimes)
    (evs : list (event F)) (s : Service F) (id expression k0 : string)
    (t0 : Task.t F) :
  (∀ n, isNumber (taskName n) = false) →
  run (NewService (F:=F) ot) evs s →
  Submitted id expression (Ok id) ∈ evs →
  tasks s !! k0 = Some t0 →
  Task.ExpressionID t0 = id →
  Task.Result t0 = None →
  ∃ k t, tasks s !! k = Some t
         ∧ Task.ExpressionID t = id
         ∧ Task.Result t = None
         ∧ (k ∈ readyTasks s ∨ k ∈ pulledIDs evs).
Proof.
  intros Htask Hrun Hin Hk0 He0 Hr0.
  pose proof (run_wf _ _ _ Hrun) as Hwf.
  destruct (run_taskInv _ _ _ Hrun) as [Hti _].
  pose proof (run_depsSameExpression _ _ _ Hrun) as Hsame.
  destruct (wf_keys s Hwf k0 t0 Hk0) as (_ & n & Hn & _).
  destruct (unfinished_task_above_runnable s Hwf Hti Hsame n k0 t0 Hn Hk0 Hr0)
    as (k & t & Hk & He & Hr & Hall).
  exists k, t. split; [done|]. split; [congruence|]. split; [done|].
  apply (run_runnableInv ot evs s Htask Hrun k t expression Hk); [|done].
  by rewrite He, He0.
Qed.

(** ** The errors of [SubmitExpression] *)

Lemma tokenize_error (expression msg : string) :
  tokenize expression = Err msg →
  ∃ b, firstInvalid expression = Some b
       ∧ msg = "invalid character in expression: " +:+ byteToString b.
Proof.
  unfold tokenize. destruct (firstInvalid expression) as [b|] eqn:E.
  - rewrite (tokenizeFrom_invalid _ _ _ _ E). intros [= <-]. eauto.
  - destruct (tokenizeFrom_valid expression [] "" E) as [out ->]. done.
Qed.

Lemma drainStack_error (operatorStack : list string) :
  ∀ output msg,
    drainStack output operatorStack = Err msg →
    msg = "mismatched parentheses".
Proof.
  induction operatorStack as [|top below IH]; intros out msg; simpl;
    [done|].
  destruct (top =? "("); [by intros [= <-]|apply IH].
Qed.

Lemma shuntingYardFrom_error (tokens : list string) :
  ∀ output operatorStack msg,
    shuntingYardFrom tokens output operatorStack = Err msg →
    msg = "mismatched parentheses".
Proof.
  induction tokens as [|token rest IH]; intros out st msg; simpl.
  - apply drainStack_error.
  - destruct (isNumber token); [apply IH|].
    destruct (isOperator token).
    { destruct (popHigher token out st). apply IH. }
    destruct (token =? "("); [apply IH|].
    destruct (token =? ")"); [|apply IH].
    destruct (popToParen out st) as [out1 [|top below]];
      [by intros [= <-]|].
    destruct (negb (top =? "(")); [by intros [= <-]|apply IH].
Qed.

(** X20. [SubmitExpression] fails in four ways only: with the first
    character that the tokenizer refuses, with "mismatched
    parentheses", with an operator that lacks operands, or with "too
    many values left on stack" (which is also the error of the empty
    expression). The expression is stored as failed in each case. *)
Theorem SubmitExpression_errors (id expression : string) (s s' : Service F)
    (msg : string) :
  SubmitExpression id expression s = (s', Err msg) →
  submitError (removeSpaces expression) msg
  ∧ expressions s' !! id
    = Some (ExpressionData.mk id (removeSpaces expression) Failed None).
Proof.
  unfold SubmitExpression, parseExpression.
  set (text := removeSpaces expression).
  set (s0 := setExpressions _ s).
  assert (Hs0 : ∀ mid rb postfix,
            buildTasks id postfix [] s0 = (mid, rb) →
            alter (ExpressionData.setStatus Failed) id (expressions mid)
              !! id
            = Some (ExpressionData.mk id text Failed None)).
  { intros mid rb postfix Hb.
    destruct (buildTasks_frame _ _ _ _ _ _ Hb) as (-> & _).
    subst s0. simpl. by rewrite lookup_alter_eq, lookup_insert_eq. }
  destruct (tokenize text) as [tokens|msg0] eqn:Et.
  - destruct (shuntingYard tokens) as [output|msg0] eqn:Es.
    + unfold createTasksFromPostfix.
      pose proof (buildTasks_depth id output [] s0) as Hd.
      destruct (buildTasks id output [] s0) as [mid rb] eqn:Eb.
      specialize (Hs0 mid rb output Eb).
      destruct rb as [stack|msg0].
      * destruct (negb (length stack =? 1)%nat); [|done].
        intros [= <- <-]. split; [|done]. by do 3 right.
      * intros [= <- <-]. split; [|done].
        simpl in Hd. destruct (postfixDepth output 0).
        -- by destruct Hd as (? & ? & [= _] & _).
        -- destruct Hd as (? & token & [= _ ->] & Hop & _).
           right; right; left. eauto.
    + intros [= <- <-]. split.
      * right; left. by eapply shuntingYardFrom_error.
      * apply (Hs0 s0 (Ok []) []). done.
  - intros [= <- <-]. split.
    + left. by apply tokenize_error.
    + apply (Hs0 s0 (Ok []) []). done.
Qed.
(** ** The tasks and the history *)

Lemma lastRecorded_snoc (k : string) (evs : list (event F))
    (ev : event F) :
  lastRecorded k (evs ++ [ev])
  = match ev with
    | Recorded id value None =>
        if id =? k then Some value else lastRecorded k evs
    | _ => lastRecorded k evs
    end.
Proof. unfold lastRecorded. by rewrite foldl_app. Qed.

(** The tasks that the first loop of the build has made are pending;
    the others are as they were. *)
Lemma buildTasks_created (exprID : string) (postfix : list string) :
  ∀ (stack : list string) (s s' : Service F) r,
    wf s → is_Some (expressions s !! exprID) →
    buildTasks exprID postfix stack s = (s', r) →
    ∀ k t, tasks s' !! k = Some t →
      tasks s !! k = Some t
      ∨ (tasks s !! k = None ∧ Task.Status t = "pending"
         ∧ ∃ n, k = taskName n ∧ (taskIDCounter s < n)%nat).
Proof.
  induction postfix as [|token rest IH]; intros stack s s' r Hwf He; simpl.
  - intros [= <- <-] k t Hk. by left.
  - destruct (isOperator token); [|by apply IH].
    destruct stack as [|arg2 [|arg1 below]];
      try (intros [= <- <-] k t Hk; by left).
    pose proof (createTask_wf exprID arg1 arg2 token s Hwf He) as Hwf1.
    destruct (createTask_state exprID arg1 arg2 token s)
      as (Hex & Ht & _ & _ & Hn & _).
    destruct (createTask exprID arg1 arg2 token s) as [taskID s1].
    simpl in *. intros Hb k t Hk.
    assert (Hfresh : tasks s !! taskName (S (taskIDCounter s)) = None)
      by (apply wf_fresh; [done|lia]).
    assert (He1 : is_Some (expressions s1 !! exprID)) by by rewrite Hex.
    destruct (IH _ _ _ _ Hwf1 He1 Hb k t Hk)
      as [Hk1|(Hk1 & Hp & n & -> & Hlt)].
    + rewrite Ht in Hk1.
      apply lookup_insert_Some in Hk1 as [[<- <-]|[_ Hk1]]; [|by left].
      right. split; [done|]. split; [done|].
      exists (S (taskIDCounter s)). split; [done|lia].
    + right. rewrite Ht in Hk1.
      apply lookup_insert_None in Hk1 as [Hk1 _].
      split; [done|]. split; [done|]. exists n. split; [done|lia].
Qed.

Lemma SubmitExpression_created (id expression : string) (s s' : Service F)
    (r : result string) :
  wf s → SubmitExpression id expression s = (s', r) →
  ∀ k t, tasks s' !! k = Some t →
    tasks s !! k = Some t
    ∨ (tasks s !! k = None ∧ Task.Status t = "pending"
       ∧ ∃ n, k = taskName n ∧ (taskIDCounter s < n)%nat).
Proof.
  intros Hwf Hsub k t Hk.
  destruct (SubmitExpression_built _ _ _ _ _ Hsub)
    as (postfix & mid & rb & Hb & Ht & _).
  rewrite Ht in Hk.
  assert (Hwf0 : wf (setExpressions
                       (<[id := ExpressionData.mk id
                                  (removeSpaces expression) Pending None]>
                          (expressions s)) s))
    by by apply wf_insert_expression.
  refine (buildTasks_created id postfix [] _ mid rb Hwf0 _ Hb k t Hk).
  simpl. rewrite lookup_insert_eq. eauto.
Qed.

Lemma run_historyInv (ot : OperationTimes) (evs : list (event F))
    (s : Service F) :
  run (NewService (F:=F) ot) evs s → historyInv evs s.
Proof.
  induction 1 as [|evs s ev s' Hrun IH Hstep].
  { intros k. simpl. rewrite lookup_empty. split; [done|].
    by intros ?%elem_of_nil. }
  pose proof (run_wf _ _ _ Hrun) as Hwf. revert IH Hwf.
  destruct Hstep as [s id expression s' r Hid Hsub
                    |s first r s' Hfirst Hget
                    |s order id value s' err Hperm Hset]; intros IH Hwf k;
    specialize (IH k); rewrite lastRecorded_snoc, pulledIDs_snoc.
  - destruct (SubmitExpression_spec _ _ _ _ _ Hwf Hid Hsub) as [Hspec _].
    rewrite app_nil_r.
    destruct (tasks s !! k) as [t|] eqn:Ek.
    + by rewrite (ss_old _ _ _ _ _ Hspec k t Ek).
    + destruct (tasks s' !! k) as [t'|] eqn:Ek'; [|done].
      destruct IH as [-> Hnp].
      destruct (ss_new _ _ _ _ _ Hspec k t' Ek' Ek) as (_ & -> & _).
      split; [done|]. rewrite bool_decide_eq_false_2 by done.
      destruct (SubmitExpression_created _ _ _ _ _ Hwf Hsub k t' Ek')
        as [?|(_ & ? & _)]; [congruence|done].
  - destruct (GetTask_spec first s Hwf Hfirst)
      as (r' & s2 & Hget' & _ & _ & _ & _ & _ & Hcase).
    assert (s2 = s') as -> by congruence.
    assert (r' = r) as -> by congruence.
    destruct first as [k0|].
    + destruct Hcase as (_ & _ & t0 & Hk0 & -> & ->). simpl.
      destruct (wf_keys s Hwf k0 t0 Hk0) as [-> _].
      destruct (decide (k0 = k)) as [->|Hne].
      * rewrite lookup_insert_eq. rewrite Hk0 in IH. simpl.
        split; [apply IH|].
        rewrite bool_decide_eq_true_2; [done|].
        apply elem_of_app. right. by left.
      * rewrite lookup_insert_ne by done.
        assert (Hiff : k ∈ pulledIDs evs ++ [k0] ↔ k ∈ pulledIDs evs).
        { rewrite elem_of_app, list_elem_of_singleton.
          split; [intros [?|?]; [done|congruence]|by left]. }
        destruct (tasks s !! k) as [t|].
        -- destruct IH as [-> ->]. split; [done|].
           by rewrite (bool_decide_ext _ _ Hiff).
        -- by rewrite Hiff.
    + destruct Hcase as (-> & -> & _). by rewrite app_nil_r.
  - rewrite app_nil_r.
    destruct (tasks s !! id) as [task|] eqn:E.
    + destruct (SetTaskResult_spec order id value s task Hwf Hperm E)
        as (s2 & Hset' & Hspec).
      assert (s2 = s') as -> by congruence.
      assert (err = None) as -> by congruence.
      rewrite (rs_tasks _ _ _ _ _ Hspec).
      destruct (tasks s !! k) as [t|] eqn:Ek; simpl.
      * destruct (recordedTask_fields s id value k t)
          as (_ & _ & _ & -> & ->).
        destruct IH as [IH1 IH2]. split; [|done].
        destruct (String.eqb_spec id k) as [->|Hne].
        -- by rewrite decide_True.
        -- by rewrite decide_False.
      * destruct (String.eqb_spec id k) as [->|Hne]; [congruence|done].
    + rewrite SetTaskResult_not_found in Hset by done.
      injection Hset as <- <-. done.
Qed.

(** X21. The result of a task is the value of the last successful
    [SetTaskResult] for it, and there is none before the first. The
    status field of a task is "pending" until [GetTask] returns the
    task and "processing" ever after: recording a result does not
    change it. *)
Theorem task_result_and_status_follow_history (ot : OperationTimes)
    (evs : list (event F)) (s : Service F) (k : string) (t : Task.t F) :
  run (NewService (F:=F) ot) evs s →
  tasks s !! k = Some t →
  Task.Result t = lastRecorded k evs
  ∧ Task.Status t
    = (if bool_decide (k ∈ pulledIDs evs) then "processing" else "pending").
Proof.
  intros Hrun Hk. pose proof (run_historyInv ot evs s Hrun k) as H.
  by rewrite Hk in H.
Qed.

Lemma run_consecutiveIDs (ot : OperationTimes) (evs : list (event F))
    (s : Service F) :
  run (NewService (F:=F) ot) evs s → consecutiveIDs s.
Proof.
  induction 1 as [|evs s ev s' Hrun IH Hstep].
  { intros k. simpl. rewrite lookup_empty. split.
    - by intros [? ?].
    - intros (n & _ & ?). lia. }
  pose proof (run_wf _ _ _ Hrun) as Hwf. revert IH Hwf.
  destruct Hstep as [s id expression s' r Hid Hsub
                    |s first r s' Hfirst Hget
                    |s order id value s' err Hperm Hset]; intros IH Hwf k.
  - destruct (SubmitExpression_spec _ _ _ _ _ Hwf Hid Hsub) as [Hspec _].
    pose proof (ss_wf _ _ _ _ _ Hspec) as Hwf'.
    split.
    + intros [t Hk].
      destruct (SubmitExpression_created _ _ _ _ _ Hwf Hsub k t Hk)
        as [Hold|(_ & _ & n & -> & Hlt)].
      * destruct (proj1 (IH k)) as (n & -> & Hn); [by eauto|].
        exists n. split; [done|].
        pose proof (ss_counter _ _ _ _ _ Hspec). lia.
      * exists n. split; [done|].
        destruct (wf_keys s' Hwf' _ t Hk) as (_ & m & Hm & Hle).
        apply taskName_inj in Hm as <-. lia.
    + intros (n & -> & Hn).
      destruct (decide (n ≤ taskIDCounter s)%nat) as [Hle|Hgt].
      * destruct (proj2 (IH (taskName n))) as [t Ht];
          [exists n; split; [done|lia]|].
        rewrite (ss_old _ _ _ _ _ Hspec _ t Ht). eauto.
      * destruct (SubmitExpression_built _ _ _ _ _ Hsub)
          as (postfix & mid & rb & Hb & Ht & _ & _ & _ & Hc).
        destruct (buildTasks_frame _ _ _ _ _ _ Hb)
          as (_ & _ & _ & _ & _ & Hin).
        rewrite Ht. apply Hin. simpl. lia.
  - destruct (GetTask_spec first s Hwf Hfirst)
      as (r' & s2 & Hget' & _ & _ & _ & _ & Hc & Hcase).
    assert (s2 = s') as -> by congruence.
    rewrite Hc, <- (IH k).
    destruct first as [k0|]; [|by destruct Hcase as (_ & -> & _)].
    destruct Hcase as (_ & _ & t0 & Hk0 & _ & ->).
    destruct (decide (k0 = k)) as [->|Hne].
    + rewrite lookup_insert_eq, Hk0. split; eauto.
    + by rewrite lookup_insert_ne.
  - destruct (tasks s !! id) as [task|] eqn:E.
    + destruct (SetTaskResult_spec order id value s task Hwf Hperm E)
        as (s2 & Hset' & Hspec).
      assert (s2 = s') as -> by congruence.
      rewrite (rs_counter _ _ _ _ _ Hspec), <- (IH k).
      rewrite (rs_tasks _ _ _ _ _ Hspec).
      destruct (tasks s !! k); simpl; split; intros [? ?]; eauto; done.
    + rewrite SetTaskResult_not_found in Hset by done.
      injection Hset as <- _. apply IH.
Qed.

Lemma step_keeps_task (s : Service F) (ev : event F) (s' : Service F)
    (k : string) :
  wf s → step s ev s' → is_Some (tasks s !! k) → is_Some (tasks s' !! k).
Proof.
  intros Hwf Hstep [t Hk]. revert Hwf Hk.
  destruct Hstep as [s id expression s' r Hid Hsub
                    |s first r s' Hfirst Hget
                    |s order id value s' err Hperm Hset]; intros Hwf Hk.
  - destruct (SubmitExpression_spec _ _ _ _ _ Hwf Hid Hsub) as [Hspec _].
    rewrite (ss_old _ _ _ _ _ Hspec k t Hk). eauto.
  - destruct (GetTask_spec first s Hwf Hfirst)
      as (r' & s2 & Hget' & _ & _ & _ & _ & _ & Hcase).
    assert (s2 = s') as -> by congruence.
    destruct first as [k0|]; [|destruct Hcase as (_ & -> & _); eauto].
    destruct Hcase as (_ & _ & t0 & Hk0 & _ & ->).
    destruct (decide (k0 = k)) as [->|Hne].
    + rewrite lookup_insert_eq. eauto.
    + rewrite lookup_insert_ne by done. eauto.
  - destruct (tasks s !! id) as [task|] eqn:E.
    + destruct (SetTaskResult_spec order id value s task Hwf Hperm E)
        as (s2 & Hset' & Hspec).
      assert (s2 = s') as -> by congruence.
      rewrite (rs_tasks _ _ _ _ _ Hspec), Hk. simpl. eauto.
    + rewrite SetTaskResult_not_found in Hset by done.
      injection Hset as <- _. eauto.
Qed.

(** X22. Tasks are never deleted and their ids are consecutive: after
    every execution the keys of the task map are exactly [task_1] to
    [task_N], where [N] is the counter of the store, and a later state
    still holds each of them. *)
Theorem task_ids_are_consecutive (ot : OperationTimes)
    (evs evs' : list (event F)) (s s' : Service F) (k : string) :
  run (NewService (F:=F) ot) evs s → run s evs' s' →
  (is_Some (tasks s !! k) ↔
   ∃ n, k = taskName n ∧ (1 ≤ n ≤ taskIDCounter s)%nat)
  ∧ (is_Some (tasks s !! k) → is_Some (tasks s' !! k)).
Proof.
  intros Hrun Hrun'. split; [by apply (run_consecutiveIDs ot evs)|].
  pose proof (run_wf _ _ _ Hrun) as Hwf.
  induction Hrun' as [|evs1 s1 ev s2 Hrun1 IH Hstep]; [done|].
  intros Hk%IH.
  pose proof (run_wf_from _ _ _ Hwf Hrun1) as Hwf1.
  by apply (step_keeps_task s1 ev s2).
Qed.
(** ** Completion *)

Lemma GetTask_sameTasksOf (first : option string) (s s' : Service F)
    (r : option (Task.t F)) (e : string) :
  wf s → rangeFirst (readyTasks s) first →
  GetTask first s = Some (r, s') → sameTasksOf e s s'.
Proof.
  intros Hwf Hfirst Hget.
  destruct (GetTask_spec first s Hwf Hfirst)
    as (r' & s2 & Hget' & _ & _ & _ & Hv & _ & Hcase).
  assert (s2 = s') as -> by congruence.
  assert (Hd : ∀ d, dependents s' d = dependents s d).
  { intros d. unfold dependents. by rewrite Hv. }
  destruct first as [k0|].
  2:{ destruct Hcase as (_ & -> & _). split; intros k t Hk Hke; eauto. }
  destruct Hcase as (_ & _ & t0 & Hk0 & _ & Ht). split.
  - intros k t Hk Hke. rewrite Ht.
    destruct (decide (k0 = k)) as [<-|Hne];
      [|rewrite lookup_insert_ne by done; eauto].
    rewrite lookup_insert_eq. assert (t = t0) as -> by congruence.
    eexists. split; [done|]. auto.
  - intros k t'. rewrite Ht.
    intros [[<- <-]|[Hne Hk]]%lookup_insert_Some Hke;
      [exists t0; auto|eauto].
Qed.

Lemma completion_transfer (id : string) (s s' : Service F) :
  sameTasksOf id s s' →
  expressions s' !! id = expressions s !! id →
  (hasTasks id s → completion id s) →
  hasTasks id s' → completion id s'.
Proof.
  intros Hsame Hexpr Hinv (k0 & t0' & Hk0 & He0).
  destruct (proj2 Hsame k0 t0' Hk0 He0) as (t0 & Hk0s & He0s & _).
  destruct Hinv as [(k & t & Hroot) Hdone]; [by exists k0, t0|].
  split.
  - destruct (sameTasksOf_isRoot id s s' k t Hsame Hroot) as (t' & ? & _).
    by exists k, t'.
  - intros Hall.
    destruct Hdone as (e & kr & tr & He & Hst & Hr & Hres).
    { intros k1 t1 Hk1 He1.
      destruct (proj1 Hsame k1 t1 Hk1 He1) as (t1' & Hk1' & He1' & <- & _).
      by apply (Hall k1 t1'). }
    destruct (sameTasksOf_isRoot id s s' kr tr Hsame Hr) as (tr' & ? & Heq).
    exists e, kr, tr'. rewrite Hexpr, Heq. done.
Qed.

Lemma run_completionInv (ot : OperationTimes) (evs : list (event F))
    (s : Service F) :
  run (NewService (F:=F) ot) evs s → completionInv evs s.
Proof.
  induction 1 as [|evs s ev s' Hrun IH Hstep].
  { by intros id expression ?%elem_of_nil. }
  pose proof (run_wf _ _ _ Hrun) as Hwf.
  pose proof (run_statusInv _ _ _ Hrun) as Hstatus.
  pose proof (run_snoc _ _ _ _ _ Hrun Hstep) as Hrun'.
  pose proof (run_wf _ _ _ Hrun') as Hwf'.
  destruct (run_taskInv _ _ _ Hrun') as [[_ Hold _ _] _].
  pose proof (run_consecutiveIDs _ _ _ Hrun') as Hcons'.
  pose proof (run_consecutiveIDs _ _ _ Hrun) as Hcons.
  clear Hrun Hrun'.
  revert IH Hwf Hstatus Hwf' Hold Hcons' Hcons.
  destruct Hstep as [s id0 expression0 s' r Hid Hsub
                    |s first r s' Hfirst Hget
                    |s order id0 value s' err Hperm Hset];
    intros IH Hwf Hstatus Hwf' Hold Hcons' Hcons id expression Hin.
  - destruct (SubmitExpression_spec _ _ _ _ _ Hwf Hid Hsub) as [Hspec _].
    pose proof (ss_expressions _ _ _ _ _ Hspec) as Hexprs.
    apply elem_of_app in Hin as [Hin|Hev%list_elem_of_singleton].
    + assert (id ≠ id0) as Hne.
      { intros ->. apply (si_submitted _ _ Hstatus) in Hin as [? ?].
        congruence. }
      apply (completion_transfer id s s').
      * by apply (submitSpec_sameTasksOf s id0 _ _ s' id Hwf Hspec).
      * by rewrite Hexprs, lookup_insert_ne.
      * by apply (IH id expression).
    + injection Hev as <- _ _.
      intros (k0 & t0 & Hk0 & He0).
      assert (Hnew : ∀ k t, tasks s' !! k = Some t →
                Task.ExpressionID t = id → tasks s !! k = None).
      { intros k t Hk He. destruct (tasks s !! k) as [t1|] eqn:E; [|done].
        pose proof (ss_old _ _ _ _ _ Hspec k t1 E).
        assert (t = t1) as -> by congruence.
        destruct (wf_expr s Hwf k t1 E). congruence. }
      pose proof (Hnew k0 t0 Hk0 He0) as Hk0s.
      destruct (wf_keys s' Hwf' k0 t0 Hk0) as (_ & n0 & -> & Hn0).
      assert (Hlt : (taskIDCounter s < taskIDCounter s')%nat).
      { destruct (decide (n0 ≤ taskIDCounter s)%nat) as [Hle|]; [|lia].
        destruct (proj2 (Hcons (taskName n0))) as [? ?]; [|congruence].
        exists n0. split; [done|].
        destruct (proj1 (Hcons' (taskName n0))) as (m & Hm & ?); [by eauto|].
        apply taskName_inj in Hm as <-. lia. }
      set (top := taskName (taskIDCounter s')).
      destruct (proj2 (Hcons' top)) as [tt Htop].
      { exists (taskIDCounter s'). split; [done|lia]. }
      assert (Htops : tasks s !! top = None).
      { destruct (tasks s !! top) eqn:E; [|done].
        destruct (proj1 (Hcons top)) as (m & Hm & ?); [by eauto|].
        apply taskName_inj in Hm as <-. lia. }
      destruct (ss_new _ _ _ _ _ Hspec top tt Htop Htops)
        as (Hett & _).
      assert (Hroot : isRoot s' id top tt).
      { split; [done|]. split; [done|].
        destruct (dependents s' top) as [|k' rest] eqn:E; [done|].
        assert (Hk' : k' ∈ dependents s' top) by (rewrite E; by left).
        destruct (wf_rev s' Hwf' top k' Hk') as (t' & Ht' & Hdep).
        destruct (Hold k' t' top Ht' Hdep) as (n' & m & -> & Hm & Hmn).
        apply taskName_inj in Hm as <-.
        destruct (wf_keys s' Hwf' _ t' Ht') as (_ & n'' & Hn'' & ?).
        apply taskName_inj in Hn'' as <-. lia. }
      split; [by exists top, tt|].
      intros Hall. specialize (Hall _ t0 Hk0 He0).
      destruct (ss_new _ _ _ _ _ Hspec _ t0 Hk0 Hk0s) as (_ & Hr0 & _).
      rewrite Hr0 in Hall. by destruct Hall.
  - apply elem_of_app in Hin as [Hin|Hev%list_elem_of_singleton]; [|done].
    destruct (GetTask_spec first s Hwf Hfirst)
      as (r' & s2 & Hget' & _ & He & _).
    assert (s2 = s') as -> by congruence.
    apply (completion_transfer id s s').
    + by eapply GetTask_sameTasksOf.
    + by rewrite He.
    + by apply (IH id expression).
  - apply elem_of_app in Hin as [Hin|Hev%list_elem_of_singleton]; [|done].
    destruct (tasks s !! id0) as [task|] eqn:E.
    + destruct (SetTaskResult_spec order id0 value s task Hwf Hperm E)
        as (s2 & Hset' & Hspec).
      assert (s2 = s') as -> by congruence.
      destruct (decide (id = Task.ExpressionID task)) as [->|Hne].
      * intros _.
        destruct (IH _ expression Hin) as [(k & t & Hroot) _];
          [by exists id0, task|].
        destruct (recordSpec_graph _ _ _ _ _ Hspec) as (_ & Hfw & _).
        destruct (Hfw _ k t Hroot) as [t' Hroot'].
        split; [by exists k, t'|].
        intros Hall.
        destruct (rs_expressions _ _ _ _ _ Hspec)
          as [[_ Hnot]|(_ & kr & tr & expr & Hr & _ & _ & ->)].
        { destruct Hnot. split; [done|]. by exists k, t'. }
        eexists _, kr, tr. rewrite lookup_insert_eq.
        split; [done|]. split; [done|]. split; [done|]. done.
      * apply (completion_transfer id s s').
        -- by apply (recordSpec_sameTasksOf s id0 value task s' id E Hspec).
        -- destruct (rs_expressions _ _ _ _ _ Hspec)
             as [[-> _]|(_ & kr & tr & expr & _ & _ & _ & ->)]; [done|].
           by rewrite lookup_insert_ne.
        -- by apply (IH id expression).
    + rewrite SetTaskResult_not_found in Hset by done.
      injection Hset as <- _. by apply (IH id expression).
Qed.

(** X23. An accepted expression is completed as soon as it can be:
    when it has tasks and each of them has a result, its status is
    "completed" and its result is the result of its root task. *)
Theorem expression_with_all_results_is_completed (ot : OperationTimes)
    (evs : list (event F)) (s : Service F) (id expression k0 : string)
    (t0 : Task.t F) :
  run (NewService (F:=F) ot) evs s →
  Submitted id expression (Ok id) ∈ evs →
  tasks s !! k0 = Some t0 → Task.ExpressionID t0 = id →
  allDone s id →
  ∃ e k t, expressions s !! id = Some e
           ∧ ExpressionData.Status e = Completed
           ∧ isRoot s id k t
           ∧ ExpressionData.Result e = Task.Result t.
Proof.
  intros Hrun Hin Hk0 He0 Hall.
  destruct (run_completionInv ot evs s Hrun id expression Hin) as [_ H];
    [by exists k0, t0|].
  by apply H.
Qed.
(** ** What a failed build leaves in the store *)




(** ** A second result for the same task *)






End Proofs.

(** * Facts about the integer instance *)

Module IntegerFacts.

Import IntegerModel.

Lemma symbols_not_numbers : symbolsNotNumbers (F:=Z).
Proof.
  intros token [H|[->| ->]]; [|reflexivity..].
  apply isOperator_cases in H as [->|[->|[->| ->]]]; reflexivity.
Qed.

Lemma pretty_N_char_digit (x : N) : isDigitByte (pretty_N_char x) = true.
Proof. unfold pretty_N_char. by repeat case_match. Qed.

Lemma pretty_N_char_not_dot (x : N) : isDotByte (pretty_N_char x) = false.
Proof. unfold pretty_N_char. by repeat case_match. Qed.

Lemma pretty_N_go_digits (x : N) :
  ∀ s, startsWithDigit s = true → allDigits s = true →
       startsWithDigit (pretty_N_go x s) = true
       ∧ allDigits (pretty_N_go x s) = true.
Proof.
  induction (N.lt_wf_0 x) as [x _ IH]; intros s Hs Hd.
  assert (x = 0 ∨ 0 < x)%N as [->|Hx] by lia.
  - by rewrite pretty_N_go_0.
  - rewrite pretty_N_go_step by done. apply IH.
    + by apply N.div_lt.
    + apply pretty_N_char_digit.
    + unfold allDigits in *. simpl.
      rewrite pretty_N_char_digit, pretty_N_char_not_dot. done.
Qed.

Lemma pretty_N_digits (x : N) :
  startsWithDigit (pretty x) = true ∧ allDigits (pretty x) = true.
Proof.
  unfold pretty, pretty_N. case_decide as Hx; [done|].
  rewrite pretty_N_go_step by lia.
  apply pretty_N_go_digits; [apply pretty_N_char_digit|].
  unfold allDigits. simpl.
  by rewrite pretty_N_char_digit, pretty_N_char_not_dot.
Qed.

Lemma unsignedSyntax_decimals (s : string) :
  startsWithDigit s = true → allDigits s = true →
  unsignedSyntax (s +:+ ".000000") = true.
Proof.
  intros Hs Hd. unfold unsignedSyntax, allDigits in *.
  apply andb_prop in Hd as [Ha Hc]. apply Nat.eqb_eq in Hc.
  assert (countDots (s +:+ ".000000") = S (countDots s)) as ->.
  { clear. induction s as [|b s IH]; simpl; [done|]. rewrite IH. lia. }
  rewrite allDigitsOrDots_app, Ha, Hc.
  destruct s; [done|]. simpl in *. by rewrite Hs.
Qed.

Lemma formatDecimal_is_number (z : Z) :
  isNumber (F:=Z) (Sprintf_f z) = true.
Proof.
  unfold isNumber. cbn [ParseFloat Sprintf_f integerFloat64].
  unfold formatDecimal.
  destruct z as [|p|p]; [done|..]; unfold pretty, pretty_Z.
  - destruct (pretty_N_digits (Npos p)) as [Hs Hd].
    change (pretty p) with (pretty (Npos p)).
    pose proof (unsignedSyntax_decimals _ Hs Hd) as Hu.
    unfold parseDecimal.
    destruct (pretty (Npos p)) as [|b s] eqn:E; [done|].
    simpl in Hs. simpl.
    destruct b as [[] [] [] [] [] [] [] []]; try discriminate;
      simpl in Hu |- *; by rewrite Hu.
  - destruct (pretty_N_digits (Npos p)) as [Hs Hd].
    change (pretty p) with (pretty (Npos p)).
    pose proof (unsignedSyntax_decimals _ Hs Hd) as Hu.
    simpl. change ("" +:+ pretty (Npos p)) with (pretty (Npos p)).
    by rewrite Hu.
Qed.

Lemma taskName_not_number (n : nat) :
  isNumber (F:=Z) (taskName n) = false.
Proof. reflexivity. Qed.

End IntegerFacts.

(** * The claims on the integer instance *)

(** The execution of C1 on [2+2*2]. *)
Lemma shuntingYard_preserves_value_witness :
  ∃ postfix,
    shuntingYard (F:=Z) ["2"; "+"; "2"; "*"; "2"] = Ok postfix
    ∧ postfix = ["2"; "2"; "2"; "*"; "+"]
    ∧ evalPostfix postfix = Ok 6%Z.
Proof.
  set (e := EBin (ETerm (TFactor (FNum "2"))) OpAdd
              (TBin (TFactor (FNum "2")) OpMul (FNum "2"))).
  change (∃ postfix, shuntingYard (F:=Z) (exprTokens e) = Ok postfix
                     ∧ postfix = exprPostfix e
                     ∧ evalPostfix postfix = evalExpr e).
  apply (shuntingYard_preserves_value (F:=Z) e).
  - apply IntegerFacts.symbols_not_numbers.
  - repeat constructor.
Defined.

(** The execution of C8 on [1+a]. *)
Lemma tokenize_tokens_and_invalid_character_witness :
  ∃ c, firstInvalid "1+a" = Some c
       ∧ allowedByte c = false
       ∧ tokenize "1+a" = Err ("invalid character in expression: "
                               +:+ byteToString c).
Proof.
  apply (proj2 (tokenize_tokens_and_invalid_character "1+a") "a"%char).
  - simpl. tauto.
  - reflexivity.
Defined.

(** Steps of an execution from a state that is known in full. *)
Ltac run_submit :=
  eapply run_cons;
  [eapply step_submit; [vm_compute; reflexivity|vm_compute; reflexivity]|].
Ltac run_pull k :=
  eapply run_cons;
  [eapply (step_pull _ (Some k));
   [unfold rangeFirst; refine (bool_decide_unpack _ _); vm_compute; exact I
   |vm_compute; reflexivity]|].
Ltac run_record :=
  eapply run_cons;
  [eapply step_record; [reflexivity|vm_compute; reflexivity]|].
Ltac run_end := apply run_nil.

Lemma run_pulledBoth :
  ∃ s, run
         (NewService defaultTimes) pulledBoth s.
Proof.
  eexists. unfold pulledBoth.
  run_submit. run_pull "task_1". run_record. run_pull "task_2". run_end.
Defined.

(** C2 fails as written: after a second result for [task_1], [task_2]
    is returned by a second pull. *)
Lemma pull_returns_task_twice :
  ∃ s, run
         (NewService defaultTimes) pulledAgain s
       ∧ ¬ NoDup (pulledIDs pulledAgain).
Proof.
  eexists. split.
  - unfold pulledAgain, pulledBoth. simpl app.
    run_submit. run_pull "task_1". run_record. run_pull "task_2".
    run_record. run_pull "task_2". run_end.
  - intros H. vm_compute in H.
    apply NoDup_cons in H as [_ H]. apply NoDup_cons in H as [H _].
    apply H. by left.
Qed.

(** The execution of C2 on [pulledBoth]. *)
Lemma pull_at_most_once_witness : NoDup (pulledIDs pulledBoth).
Proof.
  destruct run_pulledBoth as [s Hrun].
  apply (pull_at_most_once defaultTimes pulledBoth s Hrun).
  vm_compute. apply NoDup_singleton.
Defined.

Lemma run_submitted :
  run
    (NewService defaultTimes) [Submitted "e1" "2+2*2" (Ok "e1")]
    submittedStore.
Proof. run_submit. run_end. Defined.

Lemma run_recorded :
  run
    (NewService defaultTimes)
    [Submitted "e1" "2+2*2" (Ok "e1"); Recorded "task_1" 4%Z None]
    recordedStore.
Proof. run_submit. run_record. run_end. Defined.

(** C3 fails as written: the failed expression becomes completed, and
    it has two roots. *)
Lemma completed_with_two_roots :
  ∃ s e,
    run
      (NewService defaultTimes) twoRoots s
    ∧ expressions s !! "e1" = Some e
    ∧ ¬ completedIffUniqueRoot s "e1" e.
Proof.
  eexists _, _. split; [|split].
  - unfold twoRoots. run_submit. run_record. run_record. run_end.
  - vm_compute. reflexivity.
  - intros [H _].
    destruct (H eq_refl) as (_ & k & t & _ & Huniq & _).
    assert ("task_1" = k) as H1.
    { eapply Huniq. split; [vm_compute; reflexivity|]. split; reflexivity. }
    assert ("task_2" = k) as H2.
    { eapply Huniq. split; [vm_compute; reflexivity|]. split; reflexivity. }
    congruence.
Qed.

(** The execution of C3 on the store after [2+2*2] was submitted. *)
Lemma completed_iff_all_done_and_root_copied_witness :
  let e := ExpressionData.mk "e1" "2+2*2" InProcess None in
  (ExpressionData.Status e = Completed ↔
   allDone submittedStore "e1"
   ∧ ∃ k t, isRoot submittedStore "e1" k t ∧ is_Some (Task.Result t)
            ∧ ExpressionData.Result e = Task.Result t)
  ∧ (∀ expression,
       Submitted "e1" expression (Ok "e1")
       ∈ [Submitted (F:=Z) "e1" "2+2*2" (Ok "e1")] →
     ∀ k k' t t', isRoot submittedStore "e1" k t →
                  isRoot submittedStore "e1" k' t' → k = k').
Proof.
  apply (completed_iff_all_done_and_root_copied defaultTimes _ _ "e1" _
           run_submitted).
  vm_compute. reflexivity.
Defined.



(** The execution of C5: the results are 4 and 6. *)
Lemma scenario_two_plus_two_times_two_witness :
  ∃ s1,
    SubmitExpression (F:=Z) "e1" "2+2*2" (NewService defaultTimes)
    = (s1, Ok "e1")
    ∧ tasks s1
      = <["task_2" := addTask "e1" defaultTimes "task_1"]>
          (<["task_1" := mulTask "e1" defaultTimes]> ∅)
    ∧ readyTasks s1 = {["task_1"]}
    ∧ ∀ order1, order1 ≡ₚ elements (dom (tasks s1)) →
      ∃ s2,
        SetTaskResult order1 "task_1" 4%Z s1
        = Some (s2, None)
        ∧ "task_2" ∈ readyTasks s2
        ∧ tasks s2 !! "task_2"
          = Some (addTask "e1" defaultTimes "4.000000")
        ∧ ∀ order2, order2 ≡ₚ elements (dom (tasks s2)) →
          ∃ s3,
            SetTaskResult order2 "task_2" 6%Z s2
            = Some (s3, None)
            ∧ expressions s3 !! "e1"
              = Some (ExpressionData.mk "e1" "2+2*2" Completed (Some 6%Z)).
Proof.
  change "4.000000" with (Sprintf_f (F:=Z) 4%Z).
  apply (scenario_two_plus_two_times_two (F:=Z) "e1" defaultTimes 4%Z 6%Z).
  - reflexivity.
  - apply IntegerFacts.symbols_not_numbers.
Defined.

(** C6 fails as written: a result is recorded for [task_1], which no
    pull has returned. *)
Lemma record_without_pull :
  ∃ s,
    run
      (NewService defaultTimes)
      [Submitted "e1" "2+2*2" (Ok "e1"); Recorded "task_1" 4%Z None] s
    ∧ ¬ recordsFollowPulls
          [Submitted (F:=Z) "e1" "2+2*2" (Ok "e1");
           Recorded "task_1" 4%Z None].
Proof.
  exists recordedStore. split; [apply run_recorded|].
  intros H. specialize (H 1%nat "task_1" 4%Z eq_refl).
  vm_compute in H. by apply elem_of_nil in H.
Qed.

(** The execution of C6 on the store after [2+2*2] was submitted. *)
Lemma record_succeeds_iff_task_exists_witness :
  ∃ s' err,
    SetTaskResult
      (elements (dom (tasks submittedStore))) "task_1" 4%Z submittedStore
    = Some (s', err)
    ∧ (err = None ↔ is_Some (tasks submittedStore !! "task_1"))
    ∧ (err ≠ None → err = Some ("task not found: " +:+ "task_1")
                    ∧ s' = submittedStore).
Proof.
  apply (record_succeeds_iff_task_exists defaultTimes _ _ _ "task_1" 4%Z
           run_submitted).
  reflexivity.
Defined.


(** The execution of C10 on [pulledBoth]. *)
Lemma ready_tasks_have_numeric_operands_witness :
  ∃ s : Service Z,
    (∀ k t, k ∈ readyTasks s → tasks s !! k = Some t →
            numericArgs t ∧ noTaskReference t)
    ∧ (∀ task, Pulled (Some task) ∈ pulledBoth →
               numericArgs task
               ∧ noTaskReference task).
Proof.
  destruct run_pulledBoth as [s Hrun]. exists s.
  apply (ready_tasks_have_numeric_operands defaultTimes pulledBoth s
           IntegerFacts.formatDecimal_is_number
           IntegerFacts.taskName_not_number Hrun).
Defined.

(** * The further properties on the integer instance *)

(** The execution of X1 on [2+2*2]. *)
Lemma tokenize_cuts_input_witness :
  concatTokens ["2"; "+"; "2"; "*"; "2"] = "2+2*2"
  ∧ noAdjacentNumbers ["2"; "+"; "2"; "*"; "2"] = true.
Proof. apply (tokenize_cuts_input "2+2*2"). reflexivity. Defined.

(** The execution of X2 on the tokens of [12+(3.5)]. *)
Lemma tokenize_concatTokens_witness :
  tokenize (concatTokens ["12"; "+"; "("; "3.5"; ")"])
  = Ok ["12"; "+"; "("; "3.5"; ")"].
Proof.
  apply tokenize_concatTokens; [|reflexivity].
  repeat constructor; unfold tokenShape; vm_compute; tauto.
Defined.

(** The execution of X3 on the tokens of [(2+3]. *)
Lemma shuntingYard_fails_iff_unbalanced_witness :
  shuntingYard (F:=Z) ["("; "2"; "+"; "3"] = Err "mismatched parentheses".
Proof.
  exact (shuntingYard_fails_iff_unbalanced (F:=Z) ["("; "2"; "+"; "3"]
           IntegerFacts.symbols_not_numbers).
Defined.

(** The execution of X4 on the tokens of [(2+3)], with a token that is
    no number between them. *)
Lemma shuntingYard_keeps_numbers_and_operators_witness :
  ["2"; "3"; "+"]
  ≡ₚ List.filter (keptToken (F:=Z)) ["("; "2"; "+"; "1.2.3"; "3"; ")"]
  ∧ List.filter (isNumber (F:=Z)) ["2"; "3"; "+"]
    = List.filter (isNumber (F:=Z)) ["("; "2"; "+"; "1.2.3"; "3"; ")"].
Proof.
  apply (shuntingYard_keeps_numbers_and_operators (F:=Z)).
  reflexivity.
Defined.

(** The execution of X6 on the sum of [2+2*2]. *)
Lemma dependencies_are_older_tasks_witness :
  dependencyGraph submittedStore !! "task_2"
  = Some (Task.Dependencies (addTask (F:=Z) "e1" defaultTimes "task_1"))
  ∧ ∀ d, d ∈ Task.Dependencies (addTask (F:=Z) "e1" defaultTimes "task_1") →
      ∃ n m, "task_2" = taskName n ∧ d = taskName m ∧ (m < n)%nat
             ∧ is_Some (tasks submittedStore !! d).
Proof.
  apply (dependencies_are_older_tasks defaultTimes _ _ "task_2" _
           run_submitted).
  vm_compute. reflexivity.
Defined.

(** The execution of X7 on the product of [2+2*2]. *)
Lemma task_operation_and_time_witness :
  isOperator (Task.Operation (mulTask (F:=Z) "e1" defaultTimes)) = true
  ∧ Task.OperationTime (mulTask (F:=Z) "e1" defaultTimes)
    = operationTime defaultTimes
        (Task.Operation (mulTask (F:=Z) "e1" defaultTimes))
  ∧ ∀ arg1 arg2,
      (∃ v, ProcessOperation
              (Task.Operation (mulTask (F:=Z) "e1" defaultTimes)) arg1 arg2
            = Ok v)
      ∨ (Task.Operation (mulTask (F:=Z) "e1" defaultTimes) = Division
         ∧ fisZero arg2 = true
         ∧ ProcessOperation
             (Task.Operation (mulTask (F:=Z) "e1" defaultTimes)) arg1 arg2
           = Err "division by zero").
Proof.
  apply (task_operation_and_time defaultTimes _ _ "task_1" _ run_submitted).
  vm_compute. reflexivity.
Defined.

(** The execution of X8: the sum is pulled after the product has its
    result. *)
Lemma pulled_task_dependencies_completed_witness :
  "task_1" ∈ completedTasks recordedStore
  ∧ ∃ td v, tasks recordedStore !! "task_1" = Some td
            ∧ Task.Result td = Some v.
Proof.
  refine (pulled_task_dependencies_completed defaultTimes _ recordedStore _
            (Task.setStatus "processing"
               (addTask "e1" defaultTimes "4.000000"))
            run_recorded _ "task_1" _).
  - eapply (step_pull _ (Some "task_2")).
    + unfold rangeFirst. refine (bool_decide_unpack _ _). vm_compute.
      exact I.
    + vm_compute. reflexivity.
  - vm_compute. by left.
Defined.

(** The execution of X9 on the product of [2+2*2], which is ready. *)
Lemma runnable_task_is_ready_or_pulled_witness :
  "task_1" ∈ readyTasks submittedStore
  ∨ "task_1" ∈ pulledIDs [Submitted (F:=Z) "e1" "2+2*2" (Ok "e1")].
Proof.
  apply (runnable_task_is_ready_or_pulled defaultTimes _ _ "task_1"
           (mulTask "e1" defaultTimes) "2+2*2"
           IntegerFacts.taskName_not_number run_submitted).
  - vm_compute. reflexivity.
  - by left.
  - intros d Hd. simpl in Hd. by apply elem_of_nil in Hd.
Defined.

(** The execution of X10 after [2+2*2] was submitted. *)
Lemma GetExpressions_lists_every_submission_witness :
  ∃ response,
    Handler.GetExpressions ["e1"] submittedStore = (StatusOK, response)
    ∧ ExpressionResponse.ID <$> response
      ≡ₚ submittedIDs [Submitted (F:=Z) "e1" "2+2*2" (Ok "e1")]
    ∧ Forall (λ r, ∃ e,
                expressions submittedStore !! ExpressionResponse.ID r
                = Some e
                ∧ ExpressionResponse.Status r = ExpressionData.Status e
                ∧ ExpressionResponse.Result r = ExpressionData.Result e)
        response.
Proof.
  apply (GetExpressions_lists_every_submission defaultTimes _ _ ["e1"]
           run_submitted).
  vm_compute. reflexivity.
Defined.

(** A step from the state after [2+2*2] was submitted. *)
Lemma run_then_recorded :
  run submittedStore [Recorded "task_1" 4%Z None] recordedStore.
Proof. run_record. run_end. Defined.


(** The execution of X12: the lone number [5] makes no task. *)
Lemma expression_without_tasks_never_changes_witness :
  ∃ s : Service Z,
    expressions s !! "e1"
    = Some (ExpressionData.mk "e1" "5" InProcess None).
Proof.
  eexists.
  refine (expression_without_tasks_never_changes defaultTimes [] []
            (NewService defaultTimes) _ _ "e1" "5" (Ok "e1")
            (run_nil _) _ _ (run_nil _)).
  - eapply step_submit; vm_compute; reflexivity.
  - reflexivity.
Defined.

(** The execution of X13: [2+2] is calculated, then read. *)
Lemma CalculateExpression_then_GetExpression_witness :
  ∃ s' : Service Z,
    Handler.GetExpression "e1" (NewService (F:=Z) defaultTimes)
    = (StatusNotFound, inl "expression not found")
    ∧ (∃ status,
         Handler.GetExpression "e1" s'
         = (StatusOK, inr (ExpressionResponse.mk "e1" status None))
         ∧ ((StatusCreated = StatusCreated ∧ "e1" = "e1"
             ∧ status = InProcess)
            ∨ (StatusCreated = StatusUnprocessableEntity
               ∧ status = Failed)))
    ∧ ∀ id', id' ≠ "e1" →
        Handler.GetExpression id' s'
        = Handler.GetExpression id' (NewService (F:=Z) defaultTimes).
Proof.
  eexists.
  refine (CalculateExpression_then_GetExpression defaultTimes []
            (NewService defaultTimes) _ "e1" "2+2" StatusCreated "e1"
            (run_nil _) _ _ _).
  - reflexivity.
  - discriminate.
  - vm_compute. reflexivity.
Defined.

(** The execution of X14 after [2+2*2] was submitted. *)
Lemma Handler_GetTask_answers_witness :
  ∃ s' code body,
    Handler.GetTask (Some "task_1") submittedStore
    = Some (s', (code, body))
    ∧ ((readyTasks submittedStore = ∅ ∧ code = StatusNotFound
        ∧ body = inl "no task available" ∧ s' = submittedStore)
       ∨ (∃ k t, Some "task_1" = Some k ∧ k ∈ readyTasks submittedStore
                 ∧ tasks submittedStore !! k = Some t
                 ∧ code = StatusOK
                 ∧ body = inr (Task.setStatus "processing" t)
                 ∧ s' = setReadyTasks (readyTasks submittedStore ∖ {[k]})
                          (setTasks
                             (<[k := Task.setStatus "processing" t]>
                                (tasks submittedStore)) submittedStore))).
Proof.
  apply (Handler_GetTask_answers defaultTimes _ _ (Some "task_1")
           run_submitted).
  unfold rangeFirst. refine (bool_decide_unpack _ _). vm_compute. exact I.
Defined.

(** The execution of X15 for a task that is not in the store. *)
Lemma Handler_SetTaskResult_answers_witness :
  ∃ s' code body,
    Handler.SetTaskResult (Ok ("task_9", 4%Z))
      (elements (dom (tasks submittedStore))) submittedStore
    = Some (s', (code, body))
    ∧ code = StatusNotFound
    ∧ body = "task not found: " +:+ "task_9" ∧ s' = submittedStore.
Proof.
  exact (Handler_SetTaskResult_answers defaultTimes _ submittedStore
           (Ok ("task_9", 4%Z)) _ run_submitted
           (reflexivity _)).
Defined.

(** The execution of X16 on the tasks of [pulledBoth]. *)
Lemma processTask_of_pulled_task_witness :
  let task := Task.setStatus "processing" (mulTask (F:=Z) "e1" defaultTimes) in
  ∃ arg1 arg2,
    ParseFloat (Task.Arg1 task) = Some arg1
    ∧ ParseFloat (Task.Arg2 task) = Some arg2
    ∧ Agent.processTask (λ _, "invalid syntax") task
      = ProcessOperation (Task.Operation task) arg1 arg2
    ∧ ((∃ v, Agent.processTask (λ _, "invalid syntax") task = Ok v)
       ∨ Agent.processTask (λ _, "invalid syntax") task
         = Err "division by zero").
Proof.
  destruct run_pulledBoth as [s Hrun].
  apply (processTask_of_pulled_task (λ _, "invalid syntax") defaultTimes
           pulledBoth s _ IntegerFacts.formatDecimal_is_number Hrun).
  right. by left.
Defined.

(** The execution of X17 with an empty environment. *)
Lemma operation_time_from_environment_witness :
  Task.OperationTime (mulTask (F:=Z) "e1" defaultTimes)
  = Handler.getEnvInt (λ _, "") (λ _, None)
      (Handler.timeVariable
         (Task.Operation (mulTask (F:=Z) "e1" defaultTimes))) 1000
  ∧ ((λ _ : string, "")
       (Handler.timeVariable
          (Task.Operation (mulTask (F:=Z) "e1" defaultTimes))) = ""
     ∨ (λ _ : string, @None Z)
         ((λ _ : string, "")
            (Handler.timeVariable
               (Task.Operation (mulTask (F:=Z) "e1" defaultTimes))))
       = None →
     Task.OperationTime (mulTask (F:=Z) "e1" defaultTimes) = 1000%Z).
Proof.
  apply (operation_time_from_environment (λ _, "") (λ _, None)
           [Submitted "e1" "2+2*2" (Ok "e1")] submittedStore "task_1").
  - exact run_submitted.
  - vm_compute. reflexivity.
Defined.

(** The execution of X19 on the sum of [2+2*2], which waits for the
    product. *)
Lemma unfinished_expression_has_runnable_task_witness :
  ∃ k t, tasks submittedStore !! k = Some t
         ∧ Task.ExpressionID t = "e1"
         ∧ Task.Result t = None
         ∧ (k ∈ readyTasks submittedStore
            ∨ k ∈ pulledIDs [Submitted (F:=Z) "e1" "2+2*2" (Ok "e1")]).
Proof.
  apply (unfinished_expression_has_runnable_task defaultTimes _ _ "e1"
           "2+2*2" "task_2" (addTask "e1" defaultTimes "task_1")
           IntegerFacts.taskName_not_number run_submitted).
  - by left.
  - vm_compute. reflexivity.
  - reflexivity.
  - reflexivity.
Defined.

(** The execution of X20 on [2+*2], the invalid expression of the
    tests. *)
Lemma SubmitExpression_errors_witness :
  ∃ s' : Service Z,
    submitError (removeSpaces "2+*2")
      "invalid expression: not enough operands for operator +"
    ∧ expressions s' !! "e1"
      = Some (ExpressionData.mk "e1" (removeSpaces "2+*2") Failed None).
Proof.
  eexists.
  apply (SubmitExpression_errors "e1" "2+*2" (NewService defaultTimes)).
  vm_compute. reflexivity.
Defined.

(** The execution of X21 on the product of [2+2*2], whose result was
    recorded though no [GetTask] had returned it: it is still
    "pending". *)
Lemma task_result_and_status_follow_history_witness :
  let evs := [Submitted (F:=Z) "e1" "2+2*2" (Ok "e1");
              Recorded "task_1" 4%Z None] in
  let t := Task.setResult (Some 4%Z) (mulTask (F:=Z) "e1" defaultTimes) in
  Task.Result t = lastRecorded "task_1" evs
  ∧ Task.Status t
    = (if bool_decide ("task_1" ∈ pulledIDs evs)
       then "processing" else "pending").
Proof.
  apply (task_result_and_status_follow_history defaultTimes _ recordedStore
           "task_1" _ run_recorded).
  vm_compute. reflexivity.
Defined.

(** The execution of X22 on the sum of [2+2*2], before and after the
    first result. *)
Lemma task_ids_are_consecutive_witness :
  (is_Some (tasks submittedStore !! "task_2") ↔
   ∃ n, "task_2" = taskName n
        ∧ (1 ≤ n ≤ taskIDCounter submittedStore)%nat)
  ∧ (is_Some (tasks submittedStore !! "task_2") →
     is_Some (tasks recordedStore !! "task_2")).
Proof.
  exact (task_ids_are_consecutive defaultTimes _ _ submittedStore
           recordedStore "task_2" run_submitted run_then_recorded).
Defined.

Lemma run_computedRun :
  ∃ s, run (NewService defaultTimes) computedRun s
       ∧ expressions s !! "e1"
         = Some (ExpressionData.mk "e1" "2+2*2" Completed (Some 6%Z)).
Proof.
  eexists. split.
  - unfold computedRun, pulledBoth. simpl app.
    run_submit. run_pull "task_1". run_record. run_pull "task_2".
    run_record. run_end.
  - vm_compute. reflexivity.
Defined.

Lemma computedRun_by_workers :
  computedByWorkers (λ _, "invalid syntax") computedRun.
Proof.
  intros i id value Hi.
  destruct i as [|[|[|[|[|i]]]]]; simpl in Hi; try discriminate.
  - injection Hi as <- <-. eexists 1%nat, _.
    split; [lia|]. split; [reflexivity|]. split; reflexivity.
  - injection Hi as <- <-. eexists 3%nat, _.
    split; [lia|]. split; [reflexivity|]. split; reflexivity.
Defined.

(** The execution of X18 on [2+2*2]: the product 4 is read back from
    its text as 4, and the result is 6, the value of the expression. *)
Lemma completed_result_is_worker_value_witness :
  let e := EBin (ETerm (TFactor (FNum "2"))) OpAdd
             (TBin (TFactor (FNum "2")) OpMul (FNum "2")) in
  ∃ r : Z,
    Some 6%Z = Some r
    ∧ workerValue (exprAst e) = Some r
    ∧ exactOperands (F:=Z) (exprAst e)
    ∧ evalExpr e = Ok r.
Proof.
  intros e. destruct run_computedRun as (s & Hrun & Hex).
  destruct (completed_result_is_worker_value (λ _, "invalid syntax")
              defaultTimes computedRun s "e1" "2+2*2" e
              (ExpressionData.mk "e1" "2+2*2" Completed (Some 6%Z))
              IntegerFacts.formatDecimal_is_number
              IntegerFacts.taskName_not_number
              IntegerFacts.symbols_not_numbers Hrun computedRun_by_workers)
    as (r & Hr & Hw & He).
  - by left.
  - reflexivity.
  - repeat constructor.
  - exact Hex.
  - reflexivity.
  - assert (Hexact : exactOperands (F:=Z) (exprAst e)).
    { repeat split. intros r0. vm_compute. by intros [= <-]. }
    exists r. split; [exact Hr|]. split; [exact Hw|].
    split; [exact Hexact|]. exact (He Hexact).
Defined.

Lemma run_computedRun_tasks :
  ∃ s, run (NewService defaultTimes) computedRun s
       ∧ is_Some (tasks s !! "task_2")
       ∧ (∀ t, tasks s !! "task_2" = Some t → Task.ExpressionID t = "e1")
       ∧ allDone s "e1"
       ∧ expressions s !! "e1"
         = Some (ExpressionData.mk "e1" "2+2*2" Completed (Some 6%Z)).
Proof.
  eexists. split.
  - unfold computedRun, pulledBoth. simpl app.
    run_submit. run_pull "task_1". run_record. run_pull "task_2".
    run_record. run_end.
  - split; [vm_compute; eauto|].
    split; [intros t; vm_compute; by intros [= <-]|].
    split; [|vm_compute; reflexivity].
    apply (bool_decide_unpack
             (map_Forall (λ (_ : string) (t : Task.t Z),
                Task.ExpressionID t = "e1" → is_Some (Task.Result t)) _)).
    vm_compute. reflexivity.
Defined.

(** The execution of X23 on [2+2*2]: once [task_1] and [task_2] have
    their results, the expression is completed with the result 6. *)
Lemma expression_with_all_results_is_completed_witness :
  ∃ (s : Service Z) e k t,
    run (NewService defaultTimes) computedRun s
    ∧ allDone s "e1"
    ∧ expressions s !! "e1" = Some e
    ∧ ExpressionData.Status e = Completed
    ∧ isRoot s "e1" k t
    ∧ ExpressionData.Result e = Task.Result t
    ∧ ExpressionData.Result e = Some 6%Z.
Proof.
  destruct run_computedRun_tasks as (s & Hrun & [t0 Ht0] & He0 & Hall & Hex).
  destruct (expression_with_all_results_is_completed defaultTimes computedRun
              s "e1" "2+2*2" "task_2" t0 Hrun ltac:(by left) Ht0
              (He0 t0 Ht0) Hall)
    as (e & k & t & He & Hst & Hroot & Hres).
  exists s, e, k, t. repeat (split; [done|]).
  rewrite Hex in He. by injection He as <-.
Defined.
